(* ===== verification/_CoqProject ===== *)
-Q . S2P
Prelude.v
Binary64.v
Json.v
JsonParse.v
Router.v
Store.v
Database.v
Handlers.v
Wire.v
Fresh.v
CsvImport.v
Server.v
Pipeline.v
NumberParse.v
NumberStream.v
