(* ===== verification/Prelude.v ===== *)
(** * A verification development of the "tasks" HTTP API

    The repository is a small Node.js HTTP server that manages "task"
    records.  Its two source files are [src/src/server.js] (the request
    dispatcher and the CSV import stream [CSVTransform]) and
    [src/src/routes.js] (the route table with five CRUD handlers).  The
    helpers they import, [database.js], [utils/build-route-path.js],
    [utils/extract-query-params.js] and [middlewares/json.js], are not in
    the repository snapshot: they are modelled from the specification
    (spec.md, sections 4.1 and 4.2) and marked as such in the manifest.

    ** Parts of the program and how they interact

    - Pattern router ([buildRoutePath], spec-modelled): a path template
      with [:name] parameters is compiled into a matcher; [exec] returns
      the bound parameters and the optional trailing query string.
    - Datastore ([Database], spec-modelled): tables of rows kept in
      memory and written whole to a backing file after each mutation.
    - Route handlers ([routes.js]): list, create, update, delete and
      complete, each validating its input with zod schemas and calling
      the datastore; the clock ([new Date()]) and [randomUUID] are
      inputs of the handler (an environment record), not effects.
    - Dispatcher ([server.js], lines 52-77): the import path, then the
      JSON body middleware, then the first route of the table whose
      method is equal and whose matcher accepts the URL, else 404.
    - CSV import ([CSVTransform], server.js lines 8-50): per chunk, split
      on newlines, skip lines equal to the chunk's first line, blank
      lines and lines that do not have exactly two comma-separated
      fields, and post each remaining row to [/tasks] as
      [JSON.stringify({title, description})] without awaiting; each
      post's [.then] or [.catch] pushes an outcome.  The posts re-enter
      the server through the dispatcher, the body middleware
      ([JSON.parse], spec-modelled) and the create handler.
    - [InverseNumberStream] (routes.js lines 10-18): a transform that
      negates the number in each chunk, [String(Number(chunk.toString())
      * -1)]; dead code (only a commented-out route uses it).  It rests
      on the JavaScript number type: UTF-8 decoding of the chunk,
      StringToNumber with RoundMVResult to IEEE 754 binary64, and
      Number::toString with its shortest round-trip digits.

    ** Files (in dependency order)

    - [Prelude]: JavaScript string primitives used by several parts
      ([String.prototype.split] with a one-character separator,
      [includes], [trim] with its ECMAScript specification [trim_spec],
      [===]), generic lemmas on strings and lists, the [js] notation
      scope, the [tasks] hint database and the development's tactics.
    - [Binary64]: the JavaScript number type (IEEE 754 binary64):
      rounding of an exact rational to the nearest double ([round_pos],
      RoundMVResult of ECMA-262) and the shortest-digits search of
      Number::toString ([shortest]), with their soundness theorems,
      rounding to nearest and the minimality of [shortest].
    - [Json]: JSON values, the body middleware, the two zod schemas of
      routes.js (the body schema [{title: z.string(), description:
      z.string()}] and the params schema [{id: z.string().uuid()}]) and
      the string escaping of [JSON.stringify].
    - [JsonParse]: [JSON.parse] ([JSON_parse]), three parsing steps tied
      by fuel, the lemmas that each step consumes input, and the proof
      that the fuel chosen is enough.
    - [Router]: templates, [compile] (buildRoutePath), the backtracking
      matcher [exec] with the regular expression's priority order, its
      declarative reference [instance], and [extract_query_params].
    - [Store]: the datastore contract, as a type class [Datastore] whose
      laws state each operation against pure list functions on a table
      ([tbl_select], [tbl_first], [tbl_update], [tbl_delete]).
    - [Database]: the in-memory/backing-file implementation, the
      instance of the contract (refinement), and the persistence theorem.
    - [Handlers]: requests, responses, the five handlers, parametric in a
      [Datastore], with their theorems proved against the contract.
    - [Wire]: the text [res.end] writes, with [JSON.stringify] of the
      rows the list route answers, and its round trip through
      [JSON.parse].
    - [Fresh]: an environment satisfying [env_ok] exists for every table
      of fewer than [16 ^ 12] tasks (pigeonhole over UUID candidates).
    - [CsvImport]: the per-chunk transform, its properties, and the
      round trip of its posts through [JSON.parse].
    - [Server]: the route table, the dispatcher [serve], the server's
      state (datastore, posts in flight, outcomes pushed) and its step
      relations [step] and [bstep] (background: a post in flight is
      delivered or lost), the start-up state [initial_server], the
      reachable-state invariant and the stability of [created_at].
    - [Pipeline]: the CSV import end to end with [JSON_parse], one row
      and all rows, and the termination, accounting and liveness of the
      background activity.
    - [NumberParse]: [chunk.toString()] (the WHATWG UTF-8 decoder, with
      the proof that its fuel is enough) and [Number()]
      (StringToNumber: Unicode white space trimmed, the
      [StringNumericLiteral] grammar, the exact value of a literal
      rounded by [round_pos], signed zeros and infinities), and [* -1].
    - [NumberStream]: [String()] of a number (Number::toString with the
      digits of [shortest] in integer, fraction or exponential
      notation), [InverseNumberStream._transform] and the stream, with
      the round trip of [String] through [Number] and the lemmas on the
      printed text that it rests on.

    ** What is modelled and what is not

    Strings are Rocq [string]s of 8-bit characters standing for UTF-16
    code units; JavaScript white space is modelled by its members below
    [0x100] (tab, line feed, vertical tab, form feed, carriage return,
    space and the no-break space [0xA0]), the others lying outside the
    8-bit model.  In the CSV import [chunk.toString()] is the identity
    on these strings: a multi-byte UTF-8 character cut by a chunk
    boundary, which Node decodes to U+FFFD, is not modelled.
    [JSON.parse] is a parameter of the dispatcher ([json_parse] in
    Server.v, [None] when it throws), so the server's theorems hold for
    any parser; JsonParse.v defines it for the ECMA-404 grammar (numbers
    kept as their lexemes, a [\u] escape above [0x00FF] outside the
    8-bit model) and Pipeline.v uses it.  [JSON.stringify] is modelled
    for the one object the CSV import builds ([json_stringify_record])
    and for the array of rows the list route answers (Wire.v, members
    in the order of the map model of a row, where JavaScript keeps
    insertion order).  HTTP framing, headers, the socket layer and the
    serialisation of the datastore's file are not modelled: a response
    is a status code and either a text body or the list of rows sent as
    JSON ([body_text] gives the text written), and the
    file holds the table map itself, so the persistence contract is
    that the file equals the in-memory map after every mutation.
    [randomUUID] and [new Date().toISOString()] are inputs of each
    request (an [env] record); the theorems that need them state their
    assumptions (fresh identifier, well-formed UUID, clock not behind the
    stored timestamps: [env_ok]), and Fresh.v shows these can always be
    met while fewer than [16 ^ 12] tasks exist.  Concurrency is modelled
    by interleaving: the posts a CSV import fires are kept in flight in
    the server state and delivered in any order, or lost; the outcome
    each pushes is recorded as a list.  In Node the push of a plain
    object into a transform that is not in object mode is refused
    ([ERR_INVALID_ARG_TYPE], the stream is destroyed), so the client
    does not receive the outcomes; that stream error is not modelled.  The numbers of
    [InverseNumberStream] are modelled exactly, without a floating-point
    library: a double is an integer significand and exponent in
    canonical form ([valid_double]), a literal's value is an exact
    ratio of integers, and rounding and printing are computed on those
    integers.  Its chunks are byte strings (the [Buffer]); the text
    [String] gives is ASCII, so [Buffer.from] writes its characters as
    bytes.  [console.log] is output only and not modelled.

    ** Bounds and fuel

    [JSON_parse] runs its parser with fuel [2 * length + 1]: each step
    consumes a character before recursing, and [parse_value_fuel_enough]
    shows that more fuel never changes the answer.  The UTF-8 decoder of
    NumberParse.v runs with fuel the number of bytes, enough since each
    step consumes a byte ([utf8_decode_fuel_enough]); the digit search
    [shortest] tries at most 17 lengths, enough for every double
    ([shortest_some]); [decimal_number] rounds exactly only for
    exponents within [[-400, 400]] (beyond them the value is at least
    [10 ^ 401 > 2 ^ 1024] or below [10 ^ -400 < 2 ^ -1075]), and
    [decimal_number_exact] shows the result is the exact rounding
    for every exponent.  Every other function is structurally
    recursive.  The liveness theorems
    ([background_drains], [import_creates_all_rows]) and [env_ok_exists]
    assume fewer than [16 ^ 12] tasks, the number of UUIDs of the shape
    [00000000-0000-0000-0000-xxxxxxxxxxxx] used as candidates.  The
    clock and the identifier are inputs: the concrete environments of
    the examples are chosen to meet the hypotheses, not to be values
    [Date] or [randomUUID] would return.

    ** The theorems

    The claims are numbered C1-C29 in their doc comments.
    - Server and pipeline (C1-C2, C10-C11, C16, C18-C19, C22-C23):
      every reachable state of the server satisfies [tasks_inv] (six
      fields, a UUID identifier, [updated_at] not before [created_at],
      unique identifiers), by rule induction on [step]; no event
      changes the [created_at] of a task that stays; a row of a CSV
      import, once its post is delivered, creates its task and reports
      success, and the import request followed by the delivery of its
      posts creates all its rows in file order; the background activity
      reports each post exactly once; a POST followed by a GET lists
      the new task; the first matching route wins; a PUT whose URL
      carries a query after the id answers 404 [Invalid id.] whatever
      the id and query; a GET or POST below [/tasks/] that is not
      exactly the import URL answers 404.
    - Handlers (C3-C9, C12-C15, C17): the behaviour of each handler on
      every branch against the [Datastore] contract: PUT keeps
      [completed_at] and [created_at]; PATCH sets [completed_at] and
      [updated_at]; the stored rows are the task with those fields
      overwritten; POST stores a fresh task that a lookup then finds;
      DELETE removes the task and a repeated DELETE answers 404; the
      order of the checks of PUT; the status of a malformed id; the
      search filter of GET.
    - Router (C20-C21): [exec] is sound and complete for the
      declarative [instance] relation.
    - CSV import (C24, C26): the rows a chunk posts, characterised by
      its lines: every duplicate of the chunk's first line is dropped,
      the other two-field lines are posted trimmed and in order.
    - Strings (C25): [js_trim] meets ECMAScript's [trim] on its white
      space set [ecma_white_space].
    - InverseNumberStream (C27-C29): [String] of a double is a decimal
      text that reads back exactly as a significand of the least number
      of digits that rounds to the double, in exponential notation
      exactly when the decimal exponent is at most [-6] or above [21];
      the text the stream writes reads back as the negation of the
      chunk's number ([-0] becomes [+0]); [Number] of a decimal literal
      is the double nearest to its exact value.  Binary64.v carries the
      numeric lemmas they rest on: rounding gives a canonical double
      within half a unit in the last place ([round_pos_valid],
      [round_pos_half]) and within a quarter below at the bottom of a
      binade ([round_pos_bottom]); a value within those distances
      rounds to the double ([round_pos_near]); doubles are a unit
      apart, half a unit below the bottom of a binade
      ([fixed_gap_above], [fixed_gap_below]), hence rounding is to
      nearest ([round_pos_nearest]) and the values that round to a
      double form an interval ([round_between]); a candidate of [k']
      digits that reads back puts one of the [k']-digit neighbours of
      the double in that interval ([candidate_neighbour]), hence
      [shortest] is minimal ([shortest_minimal]); 17 digits always
      suffice ([shortest_some]).
    - Lemmas without a claim id: the body [GET /tasks] writes parses
      back to the rows selected (Wire.v); the posts of an import parse
      back to their rows ([JSON_parse_stringify_record]); the
      background activity terminates and can deliver every post; every
      response is well formed ([serve_response_ok]); an environment
      meeting [env_ok] exists ([env_ok_exists]); a restart reloads the
      tasks ([restart_reloads_tasks]); the UTF-8 decoder's fuel is
      enough; concrete chunks of [InverseNumberStream] behave as in
      JavaScript ([inverse_stream_chunks]).
    - Database (no claim id, spec-modelled code): the implementation is
      an instance of the contract ([db_laws]); any sequence of mutations
      leaves the file equal to memory ([db_restart_roundtrip]). *)

From stdpp Require Import base list gmap strings.
From Stdlib Require Import Ascii.

(** ** Notation scope of the development *)

Declare Scope js_scope.
Delimit Scope js_scope with js.

(** JavaScript's strict equality on strings, as a boolean. *)
Notation "x === y" := (bool_decide (x = y)) (at level 70, no associativity) : js_scope.

Create HintDb tasks.
Create Rewrite HintDb tasks.

(** ** String primitives *)

(** [String.prototype.split(sep)] for a one-character separator: the
    pieces between separators, always at least one ([""] for the empty
    string, and a trailing [""] after a final separator). *)
Fixpoint js_split (sep : ascii) (s : string) : list string :=
  match s with
  | EmptyString => [""]
  | String c s' =>
      let rest := js_split sep s' in
      if decide (c = sep) then "" :: rest
      else match rest with
           | [] => [String c ""]
           | w :: ws => String c w :: ws
           end
  end.

(** [Array.prototype.join(sep)], the inverse of [js_split]. *)
Fixpoint js_join (sep : ascii) (ws : list string) : string :=
  match ws with
  | [] => ""
  | [w] => w
  | w :: ws' => w +:+ String sep (js_join sep ws')
  end.

(** Whether a character occurs in a string. *)
Fixpoint js_has_char (c : ascii) (s : string) : bool :=
  match s with
  | EmptyString => false
  | String d s' => bool_decide (d = c) || js_has_char c s'
  end.

(** [String.prototype.includes(sub)]: [sub] occurs at some position. *)
Fixpoint js_includes (s sub : string) : bool :=
  String.prefix sub s ||
  match s with
  | EmptyString => false
  | String _ s' => js_includes s' sub
  end.

(** The white space [trim] removes that an 8-bit code unit can hold:
    tab, line feed, vertical tab, form feed, carriage return, space and
    no-break space. *)
Definition js_is_space (c : ascii) : bool :=
  match c with
  | "009" | "010" | "011" | "012" | "013" | " " | "160" => true
  | _ => false
  end%char.

Fixpoint drop_spaces (l : list ascii) : list ascii :=
  match l with
  | [] => []
  | c :: l' => if js_is_space c then drop_spaces l' else l
  end.

(** [String.prototype.trim()]: white space removed at both ends. *)
Definition js_trim (s : string) : string :=
  String.string_of_list_ascii
    (rev (drop_spaces (rev (drop_spaces (String.list_ascii_of_string s))))).



(** ** Lemmas on the string primitives *)

Lemma append_nil_l (s : string) : "" +:+ s = s.
Proof. reflexivity. Qed.

Lemma append_cons (c : ascii) (s t : string) :
  String c s +:+ t = String c (s +:+ t).
Proof. reflexivity. Qed.

Lemma append_nil_r (s : string) : s +:+ "" = s.
Proof. induction s as [|c s IH]; [done|]. by rewrite append_cons, IH. Qed.

Lemma append_assoc (a b c : string) : a +:+ (b +:+ c) = (a +:+ b) +:+ c.
Proof. induction a as [|x a IH]; [done|]. by rewrite !append_cons, IH. Qed.

Lemma length_append (a b : string) :
  String.length (a +:+ b) = String.length a + String.length b.
Proof. induction a as [|x a IH]; [done|]. rewrite append_cons. simpl. by rewrite IH. Qed.

#[export] Hint Rewrite append_nil_l append_cons append_nil_r : tasks.

(** [String.prefix] decides "is a prefix of". *)
Lemma prefix_spec (t s : string) :
  String.prefix t s = true ↔ ∃ r, s = t +:+ r.
Proof.
  revert s. induction t as [|c t IH]; intros [|d s]; simpl.
  - split; [by exists ""|done].
  - split; [by eexists|done].
  - split; [done|]. intros [r Hr]. discriminate.
  - destruct (ascii_dec c d) as [->|Hne].
    + rewrite IH. split; intros [r Hr]; exists r; [by subst|].
      rewrite append_cons in Hr. by injection Hr.
    + split; [done|]. intros [r Hr]. rewrite append_cons in Hr.
      injection Hr as ??. congruence.
Qed.

(** [includes] holds exactly when the search string occurs inside. *)
Lemma js_includes_spec (s t : string) :
  js_includes s t = true ↔ ∃ a b, s = a +:+ t +:+ b.
Proof.
  induction s as [|c s IH]; cbn [js_includes]; rewrite orb_true_iff, prefix_spec.
  - split.
    + intros [[r Hr]|?]; [|done]. exists "", r. by rewrite append_nil_l.
    + intros ([|x a] & b & Hab); [left; by exists b|].
      rewrite append_cons in Hab. discriminate.
  - rewrite IH. split.
    + intros [[r Hr]|(a & b & ->)]; [exists "", r; by rewrite append_nil_l|].
      by exists (String c a), b.
    + intros ([|x a] & b & Hab); [left; by exists b|].
      rewrite append_cons in Hab. injection Hab as -> ->. right; eauto.
Qed.

Lemma js_includes_refl (s : string) : js_includes s s = true.
Proof. apply js_includes_spec. exists "", "". by rewrite append_nil_r. Qed.

Lemma js_includes_empty (s : string) : js_includes s "" = true.
Proof. apply js_includes_spec. by exists "", s. Qed.

(** Only the empty string occurs in the empty string. *)
Lemma js_includes_in_empty (t : string) : js_includes "" t = true → t = "".
Proof. destruct t; [done|]. simpl. by destruct t. Qed.

#[export] Hint Resolve js_includes_refl js_includes_empty : tasks.

(** *** split and join *)

Lemma js_split_not_nil (sep : ascii) (s : string) : js_split sep s ≠ [].
Proof.
  induction s as [|c s IH]; simpl; [done|].
  case_decide; [done|]. by destruct (js_split sep s).
Qed.

(** Splitting then joining on the same separator gives the input back. *)
Lemma js_join_split (sep : ascii) (s : string) :
  js_join sep (js_split sep s) = s.
Proof.
  induction s as [|c s IH]; simpl; [done|].
  pose proof (js_split_not_nil sep s) as Hne.
  case_decide as Hc; subst.
  - destruct (js_split sep s) as [|w ws]; [done|]. by rewrite <-IH.
  - destruct (js_split sep s) as [|w [|w' ws]]; [done| |]; simpl in *;
      by rewrite <-IH.
Qed.

(** No piece of a split contains the separator. *)
Lemma js_split_no_sep (sep : ascii) (s : string) :
  Forall (λ w, js_has_char sep w = false) (js_split sep s).
Proof.
  induction s as [|c s IH]; simpl; [by repeat constructor|].
  pose proof (js_split_not_nil sep s) as Hne.
  case_decide as Hc; [by constructor|].
  destruct (js_split sep s) as [|w ws]; [done|].
  inversion IH; subst. constructor; [|done]. simpl.
  rewrite bool_decide_false; naive_solver.
Qed.

(** A string without the separator splits into itself. *)
Lemma js_split_without_sep (sep : ascii) (s : string) :
  js_has_char sep s = false → js_split sep s = [s].
Proof.
  induction s as [|c s IH]; simpl; [done|].
  intros [Hc Hs]%orb_false_iff. rewrite IH by done.
  rewrite decide_False; [done|]. intros ->. by rewrite bool_decide_true in Hc.
Qed.

(** Splitting a concatenation around one separator concatenates the splits. *)
Lemma js_split_app_sep (sep : ascii) (a b : string) :
  js_split sep (a +:+ String sep b) = js_split sep a ++ js_split sep b.
Proof.
  induction a as [|c a IH].
  - simpl. by rewrite decide_True.
  - rewrite append_cons. cbn [js_split]. rewrite IH.
    pose proof (js_split_not_nil sep a) as Hne.
    case_decide; [done|]. by destruct (js_split sep a).
Qed.

(** Joining lines that do not hold the separator and splitting again
    gives the lines back. *)
Lemma js_split_join (sep : ascii) (ws : list string) :
  ws ≠ [] → Forall (λ w, js_has_char sep w = false) ws → js_split sep (js_join sep ws) = ws.
Proof.
  induction ws as [|w [|w' ws] IH]; intros Hne Hws; [done| |].
  - apply Forall_cons in Hws as [Hw _]. by apply js_split_without_sep.
  - apply Forall_cons in Hws as [Hw Hws]. cbn [js_join].
    rewrite js_split_app_sep, js_split_without_sep by done. cbn [app]. f_equal.
    by apply IH.
Qed.

Lemma list_ascii_app (s1 s2 : string) :
  String.list_ascii_of_string (s1 +:+ s2) =
    String.list_ascii_of_string s1 ++ String.list_ascii_of_string s2.
Proof. induction s1 as [|c s1 IH]; [reflexivity|]. simpl. by rewrite IH. Qed.

(** ** Maps *)

(** Left-biased union, as the object spread [{...old, ...data}] reads it. *)
Lemma omap_cons {A B} (f : A → option B) (x : A) (l : list A) :
  omap f (x :: l) = match f x with Some y => y :: omap f l | None => omap f l end.
Proof. reflexivity. Qed.

Lemma length_omap_le {A B} (f : A → option B) (l : list A) : length (omap f l) ≤ length l.
Proof.
  induction l as [|x l IH]; simpl; [lia|].
  destruct (f x); simpl; [apply le_n_S|apply le_S]; exact IH.
Qed.

Lemma lookup_union_match {K V} `{Countable K} (m1 m2 : gmap K V) (k : K) :
  (m1 ∪ m2) !! k = match m1 !! k with Some v => Some v | None => m2 !! k end.
Proof. rewrite lookup_union. by destruct (m1 !! k), (m2 !! k). Qed.

(** ** Lemmas on trim *)

Lemma drop_spaces_head (l l' : list ascii) (c : ascii) :
  drop_spaces l = c :: l' → js_is_space c = false.
Proof.
  induction l as [|d l IH]; simpl; [done|].
  destruct (js_is_space d) eqn:E; [exact IH|]. by intros [= <- _].
Qed.

Lemma drop_spaces_nil (l : list ascii) :
  drop_spaces l = [] ↔ Forall (λ c, js_is_space c = true) l.
Proof.
  induction l as [|c l IH]; simpl; [split; auto|].
  rewrite Forall_cons. destruct (js_is_space c); naive_solver.
Qed.

Lemma drop_spaces_incl (l : list ascii) (c : ascii) : c ∈ drop_spaces l → c ∈ l.
Proof.
  induction l as [|d l IH]; simpl; [done|].
  destruct (js_is_space d); [|done]. intros ?%IH. by right.
Qed.

Lemma string_of_list_ascii_nil (l : list ascii) :
  String.string_of_list_ascii l = "" → l = [].
Proof. destruct l; [done|discriminate]. Qed.

(** A string that trims to [""] is white space only. *)
Lemma js_trim_empty (s : string) :
  js_trim s = "" → Forall (λ c, js_is_space c = true) (String.list_ascii_of_string s).
Proof.
  unfold js_trim. intros Hs%string_of_list_ascii_nil.
  apply (f_equal (@rev ascii)) in Hs. rewrite rev_involutive in Hs. simpl in Hs.
  apply drop_spaces_nil in Hs. apply Forall_rev in Hs. rewrite rev_involutive in Hs.
  apply drop_spaces_nil.
  destruct (drop_spaces (String.list_ascii_of_string s)) as [|c l] eqn:E; [done|].
  apply drop_spaces_head in E. inversion Hs. congruence.
Qed.

(** Trimming only removes characters. *)
Lemma js_trim_incl (s : string) (c : ascii) :
  c ∈ String.list_ascii_of_string (js_trim s) → c ∈ String.list_ascii_of_string s.
Proof.
  unfold js_trim. rewrite String.list_ascii_of_string_of_list_ascii.
  rewrite !list_elem_of_In, <-!in_rev, <-!list_elem_of_In.
  intros ?%drop_spaces_incl. rewrite list_elem_of_In, <-in_rev, <-list_elem_of_In in H.
  by apply drop_spaces_incl.
Qed.

Lemma js_has_char_spec (c : ascii) (s : string) :
  js_has_char c s = true ↔ c ∈ String.list_ascii_of_string s.
Proof.
  induction s as [|d s IH]; simpl; [split; [done|by intros ?%elem_of_nil]|].
  rewrite orb_true_iff, IH, elem_of_cons, bool_decide_eq_true. naive_solver.
Qed.

Lemma js_split_incl (sep : ascii) (s w : string) (c : ascii) :
  w ∈ js_split sep s → c ∈ String.list_ascii_of_string w → c ∈ String.list_ascii_of_string s.
Proof.
  revert w. induction s as [|d s IH]; intros w; simpl.
  - intros ->%list_elem_of_singleton. done.
  - pose proof (js_split_not_nil sep s) as Hne.
    case_decide.
    + intros [->|Hw]%elem_of_cons; [by intros ?%elem_of_nil|]. intros ?. right. by eapply IH.
    + destruct (js_split sep s) as [|w' ws] eqn:E; [done|].
      intros [->|Hw]%elem_of_cons.
      * simpl. intros [->|Hc]%elem_of_cons; [left|right]. by apply (IH w'); [left|].
      * intros ?. right. apply (IH w); [by right|done].
Qed.

(** A string that splits into two pieces contains the separator. *)
Lemma js_split_two_has_sep (sep : ascii) (s a b : string) :
  js_split sep s = [a; b] → js_has_char sep s = true.
Proof.
  destruct (js_has_char sep s) eqn:E; [done|].
  by rewrite js_split_without_sep.
Qed.








(** ** Tactics *)

(** Close a decidable proposition about concrete data by evaluating its
    decision procedure (the proposition itself is not normalised). *)
Ltac decide_by_eval := apply (bool_decide_unpack _); vm_compute; exact I.
