(* ===== verification/Binary64.v ===== *)
(** * The JavaScript number type: IEEE 754 binary64 (ECMA-262, 6.1.6.1)

    [InverseNumberStream] (routes.js, lines 10-18) computes
    [String(Number(text) * -1)].  [Number] rounds the exact value of a
    numeric literal to the nearest double (ties to even, RoundMVResult
    of ECMA-262 7.1.4.1.2); [String] of a finite double is
    Number::toString (ECMA-262 6.1.6.1.20): the shortest decimal
    significand [s] of [k] digits, with the decimal exponent [n] of
    [s * 10 ^ (n - k)], that reads back as the same double.

    A positive finite double is [mk_double m e], of value [m * 2 ^ e],
    in canonical form ([valid_double]): a normal number has
    [2 ^ 52 <= m < 2 ^ 53], a subnormal one has [e = emin]; exponents
    lie in [emin, emax].  Exact positive rationals are pairs
    [(a, b)] of positive integers standing for [a / b]; scaling by a
    power of a base is [scaled], which multiplies the numerator or the
    denominator as the sign of the exponent says.

    [round_pos] is the rounding of a positive rational to a double,
    zero or infinity; [shortest] is the digit search of
    Number::toString.  The lemmas show that rounding returns a double
    within half a unit of its last place ([round_pos_sound]), that a
    rational within that distance of a double rounds to it
    ([round_pos_near]), that seventeen digits always suffice
    ([shortest_some]), that rounding is to nearest
    ([round_pos_nearest]) and that [shortest] takes the fewest digits
    that read back ([shortest_minimal]).  Distances to a double are
    measured in units of the least subnormal [2 ^ emin]: [fixed d] is
    the value of [d] in those units and [ulp d] the unit of its last
    place. *)

From Stdlib Require Import Utf8 Bool ZArith Lia.

Local Open Scope Z_scope.
Local Open Scope bool_scope.

Definition emin : Z := -1074.
Definition emax : Z := 971.

Record double := mk_double { dbl_m : Z; dbl_e : Z }.

Definition valid_double (d : double) : bool :=
  (0 <? dbl_m d) && (dbl_m d <? 2 ^ 53) && (emin <=? dbl_e d) && (dbl_e d <=? emax) &&
  ((2 ^ 52 <=? dbl_m d) || (dbl_e d =? emin)).

Definition double_eqb (d1 d2 : double) : bool :=
  (dbl_m d1 =? dbl_m d2) && (dbl_e d1 =? dbl_e d2).

(** The result of rounding a positive value. *)
Inductive rounded := RZero | RFin (d : double) | RInf.

(** [a / b * base ^ k] as a pair of integers. *)
Definition scaled (base a b k : Z) : Z * Z :=
  (a * base ^ Z.max 0 k, b * base ^ Z.max 0 (- k)).

(** The exact value of a double and of a decimal [s * 10 ^ p]. *)
Definition double_pair (d : double) : Z * Z := scaled 2 (dbl_m d) 1 (dbl_e d).
Definition decimal_pair (s p : Z) : Z * Z := scaled 10 s 1 p.

(** The number of decimal digits of a positive integer, less one. *)
Fixpoint log10_fuel (fuel : nat) (a : Z) : Z :=
  match fuel with
  | O => 0
  | S f => if a <? 10 then 0 else 1 + log10_fuel f (a / 10)
  end.

Definition log10 (a : Z) : Z := log10_fuel (Z.to_nat (Z.log2 a) + 1) a.

(** [floor (log_base (a / b))], from the logarithms of [a] and [b],
    which leave two candidates. *)
Definition flog (base : Z) (lg : Z → Z) (a b : Z) : Z :=
  let t := lg a - lg b in
  let '(x, y) := scaled base a b (- t) in
  if x <? y then t - 1 else t.

(** Rounding [n / d] to an integer, ties to even. *)
Definition round_half_even (n d : Z) : Z :=
  let q := n / d in
  let r := n mod d in
  if 2 * r <? d then q
  else if d <? 2 * r then q + 1
  else if Z.even q then q else q + 1.

(** RoundMVResult: at the binary exponent [e] of the binade of
    [a / b] (or [emin] below the normal range), the significand is
    [a / b / 2 ^ e] rounded, and a carry to [2 ^ 53] moves to the next
    binade; the double nearest to [a / b] (ties to even), zero
    below half the least subnormal, infinity from half a unit above the
    greatest double. *)
Definition round_at (a b e : Z) : rounded :=
  let '(x, y) := scaled 2 a b (- e) in
  let m := round_half_even x y in
  let '(m', e') := if m =? 2 ^ 53 then (2 ^ 52, e + 1) else (m, e) in
  if m' =? 0 then RZero else if emax <? e' then RInf else RFin (mk_double m' e').

(** The exponent of the last place of [a / b]: 52 below its binade,
    never below [emin]. *)
Definition round_exp (a b : Z) : Z := Z.max (flog 2 Z.log2 a b - 52) emin.

Definition round_pos (a b : Z) : rounded := round_at a b (round_exp a b).

Definition rounds_to (p : Z * Z) (d : double) : bool :=
  match round_pos (fst p) (snd p) with
  | RFin d' => double_eqb d d'
  | _ => false
  end.

(** ** Number::toString: the shortest significand *)

(** The [k]-digit significands next to [a / b], whose decimal exponent
    is [n]: the one below and the one above (equal when exact). *)
Definition neighbours (a b n k : Z) : Z * Z :=
  let '(x, y) := scaled 10 a b (k - n) in
  (x / y, if x mod y =? 0 then x / y else x / y + 1).

(** The significands of [k] digits that read back as [d], the nearer
    to [a / b] first (the even one on a tie). *)
Definition try_digits (d : double) (a b n k : Z) : option Z :=
  let '(lo, hi) := neighbours a b n k in
  let ok s := rounds_to (decimal_pair s (n - k)) d in
  if ok lo && ok hi then
    let '(x, y) := scaled 10 a b (k - n) in
    let dlo := x - lo * y in
    let dhi := hi * y - x in
    if dlo <? dhi then Some lo else if dhi <? dlo then Some hi
    else if Z.even lo then Some lo else Some hi
  else if ok lo then Some lo else if ok hi then Some hi else None.

(** An upper neighbour [10 ^ k] is the one-digit significand [1] of
    the next decimal exponent, written with [k] digits. *)
Definition carry_digits (s k n : Z) : Z * Z * Z :=
  if s =? 10 ^ k then (s / 10, k, n + 1) else (s, k, n).

Fixpoint shortest_from (fuel : nat) (d : double) (a b n k : Z) : option (Z * Z * Z) :=
  match fuel with
  | O => None
  | S f =>
      match try_digits d a b n k with
      | Some s => Some (carry_digits s k n)
      | None => shortest_from f d a b n (k + 1)
      end
  end.

(** [(s, k, n)] with [s] of [k] digits, [k] as small as possible, and
    [s * 10 ^ (n - k)] reading back as [d]. *)
Definition shortest (d : double) : option (Z * Z * Z) :=
  let '(a, b) := double_pair d in
  shortest_from 17 d a b (flog 10 log10 a b + 1) 1.

(** The logarithm [lg] to base [B] is a floor logarithm. *)
Definition log_spec (B : Z) (lg : Z → Z) : Prop :=
  ∀ z, 0 < z → 0 <= lg z ∧ B ^ lg z <= z < B ^ (lg z + 1).

(** [a / b / 2 ^ E] is within half a unit of [M]. *)
Definition within_half (a b M E : Z) : Prop :=
  let '(x, y) := scaled 2 a b (- E) in - y <= 2 * (x - M * y) <= y.

(** The decimal exponent [n] of a double: [10 ^ (n - 1) <= d < 10 ^ n]. *)
Definition dec_exponent (d : double) : Z :=
  flog 10 log10 (fst (double_pair d)) (snd (double_pair d)) + 1.

(** The value of a double in units of the least subnormal [2 ^ emin],
    and the unit of its last place in the same units. *)
Definition fixed (d : double) : Z := dbl_m d * 2 ^ (dbl_e d - emin).
Definition ulp (d : double) : Z := 2 ^ (dbl_e d - emin).

(** Naming the two components of a scaled pair, for [nia]. *)
Ltac name_pair p x y :=
  let P := fresh "P" in set (P := p) in *; clearbody P; destruct P as [x y]; cbn [fst snd] in *.

(** ** Scaled pairs and powers *)

Lemma pow_max_pos (B k : Z) : 0 < B → 0 < B ^ Z.max 0 k.
Proof. intros. apply Z.pow_pos_nonneg; lia. Qed.

Lemma scaled_pos (B a b k : Z) :
  0 < B → 0 < a → 0 < b → 0 < fst (scaled B a b k) ∧ 0 < snd (scaled B a b k).
Proof. intros. unfold scaled; simpl. split; apply Z.mul_pos_pos; auto using pow_max_pos. Qed.

Lemma scaled_nonneg (B a b k : Z) : 0 <= k → scaled B a b k = (a * B ^ k, b).
Proof. intros. unfold scaled. rewrite Z.max_r, Z.max_l, Z.pow_0_r, Z.mul_1_r by lia. reflexivity. Qed.

Lemma scaled_nonpos (B a b k : Z) : k <= 0 → scaled B a b k = (a, b * B ^ (- k)).
Proof. intros. unfold scaled. rewrite Z.max_l, Z.max_r, Z.pow_0_r, Z.mul_1_r by lia. reflexivity. Qed.

(** Moving from one scale to a larger one multiplies the ratio by the
    power of the base between them. *)
Lemma scaled_shift (B a b k1 k2 : Z) :
  0 < B → k1 <= k2 →
  fst (scaled B a b k2) * snd (scaled B a b k1) =
    fst (scaled B a b k1) * snd (scaled B a b k2) * B ^ (k2 - k1).
Proof.
  intros HB Hk. unfold scaled; simpl.
  assert (B ^ Z.max 0 k2 * B ^ Z.max 0 (- k1) =
          B ^ Z.max 0 k1 * B ^ Z.max 0 (- k2) * B ^ (k2 - k1)) as E.
  { rewrite <-!Z.pow_add_r by lia. f_equal. lia. }
  transitivity (a * b * (B ^ Z.max 0 k2 * B ^ Z.max 0 (- k1))); [ring|]. rewrite E. ring.
Qed.

Lemma scaled_shift1 (B a b k : Z) :
  0 < B →
  fst (scaled B a b (k + 1)) * snd (scaled B a b k) =
    B * fst (scaled B a b k) * snd (scaled B a b (k + 1)).
Proof.
  intros HB. rewrite scaled_shift by lia. replace (k + 1 - k) with 1 by lia. ring.
Qed.

(** ** Rounding to an integer *)

Lemma round_half_even_bound (n d : Z) :
  0 < d → - d <= 2 * (n - round_half_even n d * d) <= d.
Proof.
  intros Hd. unfold round_half_even.
  pose proof (Z.div_mod n d ltac:(lia)). pose proof (Z.mod_pos_bound n d Hd).
  set (q := n / d) in *. set (r := n mod d) in *.
  destruct (Z.ltb_spec (2 * r) d); [nia|].
  destruct (Z.ltb_spec d (2 * r)); [nia|]. destruct (Z.even q); nia.
Qed.

(** Half the divisor or less rounds to zero (a tie goes to the even 0). *)
Lemma round_half_even_small (n d : Z) : 0 < d → 0 <= n → 2 * n <= d → round_half_even n d = 0.
Proof.
  intros Hd Hn H2. unfold round_half_even. rewrite Z.div_small, Z.mod_small by lia.
  destruct (Z.ltb_spec (2 * n) d); [reflexivity|].
  destruct (Z.ltb_spec d (2 * n)); [lia|reflexivity].
Qed.

Lemma round_half_even_near (n d M : Z) :
  0 < d → 2 * Z.abs (n - M * d) < d → round_half_even n d = M.
Proof.
  intros Hd HM. pose proof (round_half_even_bound n d Hd).
  set (m := round_half_even n d) in *.
  destruct (Z.lt_trichotomy m M) as [Hlt|[Heq|Hgt]]; [|exact Heq|]; exfalso.
  - assert (m + 1 <= M) by lia. assert ((m + 1) * d <= M * d) by nia. lia.
  - assert (M + 1 <= m) by lia. assert ((M + 1) * d <= m * d) by nia. lia.
Qed.

(** ** Logarithms *)

Lemma log10_fuel_spec (f : nat) (a : Z) :
  0 < a < 10 ^ Z.of_nat f →
  0 <= log10_fuel f a ∧ 10 ^ log10_fuel f a <= a < 10 ^ (log10_fuel f a + 1).
Proof.
  revert a. induction f as [|f IH]; intros a Ha; [simpl in Ha; lia|].
  rewrite Nat2Z.inj_succ, Z.pow_succ_r in Ha by lia. cbn [log10_fuel].
  destruct (Z.ltb_spec a 10); [rewrite Z.add_0_l, Z.pow_1_r; lia|].
  destruct (IH (a / 10)) as (H0 & H1 & H2); [split; Z.div_mod_to_equations; nia|].
  set (l := log10_fuel f (a / 10)) in *.
  replace (10 ^ (1 + l)) with (10 * 10 ^ l) by (rewrite Z.pow_add_r by lia; ring).
  replace (10 ^ (1 + l + 1)) with (10 * 10 ^ (l + 1)) by
    (rewrite <-Z.add_assoc, (Z.pow_add_r 10 1) by lia; ring).
  split; [lia|]. Z.div_mod_to_equations. nia.
Qed.

Lemma log2_spec' (a : Z) : 0 < a → 0 <= Z.log2 a ∧ 2 ^ Z.log2 a <= a < 2 ^ (Z.log2 a + 1).
Proof.
  intros Ha. destruct (Z.log2_spec a Ha). pose proof (Z.log2_nonneg a).
  rewrite Z.add_1_r. lia.
Qed.

Lemma log10_spec (a : Z) : 0 < a → 0 <= log10 a ∧ 10 ^ log10 a <= a < 10 ^ (log10 a + 1).
Proof.
  intros Ha. unfold log10. apply log10_fuel_spec. split; [exact Ha|].
  rewrite Nat2Z.inj_add, Z2Nat.id by apply Z.log2_nonneg. change (Z.of_nat 1) with 1.
  destruct (log2_spec' a Ha) as (H0 & _ & H2).
  assert (2 ^ (Z.log2 a + 1) <= 10 ^ (Z.log2 a + 1)) by (apply Z.pow_le_mono_l; lia).
  lia.
Qed.

(** [flog] is the floor of the logarithm: [a / b * B ^ (- t)] lies in
    [[1, B)]. *)
Lemma flog_spec (B : Z) (lg : Z → Z) (a b : Z) :
  1 < B → 0 < a → 0 < b → log_spec B lg →
  snd (scaled B a b (- flog B lg a b)) <= fst (scaled B a b (- flog B lg a b)) <
    B * snd (scaled B a b (- flog B lg a b)).
Proof.
  intros HB Ha Hb Hlg.
  destruct (Hlg a Ha) as (Ha0 & Ha1 & Ha2). destruct (Hlg b Hb) as (Hb0 & Hb1 & Hb2).
  rewrite Z.pow_add_r, Z.pow_1_r in Ha2, Hb2 by lia.
  set (t := lg a - lg b).
  assert (fst (scaled B a b (- t)) < B * snd (scaled B a b (- t)) ∧
          snd (scaled B a b (- t)) < B * fst (scaled B a b (- t))) as [Hx Hy].
  { unfold scaled; simpl. destruct (Z.le_gt_cases (lg b) (lg a)).
    - rewrite (Z.max_l 0 (- t)), (Z.max_r 0 (- - t)), Z.opp_involutive by lia.
      assert (B ^ lg a = B ^ lg b * B ^ t) by (rewrite <-Z.pow_add_r by lia; f_equal; lia).
      pose proof (Z.pow_pos_nonneg B t ltac:(lia) ltac:(lia)). nia.
    - rewrite (Z.max_r 0 (- t)), (Z.max_l 0 (- - t)) by lia.
      assert (B ^ lg b = B ^ lg a * B ^ (- t)) by (rewrite <-Z.pow_add_r by lia; f_equal; lia).
      pose proof (Z.pow_pos_nonneg B (- t) ltac:(lia) ltac:(lia)). nia. }
  pose proof (scaled_pos B a b (- t) ltac:(lia) Ha Hb) as [Px Py].
  unfold flog. fold t. destruct (scaled B a b (- t)) as [x y] eqn:E. simpl in Hx, Hy, Px, Py.
  destruct (Z.ltb_spec x y) as [Hlt|Hge].
  - replace (- (t - 1)) with (- t + 1) by lia.
    pose proof (scaled_shift1 B a b (- t) ltac:(lia)) as Hs. rewrite E in Hs.
    pose proof (scaled_pos B a b (- t + 1) ltac:(lia) Ha Hb) as [Px' Py'].
    destruct (scaled B a b (- t + 1)) as [x' y']. simpl in *. split.
    + apply (Z.mul_le_mono_pos_r y' x' y Py). rewrite Hs. nia.
    + apply (Z.mul_lt_mono_pos_r y x' (B * y') Py). rewrite Hs. nia.
  - rewrite E. simpl. lia.
Qed.

Lemma log2_log_spec : log_spec 2 Z.log2.
Proof. intros z Hz. exact (log2_spec' z Hz). Qed.

Lemma log10_log_spec : log_spec 10 log10.
Proof. intros z Hz. exact (log10_spec z Hz). Qed.

(** [flog] is the only exponent with [B ^ t <= a / b < B ^ (t + 1)]. *)
Lemma flog_le (B : Z) (lg : Z → Z) (a b u : Z) :
  1 < B → 0 < a → 0 < b → log_spec B lg →
  fst (scaled B a b (- u)) < B * snd (scaled B a b (- u)) → flog B lg a b <= u.
Proof.
  intros HB Ha Hb Hlg Hu. pose proof (flog_spec B lg a b HB Ha Hb Hlg) as [Ht _].
  set (t := flog B lg a b) in *. destruct (Z.le_gt_cases t u) as [|Hlt]; [assumption|exfalso].
  pose proof (scaled_shift B a b (- t) (- u) ltac:(lia) ltac:(lia)) as Hs.
  pose proof (scaled_pos B a b (- t) ltac:(lia) Ha Hb) as [? ?].
  pose proof (scaled_pos B a b (- u) ltac:(lia) Ha Hb) as [? ?].
  assert (B <= B ^ (- u - - t)).
  { replace (- u - - t) with (1 + (t - u - 1)) by lia. rewrite Z.pow_add_r, Z.pow_1_r by lia.
    pose proof (Z.pow_pos_nonneg B (t - u - 1) ltac:(lia) ltac:(lia)). nia. }
  set (P := B ^ (- u - - t)) in *.
  set (pt := scaled B a b (- t)) in *. set (pu := scaled B a b (- u)) in *.
  clearbody pt pu P. destruct pt as [xt yt], pu as [xu yu]. simpl in *.
  assert (yt * (yu * B) <= xt * (yu * P)) by (apply Z.mul_le_mono_nonneg; nia).
  assert (xu * yt < B * yu * yt) by (apply Z.mul_lt_mono_pos_r; lia).
  nia.
Qed.

Lemma flog_ge (B : Z) (lg : Z → Z) (a b u : Z) :
  1 < B → 0 < a → 0 < b → log_spec B lg →
  snd (scaled B a b (- u)) <= fst (scaled B a b (- u)) → u <= flog B lg a b.
Proof.
  intros HB Ha Hb Hlg Hu. pose proof (flog_spec B lg a b HB Ha Hb Hlg) as [_ Ht].
  set (t := flog B lg a b) in *. destruct (Z.le_gt_cases u t) as [|Hlt]; [assumption|exfalso].
  pose proof (scaled_shift B a b (- u) (- t) ltac:(lia) ltac:(lia)) as Hs.
  pose proof (scaled_pos B a b (- t) ltac:(lia) Ha Hb) as [? ?].
  pose proof (scaled_pos B a b (- u) ltac:(lia) Ha Hb) as [? ?].
  assert (B <= B ^ (- t - - u)).
  { replace (- t - - u) with (1 + (u - t - 1)) by lia. rewrite Z.pow_add_r, Z.pow_1_r by lia.
    pose proof (Z.pow_pos_nonneg B (u - t - 1) ltac:(lia) ltac:(lia)). nia. }
  set (P := B ^ (- t - - u)) in *.
  set (pt := scaled B a b (- t)) in *. set (pu := scaled B a b (- u)) in *.
  clearbody pt pu P. destruct pt as [xt yt], pu as [xu yu]. simpl in *.
  assert (yu * (yt * B) <= xu * (yt * P)) by (apply Z.mul_le_mono_nonneg; nia).
  assert (xt * yu < B * yt * yu) by (apply Z.mul_lt_mono_pos_r; lia).
  nia.
Qed.

(** ** Rounding at a given exponent *)

Lemma round_at_exact (a b e M : Z) :
  0 < a → 0 < b → 0 < M < 2 ^ 53 → e <= emax →
  2 * Z.abs (fst (scaled 2 a b (- e)) - M * snd (scaled 2 a b (- e))) < snd (scaled 2 a b (- e)) →
  round_at a b e = RFin (mk_double M e).
Proof.
  intros Ha Hb HM He Hn. pose proof (scaled_pos 2 a b (- e) ltac:(lia) Ha Hb) as [_ Py].
  unfold round_at. destruct (scaled 2 a b (- e)) as [x y]. cbn [fst snd] in *.
  rewrite (round_half_even_near x y M Py Hn).
  destruct (Z.eqb_spec M (2 ^ 53)); [lia|].
  destruct (Z.eqb_spec M 0); [lia|]. destruct (Z.ltb_spec emax e); [lia|]. reflexivity.
Qed.

Lemma round_at_carry (a b e : Z) :
  0 < a → 0 < b → e + 1 <= emax →
  2 * Z.abs (fst (scaled 2 a b (- e)) - 2 ^ 53 * snd (scaled 2 a b (- e))) <
    snd (scaled 2 a b (- e)) →
  round_at a b e = RFin (mk_double (2 ^ 52) (e + 1)).
Proof.
  intros Ha Hb He Hn. pose proof (scaled_pos 2 a b (- e) ltac:(lia) Ha Hb) as [_ Py].
  unfold round_at. destruct (scaled 2 a b (- e)) as [x y]. cbn [fst snd] in *.
  rewrite (round_half_even_near x y (2 ^ 53) Py Hn), Z.eqb_refl.
  destruct (Z.ltb_spec emax (e + 1)); [lia|]. reflexivity.
Qed.

(** Whatever [round_at] returns is within half a unit of its last place. *)
Lemma round_at_sound (a b e M E : Z) :
  0 < a → 0 < b → round_at a b e = RFin (mk_double M E) → within_half a b M E.
Proof.
  intros Ha Hb. pose proof (scaled_pos 2 a b (- e) ltac:(lia) Ha Hb) as [Px Py].
  pose proof (scaled_shift1 2 a b (- e - 1) ltac:(lia)) as Hs.
  replace (- e - 1 + 1) with (- e) in Hs by lia.
  pose proof (scaled_pos 2 a b (- e - 1) ltac:(lia) Ha Hb) as [Px' Py'].
  unfold round_at, within_half. destruct (scaled 2 a b (- e)) as [x y] eqn:E1. cbn [fst snd] in *.
  pose proof (round_half_even_bound x y Py) as Hr.
  set (m := round_half_even x y) in *.
  destruct (Z.eqb_spec m (2 ^ 53)) as [Hm|Hm].
  - destruct (Z.eqb_spec (2 ^ 52) 0); [discriminate|].
    destruct (Z.ltb_spec emax (e + 1)); [discriminate|]. intros [= <- <-].
    replace (- (e + 1)) with (- e - 1) by lia.
    destruct (scaled 2 a b (- e - 1)) as [x' y']. cbn [fst snd] in *. rewrite Hm in Hr.
    split; apply (Z.mul_le_mono_pos_r _ _ (2 * y) ltac:(lia)); nia.
  - destruct (Z.eqb_spec m 0); [discriminate|].
    destruct (Z.ltb_spec emax e); [discriminate|]. intros [= <- <-]. rewrite E1. exact Hr.
Qed.

Lemma valid_double_spec (d : double) :
  valid_double d = true ↔
    0 < dbl_m d < 2 ^ 53 ∧ emin <= dbl_e d <= emax ∧ (2 ^ 52 <= dbl_m d ∨ dbl_e d = emin).
Proof.
  unfold valid_double. rewrite !andb_true_iff, orb_true_iff, !Z.ltb_lt, !Z.leb_le, Z.eqb_eq.
  tauto.
Qed.

Lemma scaled_down (a b k j : Z) :
  0 <= j →
  fst (scaled 2 a b k) * snd (scaled 2 a b (k - j)) =
    fst (scaled 2 a b (k - j)) * snd (scaled 2 a b k) * 2 ^ j.
Proof.
  intros Hj. rewrite (scaled_shift 2 a b (k - j) k) by lia. f_equal. f_equal. lia.
Qed.

Lemma round_pos_sound (a b M E : Z) :
  0 < a → 0 < b → round_pos a b = RFin (mk_double M E) → within_half a b M E.
Proof. apply round_at_sound. Qed.

(** At the exponent [round_exp a b], the significand [a / b / 2 ^ e]
    is below [2 ^ 53], at least [2 ^ 52] in the normal range and below
    it in the subnormal range. *)
Lemma binade_scaled (a b : Z) :
  0 < a → 0 < b →
  let t := flog 2 Z.log2 a b in let e := round_exp a b in
  (fst (scaled 2 a b (- e)) < 2 ^ 53 * snd (scaled 2 a b (- e)) ∧
  (emin <= t - 52 → 2 ^ 52 * snd (scaled 2 a b (- e)) <= fst (scaled 2 a b (- e))) ∧
  (t - 52 < emin → fst (scaled 2 a b (- e)) < 2 ^ 52 * snd (scaled 2 a b (- e)))).
Proof.
  intros Ha Hb t e. pose proof (flog_spec 2 Z.log2 a b ltac:(lia) Ha Hb log2_log_spec) as Ht.
  fold t in Ht. assert (e = Z.max (t - 52) emin) as He by reflexivity. clearbody t e.
  destruct (Z.le_gt_cases emin (t - 52)) as [Hle|Hgt].
  - assert (e = t - 52) as -> by lia.
    pose proof (scaled_down a b (- (t - 52)) 52 ltac:(lia)) as Hs.
    replace (- (t - 52) - 52) with (- t) in Hs by lia.
    pose proof (scaled_pos 2 a b (- t) ltac:(lia) Ha Hb).
    pose proof (scaled_pos 2 a b (- (t - 52)) ltac:(lia) Ha Hb).
    name_pair (scaled 2 a b (- t)) xt yt. name_pair (scaled 2 a b (- (t - 52))) x y.
    assert (xt * (y * 2 ^ 52) < 2 * yt * (y * 2 ^ 52)) by (apply Z.mul_lt_mono_pos_r; lia).
    assert (yt * (y * 2 ^ 52) <= xt * (y * 2 ^ 52)) by (apply Z.mul_le_mono_nonneg_r; lia).
    split; [|split; [intros _|intros; lia]].
    + apply (Z.mul_lt_mono_pos_r yt); [lia|]. replace (2 ^ 53) with (2 * 2 ^ 52) by reflexivity.
      nia.
    + apply (Z.mul_le_mono_pos_r _ _ yt); [lia|]. nia.
  - assert (e = emin) as -> by lia.
    pose proof (scaled_pos 2 a b (- t) ltac:(lia) Ha Hb).
    pose proof (scaled_pos 2 a b (- emin) ltac:(lia) Ha Hb).
    assert (fst (scaled 2 a b (- emin)) < 2 ^ 52 * snd (scaled 2 a b (- emin))).
    { destruct (Z.le_gt_cases emin t).
      - pose proof (scaled_down a b (- emin) (t - emin) ltac:(lia)) as Hs.
        replace (- emin - (t - emin)) with (- t) in Hs by lia.
        assert (2 ^ (t - emin + 1) <= 2 ^ 52) as HP by (apply Z.pow_le_mono_r; lia).
        rewrite Z.pow_add_r, Z.pow_1_r in HP by lia.
        set (P := 2 ^ (t - emin)) in *.
        assert (0 < P) by (apply Z.pow_pos_nonneg; lia).
        name_pair (scaled 2 a b (- t)) xt yt. name_pair (scaled 2 a b (- emin)) x y.
        apply (Z.mul_lt_mono_pos_r yt); [lia|].
        assert (xt * (y * P) < 2 * yt * (y * P)) by (apply Z.mul_lt_mono_pos_r; nia).
        assert (P * 2 * (y * yt) <= 2 ^ 52 * (y * yt)) by (apply Z.mul_le_mono_nonneg_r; nia).
        nia.
      - pose proof (scaled_down a b (- t) (emin - t) ltac:(lia)) as Hs.
        replace (- t - (emin - t)) with (- emin) in Hs by lia.
        set (P := 2 ^ (emin - t)) in *.
        assert (1 <= P) by (assert (0 < P) by (apply Z.pow_pos_nonneg; lia); lia).
        name_pair (scaled 2 a b (- t)) xt yt. name_pair (scaled 2 a b (- emin)) x y.
        apply (Z.mul_lt_mono_pos_r yt); [lia|].
        assert (x * yt <= x * yt * P) by nia.
        assert (xt * y < 2 * yt * y) by (apply Z.mul_lt_mono_pos_r; lia).
        assert (2 * y * yt <= 2 ^ 52 * y * yt) by nia.
        nia. }
    split; [nia|]. split; [intros; lia|]. intros _. assumption.
Qed.

(** Rounding gives a double in canonical form. *)
Lemma round_pos_valid (a b : Z) (d : double) :
  0 < a → 0 < b → round_pos a b = RFin d → valid_double d = true.
Proof.
  intros Ha Hb. pose proof (binade_scaled a b Ha Hb) as Hx. cbv zeta in Hx.
  unfold round_pos. set (t := flog 2 Z.log2 a b) in *. set (e := round_exp a b) in *.
  assert (e = Z.max (t - 52) emin) as He by reflexivity. clearbody t e.
  pose proof (scaled_pos 2 a b (- e) ltac:(lia) Ha Hb).
  unfold round_at. name_pair (scaled 2 a b (- e)) x y.
  pose proof (round_half_even_bound x y ltac:(lia)) as Hr.
  set (m := round_half_even x y) in *.
  destruct (Z.eqb_spec m (2 ^ 53)) as [Hm|Hm].
  - destruct (Z.eqb_spec (2 ^ 52) 0); [discriminate|].
    destruct (Z.ltb_spec emax (e + 1)); [discriminate|]. intros [= <-].
    apply valid_double_spec. cbn [dbl_m dbl_e]. unfold emin, emax in *. lia.
  - destruct (Z.eqb_spec m 0); [discriminate|].
    destruct (Z.ltb_spec emax e); [discriminate|]. intros [= <-].
    apply valid_double_spec. cbn [dbl_m dbl_e].
    destruct Hx as (Hx1 & Hx2 & Hx3).
    destruct (Z.le_gt_cases emin (t - 52)).
    + specialize (Hx2 ltac:(lia)). assert (e = t - 52) by lia.
      assert (2 ^ 52 * y * 2 <= 2 * m * y + y) by lia.
      assert (2 * m * y <= 2 * x + y) by lia.
      assert (2 ^ 52 <= m) by nia. assert (m < 2 ^ 53) by nia. unfold emin, emax in *. lia.
    + specialize (Hx3 ltac:(lia)). assert (e = emin) by lia.
      assert (0 <= m) by nia. assert (m < 2 ^ 53) by nia. unfold emin, emax in *. lia.
Qed.

(** Gradual underflow ends at half the least subnormal: a value of at
    most [2 ^ -1075] rounds to zero. *)
Lemma round_pos_zero (a b : Z) : 0 < a → 0 < b → a * 2 ^ 1075 <= b → round_pos a b = RZero.
Proof.
  intros Ha Hb Hs.
  assert (flog 2 Z.log2 a b <= -1075) as Ht.
  { apply flog_le; auto using log2_log_spec; try lia.
    replace (- -1075) with 1075 by lia. rewrite scaled_nonneg by lia. cbn [fst snd]. lia. }
  unfold round_pos, round_exp. rewrite Z.max_r by (unfold emin; lia).
  unfold round_at. replace (- emin) with 1074 by reflexivity. rewrite scaled_nonneg by lia.
  rewrite round_half_even_small; [reflexivity|lia|lia|].
  replace (2 ^ 1075) with (2 * 2 ^ 1074) in Hs by reflexivity. lia.
Qed.

(** Overflow: a value of at least [2 ^ 1024] rounds to infinity. *)
Lemma round_pos_inf (a b : Z) : 0 < a → 0 < b → b * 2 ^ 1024 <= a → round_pos a b = RInf.
Proof.
  intros Ha Hb Hs. pose proof (binade_scaled a b Ha Hb) as Hx. cbv zeta in Hx.
  assert (1024 <= flog 2 Z.log2 a b) as Ht.
  { apply flog_ge; auto using log2_log_spec; try lia.
    rewrite scaled_nonpos by lia. cbn [fst snd]. replace (- - 1024) with 1024 by lia. lia. }
  unfold round_pos. set (t := flog 2 Z.log2 a b) in *. set (e := round_exp a b) in *.
  assert (e = t - 52) as He by (unfold e, round_exp; fold t; unfold emin; lia). clearbody t e.
  destruct Hx as (_ & Hx2 & _). specialize (Hx2 ltac:(unfold emin; lia)).
  pose proof (scaled_pos 2 a b (- e) ltac:(lia) Ha Hb).
  unfold round_at. name_pair (scaled 2 a b (- e)) x y.
  pose proof (round_half_even_bound x y ltac:(lia)) as Hr.
  set (m := round_half_even x y) in *.
  assert (2 ^ 52 <= m) by nia.
  destruct (Z.eqb_spec m (2 ^ 53)).
  - destruct (Z.eqb_spec (2 ^ 52) 0); [lia|].
    destruct (Z.ltb_spec emax (e + 1)); [reflexivity|unfold emax in *; lia].
  - destruct (Z.eqb_spec m 0); [lia|].
    destruct (Z.ltb_spec emax e); [reflexivity|unfold emax in *; lia].
Qed.

(** An inequality on [x / y] read at another scale [x' / y'], where
    [x / y = c * x' / y']. *)
Lemma ratio_lt (x y x' y' c p q : Z) :
  0 < y → 0 < y' → x * y' = x' * y * c → (p * x < q * y ↔ p * c * x' < q * y').
Proof.
  intros Hy Hy' Hs. rewrite (Z.mul_lt_mono_pos_r y' _ _ Hy'), (Z.mul_lt_mono_pos_r y (p * c * x') _ Hy).
  replace (p * x * y') with (p * (x * y')) by ring. rewrite Hs.
  replace (p * (x' * y * c)) with (p * c * x' * y) by ring.
  replace (q * y * y') with (q * y' * y) by ring. reflexivity.
Qed.

Lemma ratio_le (x y x' y' c p q : Z) :
  0 < y → 0 < y' → x * y' = x' * y * c → (p * x <= q * y ↔ p * c * x' <= q * y').
Proof.
  intros Hy Hy' Hs. rewrite (Z.mul_le_mono_pos_r _ _ y' Hy'), (Z.mul_le_mono_pos_r (p * c * x') _ y Hy).
  replace (p * x * y') with (p * (x * y')) by ring. rewrite Hs.
  replace (p * (x' * y * c)) with (p * c * x' * y) by ring.
  replace (q * y * y') with (q * y' * y) by ring. reflexivity.
Qed.

Lemma ratio_gt (x y x' y' c p q : Z) :
  0 < y → 0 < y' → x * y' = x' * y * c → (q * y < p * x ↔ q * y' < p * c * x').
Proof.
  intros Hy Hy' Hs. rewrite (Z.mul_lt_mono_pos_r y' _ _ Hy'), (Z.mul_lt_mono_pos_r y _ (p * c * x') Hy).
  replace (p * x * y') with (p * (x * y')) by ring. rewrite Hs.
  replace (p * (x' * y * c)) with (p * c * x' * y) by ring.
  replace (q * y * y') with (q * y' * y) by ring. reflexivity.
Qed.

Lemma ratio_ge (x y x' y' c p q : Z) :
  0 < y → 0 < y' → x * y' = x' * y * c → (q * y <= p * x ↔ q * y' <= p * c * x').
Proof.
  intros Hy Hy' Hs. rewrite (Z.mul_le_mono_pos_r _ _ y' Hy'), (Z.mul_le_mono_pos_r _ (p * c * x') y Hy).
  replace (p * x * y') with (p * (x * y')) by ring. rewrite Hs.
  replace (p * (x' * y * c)) with (p * c * x' * y) by ring.
  replace (q * y * y') with (q * y' * y) by ring. reflexivity.
Qed.

(** A rational within half a unit of the last place of a double rounds
    to it; at the bottom of a binade, where the double below is half as
    far, within a quarter of a unit below it. *)
Lemma round_pos_near (a b M E : Z) :
  0 < a → 0 < b → valid_double (mk_double M E) = true →
  2 * Z.abs (fst (scaled 2 a b (- E)) - M * snd (scaled 2 a b (- E))) < snd (scaled 2 a b (- E)) →
  (M = 2 ^ 52 → emin < E →
   4 * (M * snd (scaled 2 a b (- E)) - fst (scaled 2 a b (- E))) < snd (scaled 2 a b (- E))) →
  round_pos a b = RFin (mk_double M E).
Proof.
  intros Ha Hb Hv Hn Hbot. apply valid_double_spec in Hv. cbn [dbl_m dbl_e] in Hv.
  destruct Hv as (HM & HE & Hnorm).
  pose proof (scaled_pos 2 a b (- E) ltac:(lia) Ha Hb) as [PxE PyE].
  pose proof (scaled_down a b (- E) 52 ltac:(lia)) as S52.
  pose proof (scaled_down a b (- E) 51 ltac:(lia)) as S51.
  pose proof (scaled_down a b (- E + 1) 1 ltac:(lia)) as S1.
  replace (- E + 1 - 1) with (- E) in S1 by lia.
  replace (- E - 52) with (- (E + 52)) in S52 by lia.
  replace (- E - 51) with (- (E + 51)) in S51 by lia.
  replace (- E + 1) with (- (E - 1)) in S1 by lia.
  pose proof (scaled_pos 2 a b (- (E + 52)) ltac:(lia) Ha Hb) as [P52 Q52].
  pose proof (scaled_pos 2 a b (- (E + 51)) ltac:(lia) Ha Hb) as [P51 Q51].
  pose proof (scaled_pos 2 a b (- (E - 1)) ltac:(lia) Ha Hb) as [P1 Q1].
  unfold round_pos, round_exp.
  assert (fst (scaled 2 a b (- E)) < 2 ^ 53 * snd (scaled 2 a b (- E))) as Htop.
  { assert (M * snd (scaled 2 a b (- E)) <= (2 ^ 53 - 1) * snd (scaled 2 a b (- E)))
      by (apply Z.mul_le_mono_nonneg_r; lia). lia. }
  assert (fst (scaled 2 a b (- (E + 52))) < 2 * snd (scaled 2 a b (- (E + 52)))) as Hlt52.
  { pose proof (proj1 (ratio_lt _ _ _ _ _ 1 (2 ^ 53) PyE Q52 S52) ltac:(lia)). lia. }
  destruct (Z_le_gt_dec (2 ^ 52 * snd (scaled 2 a b (- E))) (fst (scaled 2 a b (- E))))
    as [Hhi|Hlo].
  - assert (flog 2 Z.log2 a b = E + 52) as ->.
    { apply Z.le_antisymm; [apply flog_le|apply flog_ge]; auto using log2_log_spec; try lia.
      pose proof (proj1 (ratio_ge _ _ _ _ _ 1 (2 ^ 52) PyE Q52 S52) ltac:(lia)). lia. }
    replace (Z.max (E + 52 - 52) emin) with E by lia.
    apply round_at_exact; lia.
  - destruct (Z.eq_dec E emin) as [->|HE'].
    + assert (flog 2 Z.log2 a b <= emin + 52) by (apply flog_le; auto using log2_log_spec; lia).
      replace (Z.max (flog 2 Z.log2 a b - 52) emin) with emin by lia.
      apply round_at_exact; lia.
    + assert (M = 2 ^ 52) as HM2.
      { destruct (Z.eq_dec M (2 ^ 52)) as [|HM52]; [assumption|exfalso].
        assert ((2 ^ 52 + 1) * snd (scaled 2 a b (- E)) <= M * snd (scaled 2 a b (- E)))
          by (apply Z.mul_le_mono_nonneg_r; lia). lia. }
      specialize (Hbot HM2 ltac:(lia)). subst M.
      assert (flog 2 Z.log2 a b = E + 51) as ->.
      { apply Z.le_antisymm; [apply flog_le|apply flog_ge]; auto using log2_log_spec; try lia.
        - pose proof (proj1 (ratio_lt _ _ _ _ _ 1 (2 ^ 52) PyE Q51 S51) ltac:(lia)). lia.
        - pose proof (proj1 (ratio_ge _ _ _ _ _ 1 (2 ^ 51) PyE Q51 S51) ltac:(lia)). lia. }
      replace (Z.max (E + 51 - 52) emin) with (E - 1) by lia.
      replace E with (E - 1 + 1) at 2 by lia. apply round_at_carry; [lia|lia|lia|].
      rewrite Z.pow_1_r in S1.
      assert (2 * fst (scaled 2 a b (- (E - 1))) < (2 ^ 54 + 1) * snd (scaled 2 a b (- (E - 1)))).
      { rewrite (ratio_lt _ _ _ _ _ _ _ Q1 PyE S1). lia. }
      assert ((2 ^ 54 - 1) * snd (scaled 2 a b (- (E - 1))) < 2 * fst (scaled 2 a b (- (E - 1)))).
      { rewrite (ratio_gt _ _ _ _ _ _ _ Q1 PyE S1). lia. }
      lia.
Qed.

Lemma double_pair_exact (d : double) :
  fst (scaled 2 (fst (double_pair d)) (snd (double_pair d)) (- dbl_e d)) =
    dbl_m d * snd (scaled 2 (fst (double_pair d)) (snd (double_pair d)) (- dbl_e d)).
Proof. unfold double_pair, scaled. cbn [fst snd]. rewrite Z.opp_involutive. ring. Qed.

(** Every double reads back as itself. *)
Lemma round_pos_double (d : double) :
  valid_double d = true → round_pos (fst (double_pair d)) (snd (double_pair d)) = RFin d.
Proof.
  intros Hv. pose proof Hv as Hv'. apply valid_double_spec in Hv' as (HM & _).
  destruct d as [M E]. cbn [dbl_m dbl_e] in *.
  pose proof (double_pair_exact (mk_double M E)) as Ex. cbn [dbl_m dbl_e] in Ex.
  assert (0 < fst (double_pair (mk_double M E)) ∧ 0 < snd (double_pair (mk_double M E))) as [Ha Hb]
    by (unfold double_pair; cbn [dbl_m dbl_e]; apply scaled_pos; lia).
  pose proof (scaled_pos 2 _ _ (- E) ltac:(lia) Ha Hb) as [_ Py].
  apply round_pos_near; [assumption..| |]; rewrite Ex; [|intros _ _]; rewrite Z.sub_diag; lia.
Qed.

(** Rounding depends on the ratio [a / b] only. *)
Lemma scaled_mul (B a b c k : Z) :
  scaled B (a * c) (b * c) k = (fst (scaled B a b k) * c, snd (scaled B a b k) * c).
Proof. unfold scaled. simpl. f_equal; ring. Qed.

Lemma round_half_even_mul (n d c : Z) :
  0 < d → 0 < c → round_half_even (n * c) (d * c) = round_half_even n d.
Proof.
  intros Hd Hc. unfold round_half_even.
  rewrite Z.div_mul_cancel_r, Z.mul_mod_distr_r by lia.
  pose proof (Z.mod_pos_bound n d Hd).
  replace (2 * (n mod d * c) <? d * c) with (2 * (n mod d) <? d)
    by (destruct (Z.ltb_spec (2 * (n mod d)) d), (Z.ltb_spec (2 * (n mod d * c)) (d * c)); nia).
  replace (d * c <? 2 * (n mod d * c)) with (d <? 2 * (n mod d))
    by (destruct (Z.ltb_spec d (2 * (n mod d))), (Z.ltb_spec (d * c) (2 * (n mod d * c))); nia).
  reflexivity.
Qed.

Lemma flog_mul (a b c : Z) :
  0 < a → 0 < b → 0 < c → flog 2 Z.log2 (a * c) (b * c) = flog 2 Z.log2 a b.
Proof.
  intros Ha Hb Hc. pose proof (flog_spec 2 Z.log2 a b ltac:(lia) Ha Hb log2_log_spec) as Ht.
  apply Z.le_antisymm; [apply flog_le|apply flog_ge]; auto using log2_log_spec; try nia;
    rewrite scaled_mul; cbn [fst snd]; nia.
Qed.

Lemma round_pos_mul (a b c : Z) :
  0 < a → 0 < b → 0 < c → round_pos (a * c) (b * c) = round_pos a b.
Proof.
  intros Ha Hb Hc. unfold round_pos, round_exp. rewrite flog_mul by assumption.
  unfold round_at. rewrite scaled_mul. cbn [fst snd].
  pose proof (scaled_pos 2 a b (- Z.max (flog 2 Z.log2 a b - 52) emin) ltac:(lia) Ha Hb) as [_ Py].
  destruct (scaled 2 a b _) as [x y]. cbn [fst snd] in *.
  rewrite round_half_even_mul by assumption. reflexivity.
Qed.

(** ** The digit search *)

Lemma try_digits_sound (d : double) (a b n k s : Z) :
  try_digits d a b n k = Some s →
  rounds_to (decimal_pair s (n - k)) d = true ∧
  (s = fst (neighbours a b n k) ∨ s = snd (neighbours a b n k)).
Proof.
  unfold try_digits. destruct (neighbours a b n k) as [lo hi]. cbn [fst snd].
  destruct (rounds_to (decimal_pair lo (n - k)) d) eqn:Hlo,
           (rounds_to (decimal_pair hi (n - k)) d) eqn:Hhi; cbn [andb];
    try (intros [= <-]; auto; fail); try discriminate.
  destruct (scaled 10 a b (k - n)) as [x y].
  repeat match goal with |- context [if ?c then _ else _] => destruct c end;
    intros [= <-]; auto.
Qed.

(** With [10 ^ (n - 1) <= a / b < 10 ^ n], the [k]-digit neighbours
    have [k] digits (the upper one may be [10 ^ k]) and bracket
    [a / b * 10 ^ (k - n)]. *)
Lemma neighbours_range (a b n k : Z) :
  0 < a → 0 < b → 1 <= k →
  snd (scaled 10 a b (- (n - 1))) <= fst (scaled 10 a b (- (n - 1))) <
    10 * snd (scaled 10 a b (- (n - 1))) →
  let '(lo, hi) := neighbours a b n k in
  10 ^ (k - 1) <= lo ∧ lo <= hi <= 10 ^ k ∧ (hi = lo ∨ hi = lo + 1) ∧
  lo * snd (scaled 10 a b (k - n)) <= fst (scaled 10 a b (k - n)) ∧
  fst (scaled 10 a b (k - n)) <= hi * snd (scaled 10 a b (k - n)) ∧
  (hi = lo → fst (scaled 10 a b (k - n)) = lo * snd (scaled 10 a b (k - n))).
Proof.
  intros Ha Hb Hk Hn.
  pose proof (scaled_shift 10 a b (- (n - 1)) (k - n) ltac:(lia) ltac:(lia)) as Hs.
  replace (k - n - - (n - 1)) with (k - 1) in Hs by lia.
  pose proof (scaled_pos 10 a b (k - n) ltac:(lia) Ha Hb) as [Px Py].
  pose proof (scaled_pos 10 a b (- (n - 1)) ltac:(lia) Ha Hb) as [Px1 Py1].
  assert (10 ^ k = 10 * 10 ^ (k - 1)) as Ek
    by (rewrite <-Z.pow_succ_r by lia; f_equal; lia).
  pose proof (Z.pow_pos_nonneg 10 (k - 1) ltac:(lia) ltac:(lia)).
  unfold neighbours. name_pair (scaled 10 a b (k - n)) x y.
  name_pair (scaled 10 a b (- (n - 1))) x1 y1. rewrite Ek.
  set (P := 10 ^ (k - 1)) in *. clearbody P.
  assert (P * y <= x) by (apply (Z.mul_le_mono_pos_r _ _ y1); nia).
  assert (x < 10 * P * y) by (apply (Z.mul_lt_mono_pos_r y1); nia).
  pose proof (Z.div_mod x y ltac:(lia)). pose proof (Z.mod_pos_bound x y Py).
  assert (P <= x / y) by (apply Z.div_le_lower_bound; lia).
  assert (x / y < 10 * P) by (apply Z.div_lt_upper_bound; lia).
  destruct (Z.eqb_spec (x mod y) 0);
    repeat split; first [left; reflexivity | right; reflexivity | intro; nia | nia].
Qed.

(** The arithmetic of the next lemma, with the powers as variables:
    [T] stands for [2 ^ 53] and [D] for [10 ^ 16]. *)
Lemma near_core (M c A Bm P Q R S T D : Z) :
  0 < A → 0 < Bm → 0 < P → 0 < Q → 0 < R → 0 < T < D → 0 < M < T →
  S * Q = P * R * D → Bm * S <= M * A * R →
  2 * Z.abs (M * A * Q - c * (Bm * P)) <= Bm * P →
  2 * Z.abs (c * P * Bm - M * (Q * A)) < Q * A ∧
  (2 * M <= T → 4 * (M * (Q * A) - c * P * Bm) < Q * A).
Proof.
  intros PA PB PP PQ PR HT HM ES H1 H2.
  assert (Bm * P * D <= M * A * Q) as Hu.
  { apply (Z.mul_le_mono_pos_r _ _ R PR).
    replace (Bm * P * D * R) with (Bm * (S * Q)) by (rewrite ES; ring).
    replace (M * A * Q * R) with (M * A * R * Q) by ring.
    replace (Bm * (S * Q)) with (Bm * S * Q) by ring.
    apply Z.mul_le_mono_nonneg_r; lia. }
  assert (0 < A * Q) by nia.
  assert (Bm * P < Q * A) as Hlt.
  { apply (Z.mul_lt_mono_pos_r D); [lia|]. nia. }
  replace (c * P * Bm - M * (Q * A)) with (- (M * A * Q - c * (Bm * P))) by ring.
  rewrite Z.abs_opp. split; [lia|]. intros HT2.
  assert (2 * (Bm * P) < Q * A) by (apply (Z.mul_lt_mono_pos_r D); [lia|]; nia).
  replace (M * (Q * A) - c * P * Bm) with (M * A * Q - c * (Bm * P)) by ring. lia.
Qed.

(** Seventeen digits suffice: the seventeen-digit significand nearest
    to a double reads back as it, since a unit of its last digit is
    less than [2 ^ 53 / 10 ^ 16 < 1] unit of the double's last place
    (and less than half of one at the bottom of a binade). *)
Lemma candidate_near (M E n c : Z) :
  valid_double (mk_double M E) = true → 0 < c →
  snd (scaled 10 (fst (double_pair (mk_double M E))) (snd (double_pair (mk_double M E))) (- (n - 1))) <=
    fst (scaled 10 (fst (double_pair (mk_double M E))) (snd (double_pair (mk_double M E))) (- (n - 1))) →
  2 * Z.abs (fst (scaled 10 (fst (double_pair (mk_double M E))) (snd (double_pair (mk_double M E))) (17 - n)) -
             c * snd (scaled 10 (fst (double_pair (mk_double M E))) (snd (double_pair (mk_double M E))) (17 - n))) <=
    snd (scaled 10 (fst (double_pair (mk_double M E))) (snd (double_pair (mk_double M E))) (17 - n)) →
  round_pos (fst (decimal_pair c (n - 17))) (snd (decimal_pair c (n - 17))) = RFin (mk_double M E).
Proof.
  intros Hv Hc H1 H2. pose proof Hv as Hv'. apply valid_double_spec in Hv'.
  cbn [dbl_m dbl_e] in Hv'. destruct Hv' as (HM & _ & _).
  unfold double_pair, scaled in H1, H2. cbn [fst snd dbl_m dbl_e] in H1, H2.
  rewrite Z.opp_involutive in H1. replace (- (17 - n)) with (n - 17) in H2 by lia.
  assert (S_Q : 10 ^ Z.max 0 (n - 1) * 10 ^ Z.max 0 (17 - n) =
            10 ^ Z.max 0 (n - 17) * 10 ^ Z.max 0 (- (n - 1)) * 10 ^ 16)
    by (rewrite <-!Z.pow_add_r by lia; f_equal; lia).
  assert (2 ^ 53 < 10 ^ 16) as HTD by reflexivity.
  rewrite !Z.mul_1_l in H1, H2.
  destruct (near_core M c (2 ^ Z.max 0 E) (2 ^ Z.max 0 (- E)) (10 ^ Z.max 0 (n - 17))
    (10 ^ Z.max 0 (17 - n)) (10 ^ Z.max 0 (- (n - 1))) (10 ^ Z.max 0 (n - 1)) (2 ^ 53) (10 ^ 16)
    (pow_max_pos 2 E ltac:(lia)) (pow_max_pos 2 (- E) ltac:(lia))
    (pow_max_pos 10 (n - 17) ltac:(lia)) (pow_max_pos 10 (17 - n) ltac:(lia))
    (pow_max_pos 10 (- (n - 1)) ltac:(lia)) ltac:(lia) HM S_Q H1 H2) as [G1 G2].
  assert (0 < c * 10 ^ Z.max 0 (n - 17)) by (pose proof (pow_max_pos 10 (n - 17) ltac:(lia)); nia).
  pose proof (pow_max_pos 10 (- (n - 17)) ltac:(lia)).
  apply round_pos_near; [..| |intros HM2 _];
    unfold decimal_pair, scaled; cbn [fst snd];
    replace (Z.max 0 (- (n - 17))) with (Z.max 0 (17 - n)) in * by (f_equal; lia);
    rewrite ?Z.opp_involutive, ?Z.mul_1_l; try lia; try assumption.
Qed.

Lemma rounds_to_spec (p : Z * Z) (d : double) :
  rounds_to p d = true ↔ round_pos (fst p) (snd p) = RFin d.
Proof.
  unfold rounds_to. destruct (round_pos (fst p) (snd p)) as [|[m e]|]; try (split; discriminate).
  destruct d as [m' e']. unfold double_eqb. cbn [dbl_m dbl_e].
  rewrite andb_true_iff, !Z.eqb_eq. split; [intros [-> ->]; reflexivity|intros [= -> ->]; auto].
Qed.

Lemma pow10_succ (j : Z) : 0 <= j → 10 ^ j * 10 = 10 ^ (j + 1).
Proof. intros. rewrite Z.pow_add_r by lia. reflexivity. Qed.

(** The carried significand reads back as the same double. *)
Lemma decimal_pair_carry (k n : Z) :
  1 <= k →
  round_pos (fst (decimal_pair (10 ^ (k - 1)) (n + 1 - k))) (snd (decimal_pair (10 ^ (k - 1)) (n + 1 - k))) =
  round_pos (fst (decimal_pair (10 ^ k) (n - k))) (snd (decimal_pair (10 ^ k) (n - k))).
Proof.
  intros Hk. unfold decimal_pair, scaled. cbn [fst snd].
  destruct (Z.le_gt_cases k n).
  - rewrite !(Z.max_r 0 (_ - _)), !(Z.max_l 0 (- _)) by lia.
    f_equal. rewrite <-!Z.pow_add_r by lia. f_equal. lia.
  - rewrite !(Z.max_l 0 (_ - _)), !(Z.max_r 0 (- _)) by lia.
    rewrite <-(round_pos_mul _ _ 10) by (try apply Z.pow_pos_nonneg; lia). f_equal.
    + rewrite !Z.pow_0_r, !Z.mul_1_r, pow10_succ by lia. f_equal. lia.
    + rewrite !Z.mul_1_l, pow10_succ by lia. f_equal. lia.
Qed.

Lemma shortest_from_some (f : nat) (d : double) (a b n k : Z) :
  k <= 17 < k + Z.of_nat f → try_digits d a b n 17 <> None →
  ∃ s k', try_digits d a b n k' = Some s ∧ k <= k' <= 17 ∧
    shortest_from f d a b n k = Some (carry_digits s k' n).
Proof.
  revert k. induction f as [|f IH]; intros k Hk H17; [simpl in Hk; lia|].
  cbn [shortest_from]. destruct (try_digits d a b n k) as [s|] eqn:Ht.
  - exists s, k. repeat split; [assumption|lia|lia].
  - destruct (Z.eq_dec k 17) as [->|Hne]; [contradiction|].
    destruct (IH (k + 1)) as (s & k' & Hs & Hk' & Hr); [lia|assumption|].
    exists s, k'. repeat split; [assumption|lia|lia|assumption].
Qed.

Lemma double_pair_pos (d : double) :
  valid_double d = true → 0 < fst (double_pair d) ∧ 0 < snd (double_pair d).
Proof.
  intros Hv. apply valid_double_spec in Hv. unfold double_pair. apply scaled_pos; lia.
Qed.

Lemma dec_exponent_spec (d : double) :
  valid_double d = true →
  snd (scaled 10 (fst (double_pair d)) (snd (double_pair d)) (- (dec_exponent d - 1))) <=
    fst (scaled 10 (fst (double_pair d)) (snd (double_pair d)) (- (dec_exponent d - 1))) <
    10 * snd (scaled 10 (fst (double_pair d)) (snd (double_pair d)) (- (dec_exponent d - 1))).
Proof.
  intros Hv. destruct (double_pair_pos d Hv). unfold dec_exponent.
  replace (flog 10 log10 _ _ + 1 - 1) with (flog 10 log10 (fst (double_pair d)) (snd (double_pair d)))
    by lia.
  apply flog_spec; auto using log10_log_spec; lia.
Qed.

(** Seventeen digits always give a significand that reads back. *)
Lemma try_digits_17 (d : double) :
  valid_double d = true →
  try_digits d (fst (double_pair d)) (snd (double_pair d)) (dec_exponent d) 17 <> None.
Proof.
  intros Hv. destruct (double_pair_pos d Hv) as [Ha Hb].
  pose proof (dec_exponent_spec d Hv) as Hn.
  pose proof (neighbours_range _ _ (dec_exponent d) 17 Ha Hb ltac:(lia) Hn) as Hr.
  destruct (neighbours _ _ (dec_exponent d) 17) as [lo hi] eqn:Hnb.
  destruct Hr as (Hlo & Hle & Hhi & Hx1 & Hx2 & Hex).
  pose proof (scaled_pos 10 _ _ (17 - dec_exponent d) ltac:(lia) Ha Hb) as [_ Py].
  assert (∃ c, (c = lo ∨ c = hi) ∧
    2 * Z.abs (fst (scaled 10 (fst (double_pair d)) (snd (double_pair d)) (17 - dec_exponent d)) -
               c * snd (scaled 10 (fst (double_pair d)) (snd (double_pair d)) (17 - dec_exponent d))) <=
      snd (scaled 10 (fst (double_pair d)) (snd (double_pair d)) (17 - dec_exponent d))) as (c & Hc & Hnear).
  { name_pair (scaled 10 (fst (double_pair d)) (snd (double_pair d)) (17 - dec_exponent d)) x y.
    destruct (Z.le_gt_cases (2 * (x - lo * y)) y).
    - exists lo. split; [left; reflexivity|lia].
    - exists hi. split; [right; reflexivity|].
      destruct Hhi as [ -> | -> ]; [specialize (Hex eq_refl); nia|nia]. }
  assert (0 < c) by (destruct Hc as [ -> | -> ]; pose proof (Z.pow_pos_nonneg 10 (17 - 1)); lia).
  destruct d as [M E].
  pose proof (candidate_near M E (dec_exponent (mk_double M E)) c Hv ltac:(lia) (proj1 Hn) Hnear)
    as Hok.
  apply (proj2 (rounds_to_spec _ _)) in Hok.
  unfold try_digits. rewrite Hnb.
  destruct Hc as [ -> | -> ]; rewrite Hok;
    [destruct (rounds_to (decimal_pair hi _) _)|destruct (rounds_to (decimal_pair lo _) _)];
    cbn [andb]; try discriminate;
    try (match goal with |- context [scaled ?B ?x ?y ?k] => destruct (scaled B x y k) end);
    repeat match goal with |- context [if ?b then _ else _] => destruct b end;
    discriminate.
Qed.

(** Number::toString always finds its significand: of [k <= 17]
    digits, reading back as the double. *)
Theorem shortest_some (d : double) :
  valid_double d = true →
  ∃ s k n, shortest d = Some (s, k, n) ∧ 1 <= k <= 17 ∧ 10 ^ (k - 1) <= s < 10 ^ k ∧
    rounds_to (decimal_pair s (n - k)) d = true.
Proof.
  intros Hv. destruct (double_pair_pos d Hv) as [Ha Hb].
  pose proof (dec_exponent_spec d Hv) as Hn.
  destruct (shortest_from_some 17 d (fst (double_pair d)) (snd (double_pair d)) (dec_exponent d) 1
    ltac:(lia) (try_digits_17 d Hv)) as (s & k & Ht & Hk & Hs).
  destruct (try_digits_sound _ _ _ _ _ _ Ht) as [Hok Hlh].
  pose proof (neighbours_range _ _ (dec_exponent d) k Ha Hb ltac:(lia) Hn) as Hr.
  destruct (neighbours _ _ (dec_exponent d) k) as [lo hi]. cbn [fst snd] in Hlh.
  destruct Hr as (Hlo & Hle & _).
  unfold shortest. replace (double_pair d) with (fst (double_pair d), snd (double_pair d))
    by (destruct (double_pair d); reflexivity).
  unfold dec_exponent in Hs. rewrite Hs. unfold carry_digits.
  destruct (Z.eqb_spec s (10 ^ k)) as [->|Hne].
  - exists (10 ^ k / 10), k, (dec_exponent d + 1). split; [reflexivity|].
    assert (10 ^ k / 10 = 10 ^ (k - 1)) as ->.
    { replace (10 ^ k) with (10 ^ (k - 1) * 10) by (rewrite pow10_succ by lia; f_equal; lia).
      apply Z.div_mul. lia. }
    assert (10 ^ (k - 1) < 10 ^ k) by (apply Z.pow_lt_mono_r; lia).
    split; [lia|]. split; [lia|].
    apply rounds_to_spec. rewrite decimal_pair_carry by lia. apply rounds_to_spec. exact Hok.
  - exists s, k, (dec_exponent d). split; [reflexivity|]. split; [lia|]. split; [lia|exact Hok].
Qed.

(** ** Rounding to nearest *)

(** [a / b] at the scale of a double of exponent [E], against [a / b]
    in units of [2 ^ emin]. *)
Lemma scaled_fixed (a b E : Z) :
  emin <= E →
  fst (scaled 2 a b (- E)) * (b * 2 ^ (E - emin)) = a * 2 ^ (- emin) * snd (scaled 2 a b (- E)).
Proof.
  intros HE. unfold scaled. cbn [fst snd]. rewrite Z.opp_involutive.
  transitivity (a * b * (2 ^ Z.max 0 (- E) * 2 ^ (E - emin))); [ring|].
  transitivity (a * b * (2 ^ (- emin) * 2 ^ Z.max 0 E)); [|ring].
  rewrite <-!Z.pow_add_r by (unfold emin in *; lia). f_equal. f_equal. lia.
Qed.

Lemma cross_le (x y A U M p q : Z) :
  0 < y → 0 < U → x * U = A * y →
  (p * (x - M * y) <= q * y ↔ p * (A - M * U) <= q * U).
Proof.
  intros Hy HU Hs. rewrite (Z.mul_le_mono_pos_r _ _ U HU), (Z.mul_le_mono_pos_r (p * (A - M * U)) _ y Hy).
  replace (p * (x - M * y) * U) with (p * (x * U) - p * M * y * U) by ring. rewrite Hs.
  replace (p * (A * y) - p * M * y * U) with (p * (A - M * U) * y) by ring.
  replace (q * y * U) with (q * U * y) by ring. reflexivity.
Qed.

Lemma cross_lt (x y A U M p q : Z) :
  0 < y → 0 < U → x * U = A * y →
  (p * (x - M * y) < q * y ↔ p * (A - M * U) < q * U).
Proof.
  intros Hy HU Hs. rewrite (Z.mul_lt_mono_pos_r U _ _ HU), (Z.mul_lt_mono_pos_r y (p * (A - M * U)) _ Hy).
  replace (p * (x - M * y) * U) with (p * (x * U) - p * M * y * U) by ring. rewrite Hs.
  replace (p * (A * y) - p * M * y * U) with (p * (A - M * U) * y) by ring.
  replace (q * y * U) with (q * U * y) by ring. reflexivity.
Qed.

Lemma ulp_pos (d : double) : valid_double d = true → 0 < ulp d.
Proof. intros Hv. apply valid_double_spec in Hv. unfold ulp. apply Z.pow_pos_nonneg; lia. Qed.

Lemma fixed_ulp (d : double) : fixed d = dbl_m d * ulp d.
Proof. reflexivity. Qed.

(** The scale of [d] and the units of [2 ^ emin] are related by
    [cross_le] and [cross_lt] through [scaled_fixed]. *)
Lemma scaled_fixed_d (a b : Z) (d : double) :
  valid_double d = true →
  fst (scaled 2 a b (- dbl_e d)) * (ulp d * b) = a * 2 ^ (- emin) * snd (scaled 2 a b (- dbl_e d)).
Proof.
  intros Hv. apply valid_double_spec in Hv. rewrite <-scaled_fixed by lia.
  unfold ulp. ring.
Qed.

(** A rounded value is within half a unit of the last place of its
    double, in units of [2 ^ emin]. *)
Lemma round_pos_half (a b : Z) (d : double) :
  0 < a → 0 < b → round_pos a b = RFin d →
  2 * Z.abs (a * 2 ^ (- emin) - fixed d * b) <= ulp d * b.
Proof.
  intros Ha Hb Hr. pose proof (round_pos_valid a b d Ha Hb Hr) as Hv.
  pose proof (ulp_pos d Hv). destruct d as [M E].
  pose proof (round_pos_sound a b M E Ha Hb Hr) as Hw. unfold within_half in Hw.
  pose proof (scaled_fixed_d a b _ Hv) as Hs. cbn [dbl_e] in Hs.
  pose proof (scaled_pos 2 a b (- E) ltac:(lia) Ha Hb) as [_ Py].
  rewrite fixed_ulp. cbn [dbl_m]. replace (M * ulp (mk_double M E) * b) with (M * (ulp (mk_double M E) * b)) by ring.
  assert (0 < ulp (mk_double M E) * b) as HU by nia.
  name_pair (scaled 2 a b (- E)) x y.
  pose proof (proj1 (cross_le _ _ _ _ M 2 1 Py HU Hs) ltac:(lia)).
  pose proof (proj1 (cross_le _ _ _ _ M (-2) 1 Py HU Hs) ltac:(lia)).
  lia.
Qed.

(** At the bottom of a binade, where the double below is half as far,
    a value rounds up to the double only from a quarter of a unit
    below it. *)
Lemma round_pos_bottom (a b E : Z) :
  0 < a → 0 < b → round_pos a b = RFin (mk_double (2 ^ 52) E) → emin < E →
  4 * (2 ^ 52 * snd (scaled 2 a b (- E)) - fst (scaled 2 a b (- E))) <= snd (scaled 2 a b (- E)).
Proof.
  intros Ha Hb. pose proof (binade_scaled a b Ha Hb) as Hx. cbv zeta in Hx.
  unfold round_pos. set (t := flog 2 Z.log2 a b) in *. set (e := round_exp a b) in *.
  assert (e = Z.max (t - 52) emin) as He by reflexivity. clearbody t e.
  pose proof (scaled_pos 2 a b (- e) ltac:(lia) Ha Hb) as [Px Py].
  pose proof (scaled_shift1 2 a b (- e - 1) ltac:(lia)) as Hs.
  replace (- e - 1 + 1) with (- e) in Hs by lia.
  unfold round_at. destruct Hx as (_ & Hx2 & _). revert Hx2 Px Py Hs.
  destruct (scaled 2 a b (- e)) as [x y] eqn:Exy. cbn [fst snd]. intros Hx2 Px Py Hs.
  pose proof (round_half_even_bound x y Py) as Hr.
  set (m := round_half_even x y) in *.
  destruct (Z.eqb_spec m (2 ^ 53)) as [Hm|Hm].
  - destruct (Z.eqb_spec (2 ^ 52) 0); [discriminate|].
    destruct (Z.ltb_spec emax (e + 1)); [discriminate|]. intros [= <-] _.
    replace (- (e + 1)) with (- e - 1) by lia.
    pose proof (scaled_pos 2 a b (- e - 1) ltac:(lia) Ha Hb) as [Px' Py'].
    name_pair (scaled 2 a b (- e - 1)) x' y'. rewrite Hm in Hr.
    apply (Z.mul_le_mono_pos_r _ _ (2 * y)); [lia|]. nia.
  - destruct (Z.eqb_spec m 0); [discriminate|].
    destruct (Z.ltb_spec emax e); [discriminate|]. intros [= HM <-] HE.
    rewrite Exy. cbn [fst snd]. specialize (Hx2 ltac:(lia)). lia.
Qed.

Lemma round_pos_bottom_fixed (a b : Z) (d : double) :
  0 < a → 0 < b → round_pos a b = RFin d → dbl_m d = 2 ^ 52 → emin < dbl_e d →
  4 * (fixed d * b - a * 2 ^ (- emin)) <= ulp d * b.
Proof.
  intros Ha Hb Hr HM HE. pose proof (round_pos_valid a b d Ha Hb Hr) as Hv.
  pose proof (ulp_pos d Hv). pose proof (scaled_fixed_d a b _ Hv) as Hs.
  destruct d as [M E]. cbn [dbl_m dbl_e] in *. subst M.
  pose proof (round_pos_bottom a b E Ha Hb Hr HE) as Hw.
  pose proof (scaled_pos 2 a b (- E) ltac:(lia) Ha Hb) as [_ Py].
  rewrite fixed_ulp. cbn [dbl_m].
  assert (0 < ulp (mk_double (2 ^ 52) E) * b) as HU by nia.
  name_pair (scaled 2 a b (- E)) x y.
  pose proof (proj1 (cross_le _ _ _ _ (2 ^ 52) (-4) 1 Py HU Hs) ltac:(lia)).
  lia.
Qed.

(** [round_pos_near] in units of [2 ^ emin]. *)
Lemma round_pos_near_fixed (a b : Z) (d : double) :
  0 < a → 0 < b → valid_double d = true →
  2 * Z.abs (a * 2 ^ (- emin) - fixed d * b) < ulp d * b →
  (dbl_m d = 2 ^ 52 → emin < dbl_e d → 4 * (fixed d * b - a * 2 ^ (- emin)) < ulp d * b) →
  round_pos a b = RFin d.
Proof.
  intros Ha Hb Hv Hn Hbot. pose proof (ulp_pos d Hv). pose proof (scaled_fixed_d a b _ Hv) as Hs.
  assert (0 < ulp d * b) as HU by nia.
  destruct d as [M E]. cbn [dbl_m dbl_e] in *. rewrite fixed_ulp in Hn, Hbot. cbn [dbl_m] in Hn, Hbot.
  pose proof (scaled_pos 2 a b (- E) ltac:(lia) Ha Hb) as [_ Py].
  apply round_pos_near; [assumption..| |].
  - name_pair (scaled 2 a b (- E)) x y.
    pose proof (proj2 (cross_lt _ _ _ _ M 2 1 Py HU Hs) ltac:(lia)).
    pose proof (proj2 (cross_lt _ _ _ _ M (-2) 1 Py HU Hs) ltac:(lia)).
    lia.
  - intros HM HE. specialize (Hbot HM HE). subst M.
    name_pair (scaled 2 a b (- E)) x y.
    pose proof (proj2 (cross_lt _ _ _ _ (2 ^ 52) (-4) 1 Py HU Hs) ltac:(lia)).
    lia.
Qed.

(** The doubles above [d] are at least a unit of its last place away. *)
Lemma fixed_gap_above (d d' : double) :
  valid_double d = true → valid_double d' = true → fixed d < fixed d' →
  fixed d + ulp d <= fixed d'.
Proof.
  intros Hv Hv'. apply valid_double_spec in Hv, Hv'.
  destruct d as [M E], d' as [M' E']. unfold fixed, ulp. cbn [dbl_m dbl_e] in *.
  destruct (Z.le_gt_cases E E') as [HE|HE].
  - replace (2 ^ (E' - emin)) with (2 ^ (E' - E) * 2 ^ (E - emin))
      by (rewrite <-Z.pow_add_r by lia; f_equal; lia).
    pose proof (Z.pow_pos_nonneg 2 (E - emin) ltac:(lia)).
    set (P := 2 ^ (E' - E)). set (U := 2 ^ (E - emin)). intros Hlt.
    assert (M < M' * P) by (apply (Z.mul_lt_mono_pos_r U); lia + nia). nia.
  - replace (2 ^ (E - emin)) with (2 ^ (E - E') * 2 ^ (E' - emin))
      by (rewrite <-Z.pow_add_r by lia; f_equal; lia).
    pose proof (Z.pow_pos_nonneg 2 (E' - emin) ltac:(lia)).
    assert (2 <= 2 ^ (E - E')) by (rewrite <-(Z.pow_1_r 2) at 1; apply Z.pow_le_mono_r; lia).
    assert (2 ^ 53 = 2 * 2 ^ 52) as H53 by reflexivity. nia.
Qed.

(** The doubles below [d] are at least a unit of its last place away,
    or half a unit at the bottom of a binade. *)
Lemma fixed_gap_below (d d' : double) :
  valid_double d = true → valid_double d' = true → fixed d' < fixed d →
  fixed d' + ulp d <= fixed d ∨
  (dbl_m d = 2 ^ 52 ∧ emin < dbl_e d ∧ ulp d <= 2 * (fixed d - fixed d')).
Proof.
  intros Hv Hv'. apply valid_double_spec in Hv, Hv'.
  destruct d as [M E], d' as [M' E']. unfold fixed, ulp. cbn [dbl_m dbl_e] in *.
  destruct (Z.le_gt_cases E E') as [HE|HE].
  - replace (2 ^ (E' - emin)) with (2 ^ (E' - E) * 2 ^ (E - emin))
      by (rewrite <-Z.pow_add_r by lia; f_equal; lia).
    pose proof (Z.pow_pos_nonneg 2 (E - emin) ltac:(lia)).
    set (P := 2 ^ (E' - E)). set (U := 2 ^ (E - emin)). intros Hlt. left.
    assert (M' * P < M) by (apply (Z.mul_lt_mono_pos_r U); lia + nia). nia.
  - replace (2 ^ (E - emin)) with (2 ^ (E - E') * 2 ^ (E' - emin))
      by (rewrite <-Z.pow_add_r by lia; f_equal; lia).
    pose proof (Z.pow_pos_nonneg 2 (E' - emin) ltac:(lia)).
    assert (2 <= 2 ^ (E - E')) by (rewrite <-(Z.pow_1_r 2) at 1; apply Z.pow_le_mono_r; lia).
    assert (2 ^ 53 = 2 * 2 ^ 52) as H53 by reflexivity.
    destruct (Z.eq_dec M (2 ^ 52)) as [->|HM]; [right; split; [reflexivity|split; [lia|nia]]|left; nia].
Qed.

(** RoundMVResult rounds to nearest: no double is nearer to [a / b]
    than the one [round_pos] returns. *)
Lemma round_pos_nearest (a b : Z) (d d' : double) :
  0 < a → 0 < b → round_pos a b = RFin d → valid_double d' = true →
  Z.abs (a * 2 ^ (- emin) - fixed d * b) <= Z.abs (a * 2 ^ (- emin) - fixed d' * b).
Proof.
  intros Ha Hb Hr Hv'. pose proof (round_pos_valid a b d Ha Hb Hr) as Hv.
  pose proof (round_pos_half a b d Ha Hb Hr) as Hh.
  destruct (Z.lt_trichotomy (fixed d) (fixed d')) as [Hlt|[Heq|Hgt]].
  - pose proof (fixed_gap_above d d' Hv Hv' Hlt) as Hg.
    assert ((fixed d + ulp d) * b <= fixed d' * b) by (apply Z.mul_le_mono_nonneg_r; lia). lia.
  - rewrite Heq. lia.
  - destruct (fixed_gap_below d d' Hv Hv' Hgt) as [Hg|(HM & HE & Hg)].
    + assert ((fixed d' + ulp d) * b <= fixed d * b) by (apply Z.mul_le_mono_nonneg_r; lia). lia.
    + pose proof (round_pos_bottom_fixed a b d Ha Hb Hr HM HE).
      assert (ulp d * b <= 2 * (fixed d - fixed d') * b) by (apply Z.mul_le_mono_nonneg_r; lia). lia.
Qed.

(** Rounding depends on the value of the ratio only. *)
Lemma round_pos_ratio (a b a' b' : Z) :
  0 < a → 0 < b → 0 < a' → 0 < b' → a * b' = a' * b → round_pos a b = round_pos a' b'.
Proof.
  intros. rewrite <-(round_pos_mul a b b'), <-(round_pos_mul a' b' b) by assumption.
  replace (a * b') with (a' * b) by lia. f_equal. ring.
Qed.

(** The values that round to a double form an interval: a value
    between two that round to [d] rounds to [d]. *)
Lemma round_between (a1 b1 a b a2 b2 : Z) (d : double) :
  0 < a1 → 0 < b1 → 0 < a → 0 < b → 0 < a2 → 0 < b2 →
  a1 * b <= a * b1 → a * b2 <= a2 * b →
  round_pos a1 b1 = RFin d → round_pos a2 b2 = RFin d → round_pos a b = RFin d.
Proof.
  intros Ha1 Hb1 Ha Hb Ha2 Hb2 H1 H2 Hr1 Hr2.
  destruct (Z.eq_dec (a1 * b) (a * b1)) as [E1|E1].
  { rewrite <-Hr1. apply round_pos_ratio; lia. }
  destruct (Z.eq_dec (a * b2) (a2 * b)) as [E2|E2].
  { rewrite <-Hr2. apply round_pos_ratio; lia. }
  pose proof (round_pos_valid a1 b1 d Ha1 Hb1 Hr1) as Hv.
  pose proof (round_pos_half a1 b1 d Ha1 Hb1 Hr1) as Hh1.
  pose proof (round_pos_half a2 b2 d Ha2 Hb2 Hr2) as Hh2.
  pose proof (round_pos_bottom_fixed a1 b1 d Ha1 Hb1 Hr1) as Hbot.
  pose proof (ulp_pos d Hv). set (P := 2 ^ (- emin)) in *.
  assert (0 < P) by (apply Z.pow_pos_nonneg; unfold emin; lia).
  set (D := fixed d) in *. set (U := ulp d) in *.
  (* the three values in units of [2 ^ emin], compared through [b * b1 * b2] *)
  assert (0 < P * b2) by nia. assert (0 < P * b1) by nia.
  assert (a1 * b * (P * b2) < a * b1 * (P * b2)) by (apply Z.mul_lt_mono_pos_r; lia).
  assert (a * b2 * (P * b1) < a2 * b * (P * b1)) by (apply Z.mul_lt_mono_pos_r; lia).
  apply round_pos_near_fixed; [assumption..| |intros HM HE].
  - assert (2 * Z.abs (a * P - D * b) * (b1 * b2) < U * b * (b1 * b2)); [|nia].
    destruct (Z.le_gt_cases (a * P) (D * b)); nia.
  - specialize (Hbot HM HE).
    assert (4 * (D * b - a * P) * (b1 * b2) < U * b * (b1 * b2)); [nia|nia].
Qed.

(** ** Minimality of the digit search *)

Lemma pow_max_shift (B p j : Z) :
  0 < B → j <= p → B ^ Z.max 0 p * B ^ Z.max 0 (- j) = B ^ Z.max 0 j * B ^ Z.max 0 (- p) * B ^ (p - j).
Proof. intros HB Hjp. rewrite <-!Z.pow_add_r by lia. f_equal. lia. Qed.

(** The grid argument with the powers as variables: a candidate
    [s' * Tp / Up] of [k'] digits lies beyond the lower neighbour
    [lo * Tj / Uj] of [a / b] on the grid of [k'] digits, or beyond
    the upper one [hi * Tj / Uj], or one of them is [a / b] itself.
    Here the candidate's exponent is at least the grid's: [Q] is the
    power of ten between them. *)
Lemma grid_core_above (a b s' Tp Up Tj Uj lo hi Q : Z) :
  0 < b → 0 < Up → 0 < Uj → 0 < Tj → 0 <= s' → 0 <= Q →
  Tp * Uj = Tj * Up * Q →
  lo * (b * Tj) <= a * Uj <= hi * (b * Tj) → lo <= hi <= lo + 1 →
  (s' * Tp * Uj <= lo * Tj * Up ∧ lo * Tj * b <= a * Uj) ∨
  (a * Uj <= hi * Tj * b ∧ hi * Tj * Up <= s' * Tp * Uj) ∨
  lo * (b * Tj) = a * Uj ∨ hi * (b * Tj) = a * Uj.
Proof.
  intros Hb HUp HUj HTj Hs HQ EQ Hx Hlh.
  assert (s' * Tp * Uj = s' * Q * (Tj * Up)) as E1 by (rewrite <-Z.mul_assoc, EQ; ring).
  assert (0 < b * Tj) by nia. assert (0 < Tj * Up) by nia.
  destruct (Z.le_gt_cases (s' * Tp * b) (a * Up)) as [Hc|Hc].
  - assert (s' * Q * (b * Tj) <= a * Uj).
    { apply (Z.mul_le_mono_pos_r _ _ Up HUp).
      replace (s' * Q * (b * Tj) * Up) with (s' * Tp * Uj * b) by (rewrite E1; ring).
      replace (a * Uj * Up) with (a * Up * Uj) by ring. nia. }
    destruct (Z.le_gt_cases (s' * Q) lo).
    + left. split; [rewrite E1; nia|nia].
    + right; right; right. assert (hi <= s' * Q) by lia. nia.
  - assert (a * Uj < s' * Q * (b * Tj)).
    { apply (Z.mul_lt_mono_pos_r Up _ _ HUp).
      replace (s' * Q * (b * Tj) * Up) with (s' * Tp * Uj * b) by (rewrite E1; ring).
      replace (a * Uj * Up) with (a * Up * Uj) by ring. nia. }
    destruct (Z.le_gt_cases hi (s' * Q)).
    + right; left. split; [nia|rewrite E1; nia].
    + exfalso. assert (s' * Q <= lo) by lia. nia.
Qed.

(** The same when the candidate's exponent is below the grid's, by
    the power of ten [R]: the candidate is then below [10 ^ (n - 1)]. *)
Lemma grid_core_below (a b s' Tp Up Tj Uj lo R P : Z) :
  0 < b → 0 < Up → 0 < Uj → 0 < Tp → 0 <= s' → 10 <= R → 0 < P →
  Tj * Up = Tp * Uj * R → P <= lo → s' < 10 * P → lo * (b * Tj) <= a * Uj →
  s' * Tp * Uj <= lo * Tj * Up ∧ lo * Tj * b <= a * Uj.
Proof.
  intros Hb HUp HUj HTp Hs HR HP ER Hlo Hs' Hx. split; [|nia].
  replace (lo * Tj * Up) with (lo * R * (Tp * Uj)) by (rewrite <-(Z.mul_assoc lo Tj Up), ER; ring).
  assert (0 < Tp * Uj) by nia. assert (s' <= lo * R) by nia. nia.
Qed.

(** A candidate below the grid cannot be above [a / b]. *)
Lemma grid_below_not_above (a b s' Tp Up Tj Uj lo R P : Z) :
  0 < b → 0 < Up → 0 < Uj → 0 < Tp → 0 <= s' → 10 <= R → 0 < P →
  Tj * Up = Tp * Uj * R → P <= lo → s' < 10 * P → lo * (b * Tj) <= a * Uj →
  a * Up <= s' * Tp * b → False.
Proof.
  intros Hb HUp HUj HTp Hs HR HP ER Hlo Hs' Hx Hc.
  assert (lo * Tj * Up * b <= s' * Tp * Uj * b) by nia.
  assert (lo * R * (Tp * Uj) <= s' * (Tp * Uj)) as Hm.
  { replace (lo * R * (Tp * Uj)) with (lo * (Tj * Up)) by (rewrite ER; ring). nia. }
  assert (0 < Tp * Uj) by nia. assert (lo * R <= s') by nia. nia.
Qed.

Lemma try_digits_some (d : double) (a b n k : Z) :
  rounds_to (decimal_pair (fst (neighbours a b n k)) (n - k)) d = true ∨
  rounds_to (decimal_pair (snd (neighbours a b n k)) (n - k)) d = true →
  try_digits d a b n k <> None.
Proof.
  unfold try_digits. destruct (neighbours a b n k) as [lo hi]. cbn [fst snd].
  intros [Hl|Hh]; [rewrite Hl|rewrite Hh; destruct (rounds_to _ d)]; cbn [andb];
    try (destruct (scaled 10 a b (k - n)));
    repeat match goal with |- context [if ?c then _ else _] => destruct c end; discriminate.
Qed.

(** If some significand of [k'] digits, at any exponent, reads back as
    [d], then one of the two [k']-digit neighbours of [d] does: the
    values that round to [d] form an interval around it, and the
    candidate is beyond one of the neighbours. *)
Lemma candidate_neighbour (d : double) (k' s' p : Z) :
  valid_double d = true → 1 <= k' → 10 ^ (k' - 1) <= s' < 10 ^ k' →
  rounds_to (decimal_pair s' p) d = true →
  let '(lo, hi) := neighbours (fst (double_pair d)) (snd (double_pair d)) (dec_exponent d) k' in
  rounds_to (decimal_pair lo (dec_exponent d - k')) d = true ∨
  rounds_to (decimal_pair hi (dec_exponent d - k')) d = true.
Proof.
  intros Hv Hk Hs Hc. destruct (double_pair_pos d Hv) as [Ha Hb].
  pose proof (round_pos_double d Hv) as Hd. apply rounds_to_spec in Hc.
  pose proof (neighbours_range _ _ (dec_exponent d) k' Ha Hb Hk (dec_exponent_spec d Hv)) as Hr.
  destruct (neighbours _ _ _ _) as [lo hi]. destruct Hr as (Hlo & Hlh & Hhi & Hx1 & Hx2 & _).
  rewrite !rounds_to_spec. revert Hd Hx1 Hx2 Ha Hb.
  set (a := fst (double_pair d)). set (b := snd (double_pair d)). set (j := dec_exponent d - k').
  clearbody a b. intros Hd Hx1 Hx2 Ha Hb.
  unfold decimal_pair, scaled in *. cbn [fst snd] in *. rewrite !Z.mul_1_l in *.
  replace (Z.max 0 (k' - dec_exponent d)) with (Z.max 0 (- j)) in * by (f_equal; lia).
  replace (Z.max 0 (- (k' - dec_exponent d))) with (Z.max 0 j) in * by (f_equal; lia).
  pose proof (Z.pow_pos_nonneg 10 (k' - 1) ltac:(lia) ltac:(lia)) as HP.
  assert (10 ^ k' = 10 * 10 ^ (k' - 1)) as Ek by (rewrite <-Z.pow_succ_r by lia; f_equal; lia).
  pose proof (pow_max_pos 10 p ltac:(lia)). pose proof (pow_max_pos 10 (- p) ltac:(lia)).
  pose proof (pow_max_pos 10 j ltac:(lia)). pose proof (pow_max_pos 10 (- j) ltac:(lia)).
  destruct (Z.le_gt_cases j p) as [Hjp|Hjp].
  - pose proof (pow_max_shift 10 p j ltac:(lia) Hjp) as EQ.
    pose proof (Z.pow_pos_nonneg 10 (p - j) ltac:(lia) ltac:(lia)).
    set (Tp := 10 ^ Z.max 0 p) in *. set (Up := 10 ^ Z.max 0 (- p)) in *.
    set (Tj := 10 ^ Z.max 0 j) in *. set (Uj := 10 ^ Z.max 0 (- j)) in *.
    destruct (grid_core_above a b s' Tp Up Tj Uj lo hi (10 ^ (p - j))
      ltac:(lia) ltac:(lia) ltac:(lia) ltac:(lia) ltac:(lia) ltac:(lia) EQ ltac:(lia) ltac:(lia))
      as [[G1 G2]|[[G1 G2]|[G1|G1]]].
    + left. apply (round_between (s' * Tp) Up (lo * Tj) Uj a b d); first [exact Hc|exact Hd|nia].
    + right. apply (round_between a b (hi * Tj) Uj (s' * Tp) Up d); first [exact Hc|exact Hd|nia].
    + left. rewrite <-Hd. apply round_pos_ratio; nia.
    + right. rewrite <-Hd. apply round_pos_ratio; nia.
  - pose proof (pow_max_shift 10 j p ltac:(lia) ltac:(lia)) as ER.
    assert (10 <= 10 ^ (j - p)) by (rewrite <-(Z.pow_1_r 10) at 1; apply Z.pow_le_mono_r; lia).
    set (Tp := 10 ^ Z.max 0 p) in *. set (Up := 10 ^ Z.max 0 (- p)) in *.
    set (Tj := 10 ^ Z.max 0 j) in *. set (Uj := 10 ^ Z.max 0 (- j)) in *.
    destruct (Z.le_gt_cases (s' * Tp * b) (a * Up)).
    + left. destruct (grid_core_below a b s' Tp Up Tj Uj lo (10 ^ (j - p)) (10 ^ (k' - 1))
        ltac:(lia) ltac:(lia) ltac:(lia) ltac:(lia) ltac:(lia) ltac:(lia) HP ER
        ltac:(lia) ltac:(lia) ltac:(lia)) as [G1 G2].
      apply (round_between (s' * Tp) Up (lo * Tj) Uj a b d); first [exact Hc|exact Hd|nia].
    + exfalso. apply (grid_below_not_above a b s' Tp Up Tj Uj lo (10 ^ (j - p)) (10 ^ (k' - 1))
        ltac:(lia) ltac:(lia) ltac:(lia) ltac:(lia) ltac:(lia) ltac:(lia) HP ER
        ltac:(lia) ltac:(lia) ltac:(lia) ltac:(lia)).
Qed.

Lemma shortest_from_first (f : nat) (d : double) (a b n k0 k' : Z) (r : Z * Z * Z) :
  shortest_from f d a b n k0 = Some r → k0 <= k' → try_digits d a b n k' <> None →
  ∃ s k, try_digits d a b n k = Some s ∧ k0 <= k <= k' ∧ r = carry_digits s k n.
Proof.
  revert k0. induction f as [|f IH]; intros k0; cbn [shortest_from]; [discriminate|].
  destruct (try_digits d a b n k0) as [s|] eqn:Ht.
  - intros [= <-] Hk _. exists s, k0. repeat split; [assumption|lia|assumption].
  - intros Hr Hk Hk'. destruct (Z.eq_dec k0 k') as [->|Hne]; [contradiction|].
    destruct (IH (k0 + 1) Hr ltac:(lia) Hk') as (s & k & Hs & Hkk & ->).
    exists s, k. repeat split; [assumption|lia|lia].
Qed.

Lemma carry_digits_k (s k n : Z) : snd (fst (carry_digits s k n)) = k.
Proof. unfold carry_digits. destruct (s =? 10 ^ k); reflexivity. Qed.

(** Number::toString takes as few digits as possible: no significand
    with fewer digits, at any exponent, reads back as the double. *)
Lemma shortest_minimal (d : double) (s k n s' k' p : Z) :
  valid_double d = true → shortest d = Some (s, k, n) →
  1 <= k' → 10 ^ (k' - 1) <= s' < 10 ^ k' → rounds_to (decimal_pair s' p) d = true →
  k <= k'.
Proof.
  intros Hv Hs Hk' Hs' Hc.
  pose proof (try_digits_some d (fst (double_pair d)) (snd (double_pair d)) (dec_exponent d) k') as Ht.
  pose proof (candidate_neighbour d k' s' p Hv Hk' Hs' Hc) as Hn.
  destruct (neighbours _ _ _ _) as [lo hi]. specialize (Ht Hn).
  assert (shortest d = shortest_from 17 d (fst (double_pair d)) (snd (double_pair d)) (dec_exponent d) 1)
    as Hsh by (unfold shortest, dec_exponent; destruct (double_pair d); reflexivity).
  rewrite Hsh in Hs. destruct (shortest_from_first _ _ _ _ _ _ _ _ Hs Hk' Ht) as (s0 & k0 & _ & Hk & Hr).
  pose proof (carry_digits_k s0 k0 (dec_exponent d)) as Hkk. rewrite <-Hr in Hkk. cbn in Hkk. lia.
Qed.
