(* ===== verification/Json.v ===== *)
(** * JSON values, the body middleware and the zod schemas of routes.js

    A request body reaches a handler as the value [JSON.parse] built, or
    [null] when the body was empty or not JSON (middlewares/json.js,
    spec-modelled).  The handlers validate it and their path parameters
    with two zod schemas, modelled here as partial functions:
    [body_schema] for [z.object({title: z.string(), description:
    z.string()})] and [params_schema] for [z.object({id:
    z.string().uuid()})].  [safeParse] succeeding is [Some], failing is
    [None]. *)

From stdpp Require Import base list gmap strings.
From Stdlib Require Import Ascii.
From S2P Require Import Prelude.

(** ** JSON values *)

#[warnings="-register-all"]
Inductive jvalue :=
  | JNull
  | JBool (b : bool)
  | JNum (literal : string)
  | JStr (s : string)
  | JArr (items : list jvalue)
  | JObj (fields : list (string * jvalue)).

(** Property access on a parsed object: [JSON.parse] keeps the last
    occurrence of a repeated key. *)
Fixpoint jget (fields : list (string * jvalue)) (k : string) : option jvalue :=
  match fields with
  | [] => None
  | (k', v) :: fs =>
      match jget fs k with
      | Some v' => Some v'
      | None => if decide (k = k') then Some v else None
      end
  end.

(** The body middleware: the parsed body, or [null] when the request had
    no body or the body was not JSON. *)
Definition json_body (parsed : option jvalue) : jvalue :=
  match parsed with
  | Some v => v
  | None => JNull
  end.

(** ** The zod schemas *)

(** [z.object({title: z.string(), description: z.string()}).safeParse]:
    the input must be an object (not [null], not an array) whose
    [title] and [description] are strings; other keys are stripped.
    Note that [z.string()] accepts the empty string. *)
Definition body_schema (v : jvalue) : option (string * string) :=
  match v with
  | JObj fs =>
      match jget fs "title", jget fs "description" with
      | Some (JStr t), Some (JStr d) => Some (t, d)
      | _, _ => None
      end
  | _ => None
  end.

(** Hexadecimal digits, either case ([z.string().uuid()] is case-insensitive). *)
Definition is_hex (c : ascii) : bool :=
  let n := Ascii.nat_of_ascii c in
  (48 <=? n) && (n <=? 57) || (65 <=? n) && (n <=? 70) || (97 <=? n) && (n <=? 102).

(** zod's UUID pattern [^[0-9a-f]{8}-[0-9a-f]{4}-[0-9a-f]{4}-[0-9a-f]{4}-[0-9a-f]{12}$]
    (flag [i]), written as a shape in which [x] stands for a hex digit. *)
Definition uuid_shape : string := "xxxxxxxx-xxxx-xxxx-xxxx-xxxxxxxxxxxx".

Fixpoint match_shape (shape s : string) : bool :=
  match shape, s with
  | EmptyString, EmptyString => true
  | String p shape', String c s' =>
      (if decide (p = "x"%char) then is_hex c else bool_decide (c = p))
      && match_shape shape' s'
  | _, _ => false
  end.

Definition is_uuid (s : string) : bool := match_shape uuid_shape s.

(** [z.object({id: z.string().uuid()}).safeParse(req.params)]. *)
Definition params_schema (params : gmap string string) : option string :=
  match params !! "id" with
  | Some id => if is_uuid id then Some id else None
  | None => None
  end.

(** ** [JSON.stringify] of strings *)

Definition dquote : ascii := "034"%char.
Definition backslash : ascii := "092"%char.

Definition hex_digit (n : nat) : ascii :=
  Ascii.ascii_of_nat (if n <? 10 then 48 + n else 87 + n).

(** QuoteJSONString's escape of one code unit: the short escapes, then
    [\u00xx] (lower-case hex) for the other control characters. *)
Definition json_escape_char (c : ascii) : string :=
  let n := Ascii.nat_of_ascii c in
  if n =? 8 then String backslash "b"
  else if n =? 9 then String backslash "t"
  else if n =? 10 then String backslash "n"
  else if n =? 12 then String backslash "f"
  else if n =? 13 then String backslash "r"
  else if n =? 34 then String backslash (String dquote "")
  else if n =? 92 then String backslash (String backslash "")
  else if n <? 32 then
    String backslash ("u00" +:+ String (hex_digit (n / 16)) (String (hex_digit (n mod 16)) ""))
  else String c "".

Fixpoint json_escape (s : string) : string :=
  match s with
  | EmptyString => ""
  | String c s' => json_escape_char c +:+ json_escape s'
  end.

Definition json_quote (s : string) : string := String dquote (json_escape s +:+ String dquote "").

(** ** Lemmas *)

(** Every character a shape accepts is a hex digit or one of the
    character of the shape other than the placeholder [x]. *)
Lemma match_shape_char (shape s : string) (c : ascii) :
  match_shape shape s = true → c ∈ String.list_ascii_of_string s →
  is_hex c = true ∨ (c ∈ String.list_ascii_of_string shape ∧ c ≠ "x"%char).
Proof.
  revert s. induction shape as [|p shape IH]; intros [|c' s]; simpl;
    [by intros _ ?%elem_of_nil|intros [=]..|].
  intros [Hc Hs]%andb_true_iff [->|Hin]%elem_of_cons.
  - case_decide; [by left|]. apply bool_decide_eq_true in Hc as ->. right. split; [left|done].
  - destruct (IH s Hs Hin) as [?|[? ?]]; [by left|]. right. split; [by right|done].
Qed.

(** An identifier holding a character that is neither a hex digit nor
    ['-'] (a ['?'], a ['/'], a space) is not a UUID. *)
Lemma is_uuid_reject (s : string) (c : ascii) :
  c ∈ String.list_ascii_of_string s → is_hex c = false → c ≠ "-"%char → is_uuid s = false.
Proof.
  intros Hin Hh Hd. destruct (is_uuid s) eqn:E; [|done].
  destruct (match_shape_char _ _ _ E Hin) as [?|[Hs Hx]]; [congruence|].
  exfalso. cbv [uuid_shape String.list_ascii_of_string] in Hs. repeat (apply elem_of_cons in Hs as [?|Hs]; [subst; done|]).
  by apply elem_of_nil in Hs.
Qed.
