(* ===== verification/JsonParse.v ===== *)
(** * [JSON.parse], the parser the body middleware calls

    middlewares/json.js (not in the snapshot, spec.md 4) concatenates
    the chunks of the body and hands the text to [JSON.parse]; a
    [SyntaxError] makes the body [null].  This file gives [JSON.parse]
    for the grammar of ECMA-404 as ECMAScript's [JSON.parse] accepts it:
    white space is space, tab, line feed and carriage return; a number
    is [-?(0|[1-9][0-9]* )(.[0-9]+)?([eE][+-]?[0-9]+)?], kept as its
    lexeme ([JNum]); a string is a sequence of code units from [0x20]
    up, other than the double quote and the backslash, and of the
    escapes of a backslash followed by a double quote, a backslash, a
    slash, [b], [f], [n], [r], [t], or [u] and four hex digits; repeated
    keys are all kept (the last one wins on access, [jget]).  Strings
    are 8-bit here, so a [u] escape above [0x00FF] has no value in the
    model and the parser gives up on it.

    Nesting is not structural in the input, so [parse_value] and its
    two list loops take fuel.  [json_fuel s] (twice the length, plus
    one) is enough: [parse_value_fuel_enough] shows that more fuel never
    changes the answer.  [JSON_parse_stringify_record] is the round
    trip the CSV import relies on. *)

From stdpp Require Import base list strings.
From Stdlib Require Import Ascii.
From S2P Require Import Prelude Json.

Local Open Scope js_scope.

(** ** Lexical classes *)

Definition is_json_ws (c : ascii) : bool :=
  let n := Ascii.nat_of_ascii c in (n =? 32) || (n =? 9) || (n =? 10) || (n =? 13).

Fixpoint skip_ws (s : string) : string :=
  match s with
  | String c s' => if is_json_ws c then skip_ws s' else s
  | EmptyString => EmptyString
  end.

Definition is_digit (c : ascii) : bool :=
  let n := Ascii.nat_of_ascii c in (48 <=? n) && (n <=? 57).

(** The longest run of digits at the head, and what follows it. *)
Fixpoint take_digits (s : string) : string * string :=
  match s with
  | String c s' =>
      if is_digit c then let '(ds, r) := take_digits s' in (String c ds, r) else ("", s)
  | EmptyString => ("", "")
  end.

(** [w] at the head of [s]: what follows it. *)
Fixpoint strip_prefix (w s : string) : option string :=
  match w, s with
  | EmptyString, _ => Some s
  | String a w', String b s' => if a === b then strip_prefix w' s' else None
  | String _ _, EmptyString => None
  end.

(** ** Numbers *)

(** [0 | [1-9][0-9]*]. *)
Definition lex_int (s : string) : option (string * string) :=
  match s with
  | String c s' =>
      if c === "0"%char then Some ("0", s')
      else if is_digit c then let '(ds, r) := take_digits s' in Some (String c ds, r)
      else None
  | EmptyString => None
  end.

(** [(.[0-9]+)?]. *)
Definition lex_frac (s : string) : option (string * string) :=
  match s with
  | String c s' =>
      if c === "."%char then
        match take_digits s' with
        | (EmptyString, _) => None
        | (ds, r) => Some (String c ds, r)
        end
      else Some ("", s)
  | EmptyString => Some ("", "")
  end.

(** [([eE][+-]?[0-9]+)?]. *)
Definition lex_exp (s : string) : option (string * string) :=
  match s with
  | String c s' =>
      if (c === "e"%char) || (c === "E"%char) then
        let '(sg, s'') :=
          match s' with
          | String d r => if (d === "+"%char) || (d === "-"%char) then (String d "", r) else ("", s')
          | EmptyString => ("", "")
          end in
        match take_digits s'' with
        | (EmptyString, _) => None
        | (ds, r) => Some (String c (sg +:+ ds), r)
        end
      else Some ("", s)
  | EmptyString => Some ("", "")
  end.

Definition lex_number (s : string) : option (string * string) :=
  let '(sg, s1) :=
    match s with
    | String c r => if c === "-"%char then ("-", r) else ("", s)
    | EmptyString => ("", s)
    end in
  match lex_int s1 with
  | Some (i, r1) =>
      match lex_frac r1 with
      | Some (f, r2) =>
          match lex_exp r2 with
          | Some (x, r3) => Some (sg +:+ i +:+ f +:+ x, r3)
          | None => None
          end
      | None => None
      end
  | None => None
  end.

(** ** Strings *)

Definition hex_val (c : ascii) : option nat :=
  let n := Ascii.nat_of_ascii c in
  if (48 <=? n) && (n <=? 57) then Some (n - 48)
  else if (65 <=? n) && (n <=? 70) then Some (n - 55)
  else if (97 <=? n) && (n <=? 102) then Some (n - 87)
  else None.

(** The one-character escapes. *)
Definition json_unescape (e : ascii) : option ascii :=
  let n := Ascii.nat_of_ascii e in
  if n =? 34 then Some dquote
  else if n =? 92 then Some backslash
  else if n =? 47 then Some "/"%char
  else if n =? 98 then Some "008"%char
  else if n =? 102 then Some "012"%char
  else if n =? 110 then Some "010"%char
  else if n =? 114 then Some "013"%char
  else if n =? 116 then Some "009"%char
  else None.

Definition cons_fst (c : ascii) (o : option (string * string)) : option (string * string) :=
  (λ p, (String c p.1, p.2)) <$> o.

(** The body of a string literal, after its opening quote: the decoded
    code units and what follows the closing quote. *)
Fixpoint lex_chars (s : string) : option (string * string) :=
  match s with
  | EmptyString => None
  | String c s' =>
      if c === dquote then Some ("", s')
      else if c === backslash then
        match s' with
        | EmptyString => None
        | String e r =>
            if e === "u"%char then
              match r with
              | String h1 (String h2 (String h3 (String h4 r'))) =>
                  match hex_val h1, hex_val h2, hex_val h3, hex_val h4 with
                  | Some a, Some b, Some c', Some d =>
                      let code := a * 4096 + b * 256 + c' * 16 + d in
                      if code <? 256 then cons_fst (Ascii.ascii_of_nat code) (lex_chars r')
                      else None
                  | _, _, _, _ => None
                  end
              | _ => None
              end
            else
              match json_unescape e with
              | Some u => cons_fst u (lex_chars r)
              | None => None
              end
        end
      else if Ascii.nat_of_ascii c <? 32 then None
      else cons_fst c (lex_chars s')
  end.

(** ** Values *)

Abbreviation items_parser := (list jvalue → string → option (list jvalue * string)).
Abbreviation fields_parser :=
  (list (string * jvalue) → string → option (list (string * jvalue) * string)).

(** One value, the parsers of the two list forms given. *)
Definition value_step (items : items_parser) (fields : fields_parser) (s : string)
    : option (jvalue * string) :=
  match skip_ws s with
  | EmptyString => None
  | String c r =>
      if c === "{"%char then
        match skip_ws r with
        | String c' r' =>
            if c' === "}"%char then Some (JObj [], r')
            else (λ p, (JObj p.1, p.2)) <$> fields [] r
        | EmptyString => None
        end
      else if c === "["%char then
        match skip_ws r with
        | String c' r' =>
            if c' === "]"%char then Some (JArr [], r')
            else (λ p, (JArr p.1, p.2)) <$> items [] r
        | EmptyString => None
        end
      else if c === dquote then (λ p, (JStr p.1, p.2)) <$> lex_chars r
      else if c === "t"%char then (λ r', (JBool true, r')) <$> strip_prefix "rue" r
      else if c === "f"%char then (λ r', (JBool false, r')) <$> strip_prefix "alse" r
      else if c === "n"%char then (λ r', (JNull, r')) <$> strip_prefix "ull" r
      else (λ p, (JNum p.1, p.2)) <$> lex_number (String c r)
  end.

(** The elements of an array, after [[] or [,]. *)
Definition items_step (value : string → option (jvalue * string)) (items : items_parser)
    (acc : list jvalue) (s : string) : option (list jvalue * string) :=
  match value s with
  | Some (v, r) =>
      match skip_ws r with
      | String c r' =>
          if c === ","%char then items (acc ++ [v]) r'
          else if c === "]"%char then Some (acc ++ [v], r')
          else None
      | EmptyString => None
      end
  | None => None
  end.

(** The members of an object, after [{] or [,]. *)
Definition fields_step (value : string → option (jvalue * string)) (fields : fields_parser)
    (acc : list (string * jvalue)) (s : string) : option (list (string * jvalue) * string) :=
  match skip_ws s with
  | String q r =>
      if q === dquote then
        match lex_chars r with
        | Some (k, r1) =>
            match skip_ws r1 with
            | String c r2 =>
                if c === ":"%char then
                  match value r2 with
                  | Some (v, r3) =>
                      match skip_ws r3 with
                      | String c' r4 =>
                          if c' === ","%char then fields (acc ++ [(k, v)]) r4
                          else if c' === "}"%char then Some (acc ++ [(k, v)], r4)
                          else None
                      | EmptyString => None
                      end
                  | None => None
                  end
                else None
            | EmptyString => None
            end
        | None => None
        end
      else None
  | EmptyString => None
  end.

Fixpoint parse_value (fuel : nat) (s : string) {struct fuel} : option (jvalue * string) :=
  match fuel with
  | 0 => None
  | S fuel => value_step (parse_items fuel) (parse_fields fuel) s
  end
with parse_items (fuel : nat) (acc : list jvalue) (s : string) {struct fuel}
    : option (list jvalue * string) :=
  match fuel with
  | 0 => None
  | S fuel => items_step (parse_value fuel) (parse_items fuel) acc s
  end
with parse_fields (fuel : nat) (acc : list (string * jvalue)) (s : string) {struct fuel}
    : option (list (string * jvalue) * string) :=
  match fuel with
  | 0 => None
  | S fuel => fields_step (parse_value fuel) (parse_fields fuel) acc s
  end.

Definition json_fuel (s : string) : nat := 2 * String.length s + 1.

(** [JSON.parse(text)]: one value, then nothing but white space;
    [None] is the [SyntaxError]. *)
Definition JSON_parse (s : string) : option jvalue :=
  match parse_value (json_fuel s) s with
  | Some (v, r) => if skip_ws r === "" then Some v else None
  | None => None
  end.

(** ** The lexers consume their input *)

(** A parser that returns a strictly shorter rest. *)
Definition shrinks {A} (f : string → option (A * string)) : Prop :=
  ∀ s x r, f s = Some (x, r) → String.length r < String.length s.


Lemma skip_ws_length (s : string) : String.length (skip_ws s) ≤ String.length s.
Proof. induction s as [|c s IH]; simpl; [lia|]. destruct (is_json_ws c); simpl; lia. Qed.

Lemma take_digits_length (s ds r : string) :
  take_digits s = (ds, r) → String.length ds + String.length r = String.length s.
Proof.
  revert ds r. induction s as [|c s IH]; simpl; intros ds r.
  - by intros [= <- <-].
  - destruct (is_digit c); [|by intros [= <- <-]].
    destruct (take_digits s) as [ds' r'] eqn:E. intros [= <- <-]. simpl.
    rewrite <-(IH ds' r' eq_refl). lia.
Qed.

Lemma strip_prefix_length (w s r : string) :
  strip_prefix w s = Some r → String.length r + String.length w = String.length s.
Proof.
  revert s. induction w as [|a w IH]; intros [|b s]; simpl.
  - intros [= <-]. done.
  - intros [= <-]. simpl. lia.
  - done.
  - case_bool_decide; [|done]. intros ?%IH. lia.
Qed.

Lemma cons_fst_Some (c : ascii) (o : option (string * string)) (x r : string) :
  cons_fst c o = Some (x, r) → ∃ x', o = Some (x', r) ∧ x = String c x'.
Proof. destruct o as [[x' r']|]; simpl; [intros [= <- <-]; eauto|done]. Qed.

Lemma lex_int_length (s i r : string) :
  lex_int s = Some (i, r) → String.length r < String.length s.
Proof.
  destruct s as [|c s]; simpl; [done|].
  case_bool_decide; [intros [= _ <-]; lia|].
  destruct (is_digit c); [|done].
  destruct (take_digits s) as [ds r'] eqn:E. intros [= _ <-].
  apply take_digits_length in E. lia.
Qed.

Lemma lex_frac_length (s f r : string) :
  lex_frac s = Some (f, r) → String.length r ≤ String.length s.
Proof.
  destruct s as [|c s]; simpl; [by intros [= _ <-]|].
  case_bool_decide; [|intros [= _ <-]; simpl; lia].
  destruct (take_digits s) as [[|d ds] r'] eqn:E; [done|]. intros [= _ <-].
  apply take_digits_length in E. simpl in E. lia.
Qed.

Lemma lex_exp_length (s x r : string) :
  lex_exp s = Some (x, r) → String.length r ≤ String.length s.
Proof.
  destruct s as [|c s]; simpl; [by intros [= _ <-]|].
  destruct (_ || _); [|intros [= _ <-]; simpl; lia].
  destruct (match s with String d r => _ | EmptyString => _ end) as [sg s''] eqn:Es.
  assert (String.length s'' ≤ String.length s) as Hs.
  { destruct s as [|d s]; simpl in Es; [by injection Es as <- <-|].
    destruct (_ || _); injection Es as <- <-; simpl; lia. }
  destruct (take_digits s'') as [[|d ds] r'] eqn:E; [done|]. intros [= _ <-].
  apply take_digits_length in E. simpl in *. lia.
Qed.

Lemma lex_number_length (s x r : string) :
  lex_number s = Some (x, r) → String.length r < String.length s.
Proof.
  unfold lex_number.
  destruct (match s with String c r => _ | EmptyString => _ end) as [sg s1] eqn:Es.
  assert (String.length s1 ≤ String.length s) as Hs.
  { destruct s as [|c s]; simpl in Es; [by injection Es as <- <-|].
    case_bool_decide; injection Es as <- <-; simpl; lia. }
  destruct (lex_int s1) as [[i r1]|] eqn:E1; [|done].
  destruct (lex_frac r1) as [[f r2]|] eqn:E2; [|done].
  destruct (lex_exp r2) as [[e r3]|] eqn:E3; [|done]. intros [= _ <-].
  apply lex_int_length in E1. apply lex_frac_length in E2. apply lex_exp_length in E3. lia.
Qed.

Lemma lex_chars_length (s x r : string) :
  lex_chars s = Some (x, r) → String.length r < String.length s.
Proof.
  remember (String.length s) as n eqn:Hn. revert s x r Hn.
  induction n as [n IH] using lt_wf_ind. intros [|c s] x r Hn; simpl in *; [done|].
  assert (∀ t x', String.length t < n → lex_chars t = Some (x', r) → String.length r < n)
    as IH' by (intros t x' Ht Hx; eapply IH in Hx; [..|done|reflexivity]; lia).
  case_bool_decide; [intros [= _ <-]; lia|].
  case_bool_decide.
  - destruct s as [|e s]; [done|].
    case_bool_decide.
    + destruct s as [|h1 [|h2 [|h3 [|h4 s]]]]; try done.
      destruct (hex_val h1), (hex_val h2), (hex_val h3), (hex_val h4); try done.
      destruct (_ <? 256); [|done].
      intros (x' & Hx & _)%cons_fst_Some. apply (IH' s x'); [simpl in *; lia|done].
    + destruct (json_unescape e); [|done].
      intros (x' & Hx & _)%cons_fst_Some. apply (IH' s x'); [simpl in *; lia|done].
  - destruct (_ <? 32); [done|].
    intros (x' & Hx & _)%cons_fst_Some. apply (IH' s x'); [lia|done].
Qed.

Lemma parse_value_S (n : nat) (s : string) :
  parse_value (S n) s = value_step (parse_items n) (parse_fields n) s.
Proof. reflexivity. Qed.

Lemma parse_items_S (n : nat) (acc : list jvalue) (s : string) :
  parse_items (S n) acc s = items_step (parse_value n) (parse_items n) acc s.
Proof. reflexivity. Qed.

Lemma parse_fields_S (n : nat) (acc : list (string * jvalue)) (s : string) :
  parse_fields (S n) acc s = fields_step (parse_value n) (parse_fields n) acc s.
Proof. reflexivity. Qed.

(** ** The value parsers consume their input *)

Lemma value_step_length (items : items_parser) (fields : fields_parser) :
  (∀ acc, shrinks (items acc)) → (∀ acc, shrinks (fields acc)) →
  shrinks (value_step items fields).
Proof.
  intros Hi Hf s x r. unfold value_step.
  pose proof (skip_ws_length s) as Hs.
  destruct (skip_ws s) as [|c t]; [done|]. simpl in Hs.
  pose proof (skip_ws_length t) as Ht.
  case_bool_decide; [|case_bool_decide].
  - destruct (skip_ws t) as [|c' t']; [done|]. simpl in Ht.
    case_bool_decide; [intros [= _ <-]; lia|].
    intros ([l r'] & E & [= _ <-])%fmap_Some. apply Hf in E. simpl. lia.
  - destruct (skip_ws t) as [|c' t']; [done|]. simpl in Ht.
    case_bool_decide; [intros [= _ <-]; lia|].
    intros ([l r'] & E & [= _ <-])%fmap_Some. apply Hi in E. simpl. lia.
  - repeat case_bool_decide.
    all: first [intros ([l r'] & E & [= _ <-])%fmap_Some | intros (r' & E & [= _ <-])%fmap_Some].
    all: first [apply lex_chars_length in E | apply strip_prefix_length in E
               | apply lex_number_length in E]; simpl in *; lia.
Qed.

Lemma items_step_length (value : string → option (jvalue * string)) (items : items_parser) :
  shrinks value → (∀ acc, shrinks (items acc)) → ∀ acc, shrinks (items_step value items acc).
Proof.
  intros Hv Hi acc s x r. unfold items_step.
  destruct (value s) as [[v r1]|] eqn:E; [|done]. apply Hv in E.
  pose proof (skip_ws_length r1). destruct (skip_ws r1) as [|c r2]; [done|]. simpl in *.
  case_bool_decide; [intros ?%Hi; lia|]. case_bool_decide; [intros [= _ <-]; lia|done].
Qed.

Lemma fields_step_length (value : string → option (jvalue * string)) (fields : fields_parser) :
  shrinks value → (∀ acc, shrinks (fields acc)) → ∀ acc, shrinks (fields_step value fields acc).
Proof.
  intros Hv Hf acc s x r. unfold fields_step.
  pose proof (skip_ws_length s). destruct (skip_ws s) as [|q r0]; [done|].
  case_bool_decide; [|done].
  destruct (lex_chars r0) as [[k r1]|] eqn:E1; [|done]. apply lex_chars_length in E1.
  pose proof (skip_ws_length r1). destruct (skip_ws r1) as [|c r2]; [done|].
  case_bool_decide; [|done].
  destruct (value r2) as [[v r3]|] eqn:E3; [|done]. apply Hv in E3.
  pose proof (skip_ws_length r3). destruct (skip_ws r3) as [|c' r4]; [done|]. simpl in *.
  case_bool_decide; [intros ?%Hf; lia|]. case_bool_decide; [intros [= _ <-]; lia|done].
Qed.

Lemma parse_length (n : nat) :
  shrinks (parse_value n) ∧ (∀ acc, shrinks (parse_items n acc)) ∧
  (∀ acc, shrinks (parse_fields n acc)).
Proof.
  induction n as [|n (Hv & Hi & Hf)]; [split_and!; done|].
  split_and!; [apply value_step_length|apply items_step_length|apply fields_step_length]; done.
Qed.

(** ** Enough fuel *)

Lemma value_step_ext (i1 i2 : items_parser) (f1 f2 : fields_parser) (s : string) :
  (∀ acc t, String.length t < String.length s → i1 acc t = i2 acc t) →
  (∀ acc t, String.length t < String.length s → f1 acc t = f2 acc t) →
  value_step i1 f1 s = value_step i2 f2 s.
Proof.
  intros Hi Hf. unfold value_step.
  pose proof (skip_ws_length s) as Hs.
  destruct (skip_ws s) as [|c t]; [done|]. simpl in Hs.
  by rewrite Hi, Hf by lia.
Qed.

Lemma items_step_ext (v1 v2 : string → option (jvalue * string)) (i1 i2 : items_parser)
    (acc : list jvalue) (s : string) :
  (∀ t, String.length t ≤ String.length s → v1 t = v2 t) → shrinks v2 →
  (∀ acc t, String.length t < String.length s → i1 acc t = i2 acc t) →
  items_step v1 i1 acc s = items_step v2 i2 acc s.
Proof.
  intros Hv Hl Hi. unfold items_step. rewrite Hv by lia.
  destruct (v2 s) as [[v r]|] eqn:E; [|done]. apply Hl in E.
  pose proof (skip_ws_length r). destruct (skip_ws r) as [|c r']; [done|]. simpl in *.
  by rewrite Hi by lia.
Qed.

Lemma fields_step_ext (v1 v2 : string → option (jvalue * string)) (f1 f2 : fields_parser)
    (acc : list (string * jvalue)) (s : string) :
  (∀ t, String.length t < String.length s → v1 t = v2 t) → shrinks v2 →
  (∀ acc t, String.length t < String.length s → f1 acc t = f2 acc t) →
  fields_step v1 f1 acc s = fields_step v2 f2 acc s.
Proof.
  intros Hv Hl Hf. unfold fields_step.
  pose proof (skip_ws_length s). destruct (skip_ws s) as [|q r0]; [done|].
  case_bool_decide; [|done].
  destruct (lex_chars r0) as [[k r1]|] eqn:E1; [|done]. apply lex_chars_length in E1.
  pose proof (skip_ws_length r1). destruct (skip_ws r1) as [|c r2]; [done|].
  case_bool_decide; [|done]. simpl in *. rewrite Hv by lia.
  destruct (v2 r2) as [[v r3]|] eqn:E3; [|done]. apply Hl in E3.
  pose proof (skip_ws_length r3). destruct (skip_ws r3) as [|c' r4]; [done|]. simpl in *.
  by rewrite Hf by lia.
Qed.

(** One more unit of fuel changes nothing once the fuel is twice the
    length of the input (plus one or two). *)
Lemma parse_fuel_succ (n : nat) :
  (∀ s, 2 * String.length s + 1 ≤ n → parse_value (S n) s = parse_value n s) ∧
  (∀ acc s, 2 * String.length s + 2 ≤ n → parse_items (S n) acc s = parse_items n acc s) ∧
  (∀ acc s, 2 * String.length s + 2 ≤ n → parse_fields (S n) acc s = parse_fields n acc s).
Proof.
  induction n as [|n (IHv & IHi & IHf)]; [split_and!; intros; lia|].
  destruct (parse_length n) as (Lv & _ & _).
  split_and!; intros.
  - apply value_step_ext; intros; [apply IHi|apply IHf]; lia.
  - apply items_step_ext; [intros; apply IHv; lia|exact Lv|intros; apply IHi; lia].
  - apply fields_step_ext; [intros; apply IHv; lia|exact Lv|intros; apply IHf; lia].
Qed.

(** [json_fuel] is enough: with any more fuel the parser gives the same
    answer, so [JSON_parse] never fails for want of fuel. *)
Theorem parse_value_fuel_enough (s : string) (n : nat) :
  json_fuel s ≤ n → parse_value n s = parse_value (json_fuel s) s.
Proof.
  induction 1 as [|n Hn IH]; [done|]. rewrite <-IH.
  apply parse_fuel_succ. unfold json_fuel in Hn. lia.
Qed.

(** ** [JSON.parse] inverts [JSON.stringify] *)

Lemma lex_chars_escape_char (c : ascii) (t : string) :
  lex_chars (json_escape_char c +:+ t) = cons_fst c (lex_chars t).
Proof. destruct c as [[] [] [] [] [] [] [] []]; reflexivity. Qed.

Lemma lex_chars_escape (s r : string) :
  lex_chars (json_escape s +:+ String dquote r) = Some (s, r).
Proof.
  induction s as [|c s IH]; [reflexivity|]. simpl json_escape.
  by rewrite <-append_assoc, lex_chars_escape_char, IH.
Qed.

Lemma json_quote_app (s r : string) :
  json_quote s +:+ r = String dquote (json_escape s +:+ String dquote r).
Proof. unfold json_quote. by rewrite append_cons, <-append_assoc, append_cons, append_nil_l. Qed.

Lemma skip_ws_quote (s r : string) :
  skip_ws (json_quote s +:+ r) = String dquote (json_escape s +:+ String dquote r).
Proof. by rewrite json_quote_app. Qed.

(** An object that is not empty: its members are parsed from just
    after the brace. *)
Lemma value_step_object (items : items_parser) (fields : fields_parser) (s : string) :
  (∃ c t, skip_ws s = String c t ∧ c ≠ "}"%char) →
  value_step items fields (String "{" s) = (λ p, (JObj p.1, p.2)) <$> fields [] s.
Proof.
  intros (c & t & Hs & Hc). unfold value_step. simpl. rewrite Hs.
  by rewrite bool_decide_false by done.
Qed.

Lemma value_step_quote (items : items_parser) (fields : fields_parser) (s r : string) :
  value_step items fields (json_quote s +:+ r) = Some (JStr s, r).
Proof. rewrite json_quote_app. unfold value_step. simpl. by rewrite lex_chars_escape. Qed.

(** A member [key:value] with a string value, then a comma or the
    closing brace. *)
Lemma fields_step_member (value : string → option (jvalue * string)) (fields : fields_parser)
    (acc : list (string * jvalue)) (k s r : string) (last : bool) :
  (∀ r', value (json_quote s +:+ r') = Some (JStr s, r')) →
  fields_step value fields acc
    (json_quote k +:+ ":" +:+ json_quote s +:+ (if last then "}" else ",") +:+ r) =
  if last then Some (acc ++ [(k, JStr s)], r) else fields (acc ++ [(k, JStr s)]) r.
Proof.
  intros Hv. rewrite json_quote_app. unfold fields_step. simpl.
  rewrite lex_chars_escape, append_cons, append_nil_l. simpl.
  rewrite Hv. destruct last; rewrite append_cons, append_nil_l; reflexivity.
Qed.
