(* ===== verification/Router.v ===== *)
(** * The pattern router (utils/build-route-path.js and
      utils/extract-query-params.js, modelled from spec.md section 4.1)

    [buildRoutePath(path)] turns a template such as [/tasks/:id/complete]
    into the regular expression
    [^/tasks/(?<id>[^/]+)/complete(?<query>\?( .* ))?$]: literal characters
    match themselves, a parameter captures a non-empty run of characters
    other than ['/'], and an optional trailing group captures the query
    string with its leading ['?'].  A template is malformed when a [':']
    is not followed by a letter or when two groups would have the same
    name (a parameter named [query] clashes with the query group); the
    [RegExp] constructor then throws when routes.js is loaded.

    [exec] follows the regular expression's backtracking order: a
    parameter tries its longest candidate first, and the first complete
    match wins.  [instance] is the declarative reading of the same
    pattern, and the two are related by soundness and completeness
    theorems. *)

From stdpp Require Import base list gmap strings.
From Stdlib Require Import Ascii.
From S2P Require Import Prelude.

(** ** Templates and their compilation *)

Inductive piece :=
  | PLit (c : ascii)
  | PParam (name : string).

Definition template := list piece.

#[export] Instance piece_eq_dec : EqDecision piece.
Proof. solve_decision. Defined.

(** [[a-zA-Z]], the characters of a parameter name in [/:([a-zA-Z]+)/g]. *)
Definition is_letter (c : ascii) : bool :=
  let n := Ascii.nat_of_ascii c in
  (65 <=? n) && (n <=? 90) || (97 <=? n) && (n <=? 122).

(** One left-to-right scan of the template; [cur] is the name being read
    after a [':'] (reversed), [None] outside a parameter. *)
Fixpoint scan (l : list ascii) (cur : option (list ascii)) : option template :=
  match l, cur with
  | [], None => Some []
  | [], Some [] => None
  | [], Some n => Some [PParam (String.string_of_list_ascii (rev n))]
  | c :: l', None =>
      if decide (c = ":"%char) then scan l' (Some [])
      else (PLit c ::.) <$> scan l' None
  | c :: l', Some n =>
      if is_letter c then scan l' (Some (c :: n))
      else match n with
           | [] => None
           | _ =>
               let p := PParam (String.string_of_list_ascii (rev n)) in
               if decide (c = ":"%char) then (p ::.) <$> scan l' (Some [])
               else (λ t, p :: PLit c :: t) <$> scan l' None
           end
  end.

Definition param_names (t : template) : list string :=
  omap (λ p, match p with PParam x => Some x | PLit _ => None end) t.

(** Group names must be distinct, and distinct from [query]. *)
Definition names_ok (t : template) : bool :=
  bool_decide (NoDup ("query" :: param_names t)).

(** [buildRoutePath]: [None] is the [SyntaxError] thrown at start-up. *)
Definition compile (path : string) : option template :=
  t ← scan (String.list_ascii_of_string path) None;
  if names_ok t then Some t else None.

(** ** The matcher *)

Definition slash : ascii := "/"%char.
Definition qmark : ascii := "?"%char.

(** The candidates of [[^/]+] at the start of [s], longest first. *)
Fixpoint param_splits (s : list ascii) : list (list ascii * list ascii) :=
  match s with
  | [] => []
  | c :: s' =>
      if decide (c = slash) then []
      else ((λ '(v, r), (c :: v, r)) <$> param_splits s') ++ [([c], s')]
  end.

Abbreviation bindings := (list (string * string)).

(** All ways to match the template against a prefix of [s], in the
    order in which the regular expression tries them; each comes with
    the parameters it binds and the unconsumed rest. *)
Fixpoint match_from (t : template) (s : list ascii) : list (bindings * list ascii) :=
  match t with
  | [] => [([], s)]
  | PLit c :: t' =>
      match s with
      | c' :: s' => if decide (c = c') then match_from t' s' else []
      | [] => []
      end
  | PParam x :: t' =>
      param_splits s ≫= λ '(v, r),
        (λ '(bs, r'), ((x, String.string_of_list_ascii v) :: bs, r')) <$> match_from t' r
  end.

(** [.] does not match a line terminator. *)
Definition is_line_terminator (c : ascii) : bool :=
  bool_decide (c = "010"%char) || bool_decide (c = "013"%char).

(** [(?<query>\?( .* ))?$] on the rest: [Some None] when the group does not
    take part, [Some (Some q)] when it captures [q], [None] on failure. *)
Definition query_tail (r : list ascii) : option (option string) :=
  match r with
  | [] => Some None
  | c :: q =>
      if bool_decide (c = qmark) && forallb (λ d, negb (is_line_terminator d)) q
      then Some (Some (String.string_of_list_ascii r))
      else None
  end.

(** One candidate of [match_from] followed by the query group. *)
Definition tail_step (x : bindings * list ascii) : option (bindings * option string) :=
  let '(bs, r) := x in (λ q, (bs, q)) <$> query_tail r.

(** [RegExp.prototype.exec]: the first match in backtracking order. *)
Definition exec (t : template) (path : string) : option (bindings * option string) :=
  head (omap (λ '(bs, r), (λ q, (bs, q)) <$> query_tail r)
             (match_from t (String.list_ascii_of_string path))).

(** [RegExp.prototype.test]. *)
Definition test (t : template) (path : string) : bool :=
  bool_decide (is_Some (exec t path)).

(** ** The declarative reading of a template *)

Inductive pmatch : template → list ascii → bindings → list ascii → Prop :=
  | pm_nil s : pmatch [] s [] s
  | pm_lit c t s bs r :
      pmatch t s bs r → pmatch (PLit c :: t) (c :: s) bs r
  | pm_param x t v s bs r :
      v ≠ [] → slash ∉ v → pmatch t s bs r →
      pmatch (PParam x :: t) (v ++ s) ((x, String.string_of_list_ascii v) :: bs) r.

(** [path] is the template with the values [bs] substituted, followed by
    nothing ([q = None]) or by a query string [q] starting with ['?']. *)
Definition instance (t : template) (path : string) (bs : bindings) (q : option string) : Prop :=
  ∃ r, pmatch t (String.list_ascii_of_string path) bs r ∧ query_tail r = Some q.

(** ** Query strings (utils/extract-query-params.js, spec-modelled) *)

(** The leading ['?'] is dropped, pairs are separated by ['&'], a key
    from its value by ['=']; a key without ['='] maps to [undefined]
    ([None]); a later pair overwrites an earlier one.  Values are not
    percent-decoded. *)
Definition extract_query_params (query : string) : gmap string (option string) :=
  foldl (λ acc param,
           match js_split "="%char param with
           | k :: v :: _ => <[k := Some v]> acc
           | [k] => <[k := None]> acc
           | [] => acc
           end)
        ∅ (js_split "&"%char (String.substring 1 (String.length query) query)).

(** ** Concrete inputs for the examples *)

Definition ex_item_template : template := default [] (compile "/tasks/:id").
Definition ex_complete_template : template := default [] (compile "/tasks/:id/complete").

(** ** Correctness of the matcher *)

Lemma param_splits_spec (s v r : list ascii) :
  (v, r) ∈ param_splits s ↔ v ≠ [] ∧ slash ∉ v ∧ s = v ++ r.
Proof.
  revert v r. induction s as [|c s IH]; intros v r; simpl.
  - split; [by intros ?%elem_of_nil|]. intros (Hv & _ & Hs).
    destruct v; [done|discriminate].
  - case_decide as Hc.
    + split; [by intros ?%elem_of_nil|]. intros (Hv & Hsl & Hs).
      destruct v as [|d v]; [done|]. simplify_eq. set_solver.
    + rewrite elem_of_app, list_elem_of_singleton, list_elem_of_fmap. split.
      * intros [([v' r'] & Heq & Hin)|Heq]; simplify_eq.
        -- apply IH in Hin as (? & ? & ->). split; [done|]. set_solver.
        -- split; [done|]. set_solver.
      * intros (Hv & Hsl & Hs). destruct v as [|d v]; [done|]. simplify_eq/=.
        destruct v as [|e v]; [by right|]. left.
        exists (e :: v, r). split; [done|]. apply IH. set_solver.
Qed.

(** [match_from] enumerates exactly the matches of the template against
    a prefix of the input. *)
Lemma match_from_spec (t : template) (s : list ascii) (bs : bindings) (r : list ascii) :
  (bs, r) ∈ match_from t s ↔ pmatch t s bs r.
Proof.
  revert s bs r. induction t as [|[c|x] t IH]; intros s bs r; simpl.
  - rewrite list_elem_of_singleton. split.
    + intros [= -> ->]. constructor.
    + by inversion 1.
  - destruct s as [|c' s].
    + split; [by intros ?%elem_of_nil|]. by inversion 1.
    + case_decide; subst.
      * rewrite IH. split; [by constructor|]. by inversion 1.
      * split; [by intros ?%elem_of_nil|]. inversion 1; congruence.
  - rewrite list_elem_of_bind. split.
    + intros ([v r0] & Hin & Hsplit). apply list_elem_of_fmap in Hin as ([bs' r'] & Heq & Hin).
      simplify_eq. apply param_splits_spec in Hsplit as (? & ? & ->).
      constructor; [done..|]. by apply IH.
    + inversion 1; subst. exists (v, s0). split.
      * apply list_elem_of_fmap. exists (bs0, r). split; [done|]. by apply IH.
      * by apply param_splits_spec.
Qed.

Lemma omap_head_Some {A B} (f : A → option B) (l : list A) (b : B) :
  head (omap f l) = Some b → ∃ a, a ∈ l ∧ f a = Some b.
Proof.
  induction l as [|a l IH]; simpl; [done|].
  destruct (f a) eqn:E; simpl.
  - intros [= <-]. exists a. split; [left|done].
  - intros (a' & ? & ?)%IH. exists a'. split; [by right|done].
Qed.

Lemma omap_head_is_Some {A B} (f : A → option B) (l : list A) (a : A) :
  a ∈ l → is_Some (f a) → is_Some (head (omap f l)).
Proof.
  induction l as [|a' l IH]; simpl; [by intros ?%elem_of_nil|].
  intros [->|Hin]%elem_of_cons Hf.
  - destruct Hf as [b ->]. by eexists.
  - destruct (f a'); [by eexists|]. by apply IH.
Qed.

Lemma exec_unfold (t : template) (path : string) :
  exec t path = head (omap tail_step (match_from t (String.list_ascii_of_string path))).
Proof. reflexivity. Qed.

(** C20: [exec] is sound: whatever it returns is a decomposition of the
    path as an instance of the template followed by the query group. *)
Theorem exec_sound (t : template) (path : string) (bs : bindings) (q : option string) :
  exec t path = Some (bs, q) → instance t path bs q.
Proof.
  rewrite exec_unfold. intros ([bs' r] & Hin & Hq)%omap_head_Some.
  simpl in Hq. destruct (query_tail r) eqn:E; simplify_eq/=.
  exists r. split; [by apply match_from_spec|done].
Qed.

(** C21: [exec] is complete: if the path is an instance of the template
    at all, [exec] finds a match (possibly a different decomposition,
    the first one in the regular expression's order). *)
Theorem exec_complete (t : template) (path : string) (bs : bindings) (q : option string) :
  instance t path bs q → ∃ bs' q', exec t path = Some (bs', q').
Proof.
  intros (r & Hm & Hq). rewrite exec_unfold.
  destruct (omap_head_is_Some tail_step (match_from t (String.list_ascii_of_string path)) (bs, r)) as [[bs' q'] Hs].
  - by apply match_from_spec.
  - simpl. rewrite Hq. by eexists.
  - eauto.
Qed.

(** [test] accepts exactly the instances of the template. *)
Lemma test_spec (t : template) (path : string) :
  test t path = true ↔ ∃ bs q, instance t path bs q.
Proof.
  unfold test. rewrite bool_decide_eq_true. split.
  - intros [[bs q] Hs]. exists bs, q. by apply exec_sound.
  - intros (bs & q & Hi). destruct (exec_complete t path bs q Hi) as (bs' & q' & ->).
    by eexists.
Qed.

(** Malformed templates are refused when routes.js loads: a [':']
    not followed by a letter, a repeated parameter name, and a
    parameter named like the query group. *)
Theorem compile_malformed :
  compile "/tasks/:" = None ∧ compile "/tasks/:/x" = None ∧
  compile "/a/:id/b/:id" = None ∧ compile "/tasks/:query" = None.
Proof. split_and!; vm_compute; reflexivity. Qed.

Lemma match_from_lits (p s : list ascii) (t : template) :
  match_from ((PLit <$> p) ++ t) (p ++ s) = match_from t s.
Proof. induction p as [|c p IH]; simpl; [done|]. by rewrite decide_True. Qed.

(** The first candidate of [[^/]+] is the whole of a non-empty string
    without ['/']. *)
Lemma param_splits_whole (l : list ascii) :
  l ≠ [] → slash ∉ l → ∃ rest, param_splits l = (l, []) :: rest.
Proof.
  induction l as [|c l IH]; intros Hne Hsl; [done|]. simpl.
  rewrite decide_False by set_solver.
  destruct l as [|c' l]; [by eexists|].
  destruct IH as [rest ->]; [done|set_solver|]. by eexists.
Qed.

Lemma ex_item_template_eq :
  ex_item_template = (PLit <$> String.list_ascii_of_string "/tasks/") ++ [PParam "id"].
Proof. vm_compute. reflexivity. Qed.

(** A parameter takes every character but ['/'], longest first: after
    [/tasks/] the whole rest of the URL is the identifier, a query
    string included, and no query is reported. *)
Theorem exec_final_param (v : string) :
  v ≠ "" → slash ∉ String.list_ascii_of_string v →
  exec ex_item_template ("/tasks/" +:+ v) = Some ([("id", v)], None).
Proof.
  intros Hne Hsl. rewrite exec_unfold, ex_item_template_eq, list_ascii_app, match_from_lits.
  destruct (param_splits_whole (String.list_ascii_of_string v)) as [rest Hr]; [|done|].
  { by destruct v. }
  simpl match_from. rewrite Hr. simpl.
  by rewrite String.string_of_list_ascii_of_string.
Qed.

(** ** Examples on concrete inputs *)

Lemma exec_sound_witness :
  exec ex_complete_template "/tasks/abc/complete?x=1" = Some ([("id", "abc")], Some "?x=1") ∧
  instance ex_complete_template "/tasks/abc/complete?x=1" [("id", "abc")] (Some "?x=1").
Proof. split; [vm_compute; reflexivity|]. apply exec_sound. vm_compute. reflexivity. Defined.

Lemma exec_complete_witness :
  instance ex_item_template "/tasks/abc" [("id", "abc")] None ∧
  ∃ bs q, exec ex_item_template "/tasks/abc" = Some (bs, q).
Proof.
  assert (instance ex_item_template "/tasks/abc" [("id", "abc")] None) as Hi.
  { exists []. split; [|reflexivity]. apply match_from_spec. vm_compute. left. }
  split; [exact Hi|]. exact (exec_complete _ _ _ _ Hi).
Defined.
