(* ===== verification/Store.v ===== *)
(** * The datastore contract (spec.md section 4.2)

    The handlers of routes.js use the datastore through five calls:
    [select], [selectFirstOrDefault], [insert], [update] and [delete].
    This file states what the handlers may assume of them.  A table is a
    list of rows in insertion order; a row is a JavaScript object with
    string fields, modelled as [gmap string string].  The contract is the
    type class [Datastore] (the operations, and [ds_tables], the tables
    a datastore currently holds) with [DatastoreLaws], which states each
    operation as a pure function on one table: [tbl_select] (substring
    filter, all fields must match), [tbl_first] (exact filter, first
    match), [tbl_update] (merge into the first row with the identifier)
    and [tbl_delete] (remove the first row with the identifier).
    Database.v implements the contract; Handlers.v is proved against it. *)

From stdpp Require Import base list gmap strings.
From S2P Require Import Prelude.

Abbreviation row := (gmap string string).
Abbreviation row_filter := (gmap string string).
Abbreviation tables := (gmap string (list row)).

(** ** The table operations of the contract *)

(** [select]'s filter: every filter field is a substring of the row's
    field of that name (a row without the field does not match). *)
Definition row_search (f : row_filter) (r : row) : bool :=
  forallb (λ kv, match r !! kv.1 with
                 | Some rv => js_includes rv kv.2
                 | None => false
                 end) (map_to_list f).

(** [selectFirstOrDefault]'s filter: every filter field is equal. *)
Definition row_equals (f : row_filter) (r : row) : bool := bool_decide (f ⊆ r).

Definition tbl_select (rows : list row) (search : option row_filter) : list row :=
  match search with
  | None => rows
  | Some f => filter (λ r, row_search f r = true) rows
  end.

Definition tbl_first (rows : list row) (f : row_filter) : option row :=
  List.find (row_equals f) rows.

Definition has_id (id : string) (r : row) : Prop := r !! "id" = Some id.

#[export] Instance has_id_dec id r : Decision (has_id id r).
Proof. unfold has_id. apply _. Defined.

Definition tbl_update (rows : list row) (id : string) (data : row) : list row :=
  match list_find (has_id id) rows with
  | Some (i, r) => <[i := data ∪ r]> rows
  | None => rows
  end.

Definition tbl_delete (rows : list row) (id : string) : list row :=
  match list_find (has_id id) rows with
  | Some (i, _) => delete i rows
  | None => rows
  end.

(** ** The contract *)

Class Datastore (D : Type) := {
  ds_tables : D → tables;
  ds_select : D → string → option row_filter → list row;
  ds_first : D → string → row_filter → option row;
  ds_insert : D → string → row → D;
  ds_update : D → string → string → row → D;
  ds_delete : D → string → string → D;
}.

(** A missing table reads as empty ([this.#database[table] ?? []]). *)
Definition table_of `{Datastore D} (d : D) (t : string) : list row :=
  default [] (ds_tables d !! t).

Class DatastoreLaws (D : Type) `{Datastore D} := {
  ds_select_spec d t s : ds_select d t s = tbl_select (table_of d t) s;
  ds_first_spec d t f : ds_first d t f = tbl_first (table_of d t) f;
  ds_insert_spec d t r :
    ds_tables (ds_insert d t r) = <[t := table_of d t ++ [r]]> (ds_tables d);
  ds_update_spec d t id data :
    ds_tables (ds_update d t id data) = alter (λ rows, tbl_update rows id data) t (ds_tables d);
  ds_delete_spec d t id :
    ds_tables (ds_delete d t id) = alter (λ rows, tbl_delete rows id) t (ds_tables d);
}.

(** ** Lemmas on the table operations *)

Definition id_filter (id : string) : row_filter := {["id" := id]}.

(** The rows' identifiers, in order, and their uniqueness. *)
Definition row_ids (rows : list row) : list string := omap (λ r, r !! "id") rows.
Definition ids_unique (rows : list row) : Prop := NoDup (row_ids rows).

(** The first row carrying an identifier, as the handlers look it up. *)
Definition find_id (rows : list row) (id : string) : option row :=
  tbl_first rows (id_filter id).

Arguments find_id : simpl never.

Lemma row_equals_id (id : string) (r : row) :
  row_equals (id_filter id) r = true ↔ has_id id r.
Proof.
  unfold row_equals, id_filter, has_id. rewrite bool_decide_eq_true.
  apply map_singleton_subseteq_l.
Qed.

Lemma find_id_nil (id : string) : find_id [] id = None.
Proof. reflexivity. Qed.

Lemma find_id_cons (r : row) (rows : list row) (id : string) :
  find_id (r :: rows) id = if decide (has_id id r) then Some r else find_id rows id.
Proof.
  unfold find_id, tbl_first. simpl. destruct (row_equals _ r) eqn:E.
  - apply row_equals_id in E. by rewrite decide_True.
  - rewrite decide_False; [done|]. by rewrite <-row_equals_id, E.
Qed.

Lemma tbl_update_nil (id : string) (data : row) : tbl_update [] id data = [].
Proof. reflexivity. Qed.

Lemma tbl_update_cons (r : row) (rows : list row) (id : string) (data : row) :
  tbl_update (r :: rows) id data =
  if decide (has_id id r) then (data ∪ r) :: rows else r :: tbl_update rows id data.
Proof.
  unfold tbl_update. simpl. case_decide; [done|].
  by destruct (list_find (has_id id) rows) as [[i r']|].
Qed.

Lemma tbl_delete_nil (id : string) : tbl_delete [] id = [].
Proof. reflexivity. Qed.

Lemma tbl_delete_cons (r : row) (rows : list row) (id : string) :
  tbl_delete (r :: rows) id =
  if decide (has_id id r) then rows else r :: tbl_delete rows id.
Proof.
  unfold tbl_delete. simpl. case_decide; [done|].
  by destruct (list_find (has_id id) rows) as [[i r']|].
Qed.

Lemma row_ids_nil : row_ids [] = [].
Proof. reflexivity. Qed.

Lemma row_ids_cons (r : row) (rows : list row) :
  row_ids (r :: rows) =
  match r !! "id" with Some i => i :: row_ids rows | None => row_ids rows end.
Proof. reflexivity. Qed.

#[export] Hint Rewrite find_id_nil find_id_cons tbl_update_nil tbl_update_cons
  tbl_delete_nil tbl_delete_cons row_ids_nil row_ids_cons : tasks.

(** A merge that does not carry an [id] keeps the row's identifier. *)
Lemma has_id_union (data r : row) (id : string) :
  data !! "id" = None → has_id id (data ∪ r) ↔ has_id id r.
Proof. unfold has_id. intros Hd. by rewrite lookup_union_r. Qed.

Lemma find_id_update_same (rows : list row) (id : string) (data : row) :
  data !! "id" = None →
  find_id (tbl_update rows id data) id = (λ r, data ∪ r) <$> find_id rows id.
Proof.
  intros Hd. induction rows as [|r rows IH]; [done|].
  autorewrite with tasks. case_decide as Hr.
  - autorewrite with tasks. by rewrite decide_True by (by apply has_id_union).
  - autorewrite with tasks. by rewrite decide_False.
Qed.

Lemma find_id_update_other (rows : list row) (id id' : string) (data : row) :
  data !! "id" = None → id ≠ id' →
  find_id (tbl_update rows id data) id' = find_id rows id'.
Proof.
  intros Hd Hne. induction rows as [|r rows IH]; [done|].
  autorewrite with tasks. case_decide as Hr; autorewrite with tasks.
  - rewrite !decide_False; [done| |].
    + unfold has_id in *. congruence.
    + rewrite has_id_union by done. unfold has_id in *. congruence.
  - by rewrite IH.
Qed.

Lemma find_id_snoc (rows : list row) (r : row) (id : string) :
  find_id (rows ++ [r]) id =
  match find_id rows id with
  | Some r' => Some r'
  | None => if decide (has_id id r) then Some r else None
  end.
Proof.
  induction rows as [|r' rows IH]; cbn [app]; autorewrite with tasks; [done|].
  destruct (decide (has_id id r')); simpl; [done|exact IH].
Qed.

Lemma find_id_delete_other (rows : list row) (id id' : string) :
  id ≠ id' → find_id (tbl_delete rows id) id' = find_id rows id'.
Proof.
  intros Hne. induction rows as [|r rows IH]; [done|].
  autorewrite with tasks. case_decide as Hr; autorewrite with tasks.
  - rewrite decide_False; [done|]. unfold has_id in *. congruence.
  - by rewrite IH.
Qed.

Lemma find_id_Some (rows : list row) (id : string) (r : row) :
  find_id rows id = Some r → r ∈ rows ∧ has_id id r.
Proof.
  induction rows as [|r' rows IH]; autorewrite with tasks; [done|].
  case_decide; [intros [= ->]; split; [left|done]|].
  intros (? & ?)%IH. split; [by right|done].
Qed.

Lemma find_id_None (rows : list row) (id : string) :
  find_id rows id = None ↔ id ∉ row_ids rows.
Proof.
  induction rows as [|r rows IH]; autorewrite with tasks; [set_solver|].
  unfold row_ids in *. simpl. unfold has_id. case_decide as Hr.
  - rewrite Hr. set_solver.
  - rewrite IH. destruct (r !! "id") eqn:E; [|done]. set_solver.
Qed.

(** With unique identifiers, deleting a row leaves none with its identifier. *)
Lemma find_id_delete_same (rows : list row) (id : string) :
  ids_unique rows → find_id (tbl_delete rows id) id = None.
Proof.
  unfold ids_unique. induction rows as [|r rows IH]; [done|].
  autorewrite with tasks. unfold row_ids. simpl. case_decide as Hr.
  - rewrite Hr. intros [Hnin _]%NoDup_cons. by apply find_id_None.
  - autorewrite with tasks. rewrite decide_False by done.
    destruct (r !! "id"); [intros [_ ?]%NoDup_cons|]; by apply IH.
Qed.

(** ** The contract seen one table at a time *)

Section ContractLemmas.
Context `{DatastoreLaws D}.

Lemma table_of_insert (d : D) (t : string) (r : row) :
  table_of (ds_insert d t r) t = table_of d t ++ [r].
Proof. unfold table_of. by rewrite ds_insert_spec, lookup_insert_eq. Qed.

Lemma table_of_update (d : D) (t id : string) (data : row) :
  table_of (ds_update d t id data) t = tbl_update (table_of d t) id data.
Proof.
  unfold table_of. rewrite ds_update_spec, lookup_alter_eq.
  by destruct (ds_tables d !! t); reflexivity.
Qed.

Lemma table_of_delete (d : D) (t id : string) :
  table_of (ds_delete d t id) t = tbl_delete (table_of d t) id.
Proof.
  unfold table_of. rewrite ds_delete_spec, lookup_alter_eq.
  by destruct (ds_tables d !! t); reflexivity.
Qed.

(** The other tables are not touched. *)
Lemma tables_insert_other (d : D) (t t' : string) (r : row) :
  t ≠ t' → ds_tables (ds_insert d t r) !! t' = ds_tables d !! t'.
Proof. intros. by rewrite ds_insert_spec, lookup_insert_ne. Qed.

Lemma tables_update_other (d : D) (t t' id : string) (data : row) :
  t ≠ t' → ds_tables (ds_update d t id data) !! t' = ds_tables d !! t'.
Proof. intros. by rewrite ds_update_spec, lookup_alter_ne. Qed.

Lemma tables_delete_other (d : D) (t t' id : string) :
  t ≠ t' → ds_tables (ds_delete d t id) !! t' = ds_tables d !! t'.
Proof. intros. by rewrite ds_delete_spec, lookup_alter_ne. Qed.

Lemma ds_first_id (d : D) (t id : string) :
  ds_first d t (id_filter id) = find_id (table_of d t) id.
Proof. by rewrite ds_first_spec. Qed.
End ContractLemmas.

#[export] Hint Rewrite @table_of_insert @table_of_update @table_of_delete @ds_first_id
  using typeclasses eauto : tasks.

(** ** The substring filter *)

Lemma row_search_spec (f : row_filter) (r : row) :
  row_search f r = true ↔
  map_Forall (λ k v, ∃ rv, r !! k = Some rv ∧ js_includes rv v = true) f.
Proof.
  unfold row_search. rewrite forallb_forall, map_Forall_to_list, Forall_forall.
  setoid_rewrite <-list_elem_of_In.
  split; intros Hf [k v] Hin; specialize (Hf _ Hin); simpl in *;
    destruct (r !! k); naive_solver.
Qed.

(** ** Invariants of tables under the operations *)

Lemma tbl_update_Forall (P : row → Prop) (rows : list row) (id : string) (data : row) :
  Forall P rows → (∀ r, r ∈ rows → has_id id r → P (data ∪ r)) →
  Forall P (tbl_update rows id data).
Proof.
  intros Hall Hnew. induction Hall as [|r rows Hr Hall IH]; [done|].
  autorewrite with tasks. case_decide.
  - constructor; [apply Hnew; [left|]|]; done.
  - constructor; [done|]. apply IH. intros r' ? ?. apply Hnew; [by right|done].
Qed.

Lemma row_ids_update (rows : list row) (id : string) (data : row) :
  data !! "id" = None → row_ids (tbl_update rows id data) = row_ids rows.
Proof.
  intros Hd. induction rows as [|r rows IH]; [done|].
  autorewrite with tasks. case_decide; autorewrite with tasks.
  - by rewrite lookup_union_match, Hd.
  - by rewrite IH.
Qed.

Lemma tbl_delete_sublist (rows : list row) (id : string) : tbl_delete rows id `sublist_of` rows.
Proof.
  induction rows as [|r rows IH]; autorewrite with tasks; [done|].
  case_decide; [by apply sublist_cons|by apply sublist_skip].
Qed.

Lemma row_ids_sublist (rows rows' : list row) :
  rows `sublist_of` rows' → row_ids rows `sublist_of` row_ids rows'.
Proof.
  induction 1 as [|r l1 l2 _ IH|r l1 l2 _ IH]; autorewrite with tasks; [done| |].
  - destruct (r !! "id"); [by apply sublist_skip|done].
  - destruct (r !! "id"); [by apply sublist_cons|done].
Qed.

(** Deleting keeps a table's properties and its identifiers unique. *)
Lemma tbl_delete_Forall (P : row → Prop) (rows : list row) (id : string) :
  Forall P rows → Forall P (tbl_delete rows id).
Proof.
  rewrite !Forall_forall. intros Hall r Hr. apply Hall.
  by eapply elem_of_sublist, tbl_delete_sublist.
Qed.

Lemma ids_unique_delete (rows : list row) (id : string) :
  ids_unique rows → ids_unique (tbl_delete rows id).
Proof.
  unfold ids_unique. intros Hu. eapply sublist_NoDup; [exact Hu|].
  apply row_ids_sublist, tbl_delete_sublist.
Qed.

Lemma ids_unique_snoc (rows : list row) (r : row) (id : string) :
  r !! "id" = Some id → id ∉ row_ids rows → ids_unique rows → ids_unique (rows ++ [r]).
Proof.
  unfold ids_unique, row_ids. intros Hr Hfresh Hu. rewrite omap_app. simpl. rewrite Hr.
  apply NoDup_app. split_and!; [done| |by apply NoDup_singleton].
  intros x Hx ->%list_elem_of_singleton. done.
Qed.
