(* ===== verification/Database.v ===== *)
(** * The datastore implementation (database.js, modelled from spec.md 4.2)

    [database.js] is not part of the repository snapshot; this file
    models it from the specification.  The [Database] object holds the
    tables in memory ([#database]) and writes the whole map to its
    backing file after every mutation ([#persist]).  The state [db] has
    both: [db_mem] is the in-memory map and [db_file] the content of the
    backing file (serialisation of the file is outside the model).

    The operations follow spec.md 4.2: [update] of an absent identifier
    is a no-op (nothing is written), [delete] writes the file whether or
    not a row was removed.  The instance [db_laws] shows that this
    implementation satisfies the contract of Store.v, with [db_mem] as
    the abstraction function; [db_restart_roundtrip] is the persistence
    contract: after any sequence of mutations, a restart reloads the same
    tables. *)

From stdpp Require Import base list gmap strings.
From S2P Require Import Prelude Store.

Record db := mk_db {
  db_mem : tables;
  db_file : tables;
}.

(** [#persist()]: the file receives the whole in-memory map. *)
Definition persist (d : db) : db := mk_db (db_mem d) (db_mem d).

(** The constructor: load the file when it exists, else write an empty one. *)
Definition db_load (file : option tables) : db :=
  match file with
  | Some t => mk_db t t
  | None => persist (mk_db ∅ ∅)
  end.

Definition rows_of (d : db) (table : string) : list row :=
  default [] (db_mem d !! table).

Definition select (d : db) (table : string) (search : option row_filter) : list row :=
  tbl_select (rows_of d table) search.

Definition selectFirstOrDefault (d : db) (table : string) (f : row_filter) : option row :=
  tbl_first (rows_of d table) f.

Definition insert (d : db) (table : string) (data : row) : db :=
  persist (mk_db (<[table := rows_of d table ++ [data]]> (db_mem d)) (db_file d)).

Definition update (d : db) (table : string) (id : string) (data : row) : db :=
  match db_mem d !! table with
  | Some rows =>
      match list_find (has_id id) rows with
      | Some _ => persist (mk_db (<[table := tbl_update rows id data]> (db_mem d)) (db_file d))
      | None => d
      end
  | None => d
  end.

Definition delete (d : db) (table : string) (id : string) : db :=
  persist (mk_db (alter (λ rows, tbl_delete rows id) table (db_mem d)) (db_file d)).

#[export] Instance db_datastore : Datastore db := {|
  ds_tables := db_mem;
  ds_select := select;
  ds_first := selectFirstOrDefault;
  ds_insert := insert;
  ds_update := update;
  ds_delete := delete;
|}.

(** The implementation satisfies the contract, [db_mem] being the
    abstraction function (only [update] needs an argument: the no-op
    branches leave the tables as [alter] does). *)
#[export] Instance db_laws : DatastoreLaws db.
Proof.
  split; try reflexivity.
  intros d t id data. simpl. unfold update. rewrite alter_alt.
  destruct (db_mem d !! t) as [rows|] eqn:Ht; [|done].
  unfold tbl_update. destruct (list_find (has_id id) rows) eqn:Hf; [done|].
  by rewrite insert_id.
Qed.

(** ** Persistence *)

(** The backing file holds exactly the in-memory tables. *)
Definition persisted (d : db) : Prop := db_file d = db_mem d.

(** The mutations a process performs on the datastore. *)
Inductive db_op :=
  | OpInsert (table : string) (data : row)
  | OpUpdate (table id : string) (data : row)
  | OpDelete (table id : string).

Definition apply_op (d : db) (o : db_op) : db :=
  match o with
  | OpInsert t r => insert d t r
  | OpUpdate t id data => update d t id data
  | OpDelete t id => delete d t id
  end.

Definition run_ops (d : db) (os : list db_op) : db := foldl apply_op d os.

(** A new process reading the file the previous one left behind. *)
Definition restart (d : db) : db := db_load (Some (db_file d)).

Lemma persist_persisted (d : db) : persisted (persist d).
Proof. reflexivity. Qed.

Lemma db_load_persisted (file : option tables) : persisted (db_load file).
Proof. by destruct file. Qed.

Lemma apply_op_persisted (d : db) (o : db_op) : persisted d → persisted (apply_op d o).
Proof.
  intros Hp. destruct o as [t r|t id data|t id]; simpl; try apply persist_persisted.
  unfold update. destruct (db_mem d !! t); [|done].
  by destruct (list_find _ _).
Qed.

Lemma run_ops_persisted (d : db) (os : list db_op) : persisted d → persisted (run_ops d os).
Proof.
  revert d. induction os as [|o os IH]; intros d Hp; [done|].
  apply IH, apply_op_persisted, Hp.
Qed.

(** The persistence contract: after any sequence of mutations
    starting from a loaded datastore, a restart of the process reloads
    exactly the tables that were in memory. *)
Theorem db_restart_roundtrip (file : option tables) (os : list db_op) :
  db_mem (restart (run_ops (db_load file) os)) = db_mem (run_ops (db_load file) os).
Proof.
  pose proof (run_ops_persisted (db_load file) os (db_load_persisted file)) as Hp.
  unfold restart, persisted in *. simpl. exact Hp.
Qed.

(** The example of spec.md section 8: [select] filters by
    substring, [selectFirstOrDefault] by equality. *)
Theorem select_substring_example :
  let d := insert (insert (db_load None) "tasks" {["title" := "Buy milk"]})
             "tasks" {["title" := "Buy eggs"]} in
  select d "tasks" (Some {["title" := "milk"]}) = [{["title" := "Buy milk"]}] ∧
  length (select d "tasks" (Some {["title" := "Buy"]})) = 2 ∧
  selectFirstOrDefault d "tasks" {["title" := "Buy"]} = None.
Proof. vm_compute. split_and!; reflexivity. Qed.
