(* ===== verification/Handlers.v ===== *)
(** * The route handlers (src/src/routes.js)

    The five handlers of the route table, each a function of the
    environment (the clock reading [new Date().toISOString()] and the
    value of [randomUUID()]), the datastore and the request, returning
    the new datastore and the response.  They are parametric in any
    implementation of the datastore contract of Store.v, and their
    theorems are proved from the contract's laws alone.

    A response is a status code with either a text body ([res.end(s)],
    [res.end()] being the empty text) or the rows sent as JSON
    ([res.end(JSON.stringify(tasks))]); [res.end] without [writeHead]
    answers 200.

    The invariant of the task table ([tasks_inv]) is preserved by every
    handler, and every handler keeps the [created_at] of the tasks it
    leaves ([created_kept]). *)

From stdpp Require Import base list gmap strings.
From S2P Require Import Prelude Json Store Database.

(** ** Requests, responses and the environment *)

Record env := mk_env {
  env_now : string;   (** [new Date().toISOString()] *)
  env_uuid : string;  (** [randomUUID()] *)
}.

(** What a handler reads of the request: [req.params], [req.query] (a
    key without [=] maps to [undefined], here [None]) and [req.body]. *)
Record request := mk_request {
  req_params : gmap string string;
  req_query : gmap string (option string);
  req_body : jvalue;
}.

Inductive resp_body :=
  | RText (s : string)
  | RJson (rows : list row).

Record response := mk_response {
  res_status : nat;
  res_body : resp_body;
}.

(** [res.writeHead(status).end(s)]. *)
Definition text (status : nat) (s : string) : response := mk_response status (RText s).

Section Handlers.
Context `{Datastore D}.

(** ** GET /tasks *)

(** [search ? {...} : null]: an absent or empty [search] is falsy. *)
Definition search_param (req : request) : option string :=
  match req_query req !! "search" with
  | Some (Some s) => if bool_decide (s = "") then None else Some s
  | _ => None
  end.

(** The filter object built from the search text: the same text for
    each of the five fields. *)
Definition search_filter (search : string) : row_filter :=
  <["title" := search]> (<["description" := search]> (<["completed_at" := search]>
    (<["created_at" := search]> {["updated_at" := search]}))).

Definition list_tasks (d : D) (req : request) : D * response :=
  let tasks := ds_select d "tasks" (search_filter <$> search_param req) in
  (d, mk_response 200 (RJson tasks)).

(** ** POST /tasks *)

Definition new_task (e : env) (title description : string) : row :=
  <["id" := env_uuid e]> (<["title" := title]> (<["description" := description]>
    (<["completed_at" := ""]> (<["created_at" := env_now e]>
      {["updated_at" := env_now e]})))).

Definition create_task (e : env) (d : D) (req : request) : D * response :=
  match body_schema (req_body req) with
  | None => (d, text 400 "Bad Request.")
  | Some (title, description) =>
      (ds_insert d "tasks" (new_task e title description), text 201 "")
  end.

(** ** PUT /tasks/:id *)

(** [k: task.k] in an object literal; a field the task lacks would be
    [undefined], which the merge into that same task leaves absent. *)
Definition copy_field (k : string) (task : row) (m : row) : row :=
  match task !! k with
  | Some v => <[k := v]> m
  | None => m
  end.

Definition edit_fields (task : row) (title description now : string) : row :=
  <["title" := title]> (<["description" := description]>
    (copy_field "completed_at" task (copy_field "created_at" task
      {["updated_at" := now]}))).

Definition update_task (e : env) (d : D) (req : request) : D * response :=
  match params_schema (req_params req) with
  | None => (d, text 404 "Invalid id.")
  | Some id =>
      match body_schema (req_body req) with
      | None => (d, text 400 "Bad Request.")
      | Some (title, description) =>
          match ds_first d "tasks" (id_filter id) with
          | None => (d, text 404 "Task not found. Invalid id.")
          | Some task =>
              (ds_update d "tasks" id (edit_fields task title description (env_now e)),
               text 204 "")
          end
      end
  end.

(** ** DELETE /tasks/:id *)

Definition delete_task (d : D) (req : request) : D * response :=
  match params_schema (req_params req) with
  | None => (d, text 404 "Invalid id.")
  | Some id =>
      match ds_first d "tasks" (id_filter id) with
      | None => (d, text 404 "task not found! Invalid id")
      | Some _ => (ds_delete d "tasks" id, text 204 "")
      end
  end.

(** ** PATCH /tasks/:id/complete *)

Definition complete_fields (task : row) (now : string) : row :=
  copy_field "title" task (copy_field "description" task
    (<["completed_at" := now]> (copy_field "created_at" task
      {["updated_at" := now]}))).

Definition complete_task (e : env) (d : D) (req : request) : D * response :=
  match params_schema (req_params req) with
  | None => (d, text 400 "Invalid id.")
  | Some id =>
      match ds_first d "tasks" (id_filter id) with
      | None => (d, text 404 "task not found! Invalid id")
      | Some task =>
          (ds_update d "tasks" id (complete_fields task (env_now e)), text 204 "")
      end
  end.
End Handlers.

(** ** Field-level facts about the rows the handlers build *)

Definition searched_fields : list string :=
  ["title"; "description"; "completed_at"; "created_at"; "updated_at"].

(** ** The invariant of the task table *)

Definition task_keys : gset string :=
  {["id"; "title"; "description"; "completed_at"; "created_at"; "updated_at"]}.

(** The identifier field holds a string the params schema accepts. *)
Definition uuid_field (r : row) : bool :=
  match r !! "id" with Some id => is_uuid id | None => false end.

(** [created_at] is not after [updated_at] (ISO-8601 strings of one
    format compare like the instants they denote). *)
Definition timestamps_ordered (r : row) : bool :=
  match r !! "created_at", r !! "updated_at" with
  | Some c, Some u => String.leb c u
  | _, _ => true
  end.

(** A stored task has exactly the six fields of the data model, an
    identifier by which it can be addressed, and ordered timestamps. *)
Definition task_ok (r : row) : Prop :=
  dom r = task_keys ∧ uuid_field r = true ∧ timestamps_ordered r = true.

Definition tasks_inv `{Datastore D} (d : D) : Prop :=
  Forall task_ok (table_of d "tasks") ∧ ids_unique (table_of d "tasks").

Definition created_not_after (now : string) (r : row) : bool :=
  match r !! "created_at" with Some c => String.leb c now | None => true end.

(** What the handlers need of [randomUUID()] and of the clock: a fresh
    identifier in the UUID format, and a reading not before any stored
    [created_at]. *)
Definition env_ok `{Datastore D} (d : D) (e : env) : Prop :=
  is_uuid (env_uuid e) = true ∧
  env_uuid e ∉ row_ids (table_of d "tasks") ∧
  Forall (λ r, created_not_after (env_now e) r = true) (table_of d "tasks").

(** Between two datastores, a task found by its identifier in both has
    the same [created_at] in both. *)
Definition created_kept `{Datastore D} (d d' : D) : Prop :=
  ∀ id r r', find_id (table_of d "tasks") id = Some r →
    find_id (table_of d' "tasks") id = Some r' → r' !! "created_at" = r !! "created_at".

#[export] Instance tasks_inv_dec `{Datastore D} (d : D) : Decision (tasks_inv d).
Proof. unfold tasks_inv, task_ok, ids_unique. apply _. Defined.

#[export] Instance env_ok_dec `{Datastore D} (d : D) (e : env) : Decision (env_ok d e).
Proof. unfold env_ok. apply _. Defined.

(** ** Concrete inputs for the examples *)

Definition ex_id : string := "6f1c2b3a-9d4e-4f5a-8b7c-0d1e2f3a4b5c".
Definition ex_env0 : env := mk_env "2025-01-01T09:00:00.000Z" ex_id.
Definition ex_env : env := mk_env "2025-01-02T10:00:00.000Z" "0a1b2c3d-4e5f-4a6b-8c7d-9e0f1a2b3c4d".
Definition ex_task : row := new_task ex_env0 "Buy milk" "2 litres".
Definition ex_db : db := db_load (Some {["tasks" := [ex_task]]}).
Definition ex_body : jvalue := JObj [("title", JStr "Buy eggs"); ("description", JStr "a dozen")].
Definition ex_req : request := mk_request {["id" := ex_id]} ∅ ex_body.
Definition ex_bad_req : request := mk_request {["id" := "42"]} ∅ ex_body.
Definition ex_search (s : string) : request := mk_request ∅ {["search" := Some s]} JNull.

Lemma search_filter_forall (s : string) (P : string → string → Prop) :
  map_Forall P (search_filter s) ↔ Forall (λ k, P k s) searched_fields.
Proof.
  unfold search_filter, searched_fields.
  rewrite !map_Forall_insert by (by simplify_map_eq).
  rewrite map_Forall_singleton, !Forall_cons, Forall_nil. naive_solver.
Qed.

(** The row stored by [update] for PUT: new title and description, the
    task's own [completed_at] and [created_at], a fresh [updated_at]. *)
Lemma edit_fields_merge (task : row) (title description now : string) :
  let r := edit_fields task title description now ∪ task in
  r !! "title" = Some title ∧ r !! "description" = Some description ∧
  r !! "completed_at" = task !! "completed_at" ∧ r !! "created_at" = task !! "created_at" ∧
  r !! "updated_at" = Some now ∧ r !! "id" = task !! "id".
Proof.
  unfold edit_fields, copy_field.
  destruct (task !! "completed_at") eqn:E1, (task !! "created_at") eqn:E2;
    repeat split; rewrite lookup_union_match; by simplify_map_eq.
Qed.

(** The row stored by [update] for PATCH: [completed_at] and
    [updated_at] set to the clock, everything else kept. *)
Lemma complete_fields_merge (task : row) (now : string) :
  let r := complete_fields task now ∪ task in
  r !! "title" = task !! "title" ∧ r !! "description" = task !! "description" ∧
  r !! "completed_at" = Some now ∧ r !! "created_at" = task !! "created_at" ∧
  r !! "updated_at" = Some now ∧ r !! "id" = task !! "id".
Proof.
  unfold complete_fields, copy_field.
  destruct (task !! "title") eqn:E1, (task !! "description") eqn:E2,
    (task !! "created_at") eqn:E3;
    repeat split; rewrite lookup_union_match; by simplify_map_eq.
Qed.

Lemma edit_fields_no_id (task : row) (title description now : string) :
  edit_fields task title description now !! "id" = None.
Proof.
  unfold edit_fields, copy_field.
  destruct (task !! "completed_at"), (task !! "created_at"); by simplify_map_eq.
Qed.

Lemma complete_fields_no_id (task : row) (now : string) :
  complete_fields task now !! "id" = None.
Proof.
  unfold complete_fields, copy_field.
  destruct (task !! "title"), (task !! "description"), (task !! "created_at");
    by simplify_map_eq.
Qed.

#[export] Hint Resolve edit_fields_no_id complete_fields_no_id : tasks.

(** Copying a field of the task into the update object changes
    nothing once the object is merged into that same task. *)
Lemma copy_field_union (k : string) (task m : row) :
  m !! k = None → copy_field k task m ∪ task = m ∪ task.
Proof.
  intros Hm. unfold copy_field. destruct (task !! k) as [v|] eqn:E; [|done].
  rewrite <-insert_union_l. apply insert_id. by rewrite lookup_union, Hm, E.
Qed.

(** C17: the rows PUT and PATCH store ([{...task, ...update}]) are the task
    with a few fields overwritten: the copies the handlers make of the
    other fields are equivalent to leaving them alone. *)
Theorem merge_fields_equiv (task : row) (title description now : string) :
  edit_fields task title description now ∪ task =
    <["title" := title]> (<["description" := description]> (<["updated_at" := now]> task)) ∧
  complete_fields task now ∪ task = <["completed_at" := now]> (<["updated_at" := now]> task).
Proof.
  unfold edit_fields, complete_fields. split.
  - rewrite <-!insert_union_l, !copy_field_union
      by (unfold copy_field; repeat case_match; by simplify_map_eq).
    by rewrite <-insert_union_singleton_l.
  - rewrite !copy_field_union by (unfold copy_field; repeat case_match; by simplify_map_eq).
    rewrite <-insert_union_l, copy_field_union by (by simplify_map_eq).
    by rewrite <-insert_union_singleton_l.
Qed.

(** ** Behaviour of the handlers, against the datastore contract *)

Section HandlerTheorems.
Context `{DatastoreLaws D}.

(** C5: POST /tasks with a valid body answers 201 and appends one
    task whose [created_at] equals its [updated_at] and whose
    [completed_at] is empty (spec.md section 8, first property). *)
Theorem create_task_stores (e : env) (d : D) (req : request) (title description : string) :
  body_schema (req_body req) = Some (title, description) →
  snd (create_task e d req) = text 201 "" ∧
  ∃ task, table_of (fst (create_task e d req)) "tasks" = table_of d "tasks" ++ [task] ∧
    task !! "id" = Some (env_uuid e) ∧
    task !! "title" = Some title ∧ task !! "description" = Some description ∧
    task !! "completed_at" = Some "" ∧
    task !! "created_at" = Some (env_now e) ∧ task !! "updated_at" = Some (env_now e).
Proof.
  intros Hb. unfold create_task. rewrite Hb. split; [done|].
  eexists. cbn [fst]. autorewrite with tasks. split; [done|].
  unfold new_task. simplify_map_eq. by repeat split.
Qed.

(** C6: insert then select-by-identifier round trip: after a valid
    POST with a fresh identifier, looking the identifier up finds
    exactly the task that was created. *)
Theorem create_then_find (e : env) (d : D) (req : request) (title description : string) :
  body_schema (req_body req) = Some (title, description) →
  env_uuid e ∉ row_ids (table_of d "tasks") →
  find_id (table_of (fst (create_task e d req)) "tasks") (env_uuid e) =
    Some (new_task e title description).
Proof.
  intros Hb Hfresh. unfold create_task. rewrite Hb. simpl. autorewrite with tasks.
  rewrite find_id_snoc. apply find_id_None in Hfresh as ->.
  rewrite decide_True; [done|]. unfold has_id, new_task. by simplify_map_eq.
Qed.

(** C3: the preservation law of PUT /tasks/:id: on an existing task
    with a valid body the answer is 204, and the stored task has the
    new title and description, a fresh [updated_at], and the
    [completed_at] and [created_at] it had before. *)
Theorem update_task_preserves (e : env) (d : D) (req : request) (id title description : string)
    (task : row) :
  params_schema (req_params req) = Some id →
  body_schema (req_body req) = Some (title, description) →
  find_id (table_of d "tasks") id = Some task →
  snd (update_task e d req) = text 204 "" ∧
  ∃ task', find_id (table_of (fst (update_task e d req)) "tasks") id = Some task' ∧
    task' !! "completed_at" = task !! "completed_at" ∧
    task' !! "created_at" = task !! "created_at" ∧
    task' !! "title" = Some title ∧ task' !! "description" = Some description ∧
    task' !! "updated_at" = Some (env_now e).
Proof.
  intros Hp Hb Hf. unfold update_task. rewrite Hp, Hb. autorewrite with tasks.
  rewrite Hf. split; [done|]. simpl. autorewrite with tasks.
  rewrite find_id_update_same, Hf by auto with tasks. eexists. split; [done|].
  destruct (edit_fields_merge task title description (env_now e)) as (? & ? & ? & ? & ? & _).
  done.
Qed.
(** C9: error precedence of PUT /tasks/:id: a malformed identifier
    answers 404 whatever the body; a well-formed identifier with an
    invalid body answers 400 whether or not the task exists; an
    unknown identifier answers 404; no error changes the datastore. *)
Theorem update_task_errors (e : env) (d : D) (req : request) :
  (params_schema (req_params req) = None →
     update_task e d req = (d, text 404 "Invalid id.")) ∧
  (∀ id, params_schema (req_params req) = Some id → body_schema (req_body req) = None →
     update_task e d req = (d, text 400 "Bad Request.")) ∧
  (∀ id, params_schema (req_params req) = Some id → is_Some (body_schema (req_body req)) →
     find_id (table_of d "tasks") id = None →
     update_task e d req = (d, text 404 "Task not found. Invalid id.")) ∧
  (res_status (snd (update_task e d req)) ≠ 204 → fst (update_task e d req) = d).
Proof.
  unfold update_task. split_and!.
  - by intros ->.
  - by intros id -> ->.
  - intros id -> [[t de] ->]. autorewrite with tasks. by intros ->.
  - destruct (params_schema _) as [id|]; [|done].
    destruct (body_schema _) as [[t de]|]; [|done].
    autorewrite with tasks. by destruct (find_id _ id).
Qed.

(** C4: PATCH /tasks/:id/complete on an existing task answers 204;
    afterwards [completed_at] and [updated_at] hold the clock reading
    and the title, description and [created_at] are unchanged. *)
Theorem complete_task_sets (e : env) (d : D) (req : request) (id : string) (task : row) :
  params_schema (req_params req) = Some id →
  find_id (table_of d "tasks") id = Some task →
  snd (complete_task e d req) = text 204 "" ∧
  ∃ task', find_id (table_of (fst (complete_task e d req)) "tasks") id = Some task' ∧
    task' !! "completed_at" = Some (env_now e) ∧
    task' !! "updated_at" = Some (env_now e) ∧
    task' !! "title" = task !! "title" ∧ task' !! "description" = task !! "description" ∧
    task' !! "created_at" = task !! "created_at".
Proof.
  intros Hp Hf. unfold complete_task. rewrite Hp. autorewrite with tasks.
  rewrite Hf. split; [done|]. simpl. autorewrite with tasks.
  rewrite find_id_update_same, Hf by auto with tasks. eexists. split; [done|].
  destruct (complete_fields_merge task (env_now e)) as (? & ? & ? & ? & ? & _).
  done.
Qed.

(** C12: a malformed identifier is answered 400 by PATCH but 404 by
    DELETE and PUT (the inconsistency spec.md 4.3 asks to keep), and
    none of the three changes the datastore. *)
Theorem malformed_id_status (e : env) (d : D) (req : request) :
  params_schema (req_params req) = None →
  complete_task e d req = (d, text 400 "Invalid id.") ∧
  delete_task d req = (d, text 404 "Invalid id.") ∧
  update_task e d req = (d, text 404 "Invalid id.").
Proof. intros Hp. unfold complete_task, delete_task, update_task. by rewrite Hp. Qed.

(** C7: DELETE /tasks/:id on an existing task answers 204; with
    unique identifiers the task is gone afterwards and every other
    identifier still finds the task it found before. *)
Theorem delete_task_removes (d : D) (req : request) (id : string) (task : row) :
  params_schema (req_params req) = Some id →
  find_id (table_of d "tasks") id = Some task →
  ids_unique (table_of d "tasks") →
  snd (delete_task d req) = text 204 "" ∧
  find_id (table_of (fst (delete_task d req)) "tasks") id = None ∧
  ∀ id', id' ≠ id →
    find_id (table_of (fst (delete_task d req)) "tasks") id' = find_id (table_of d "tasks") id'.
Proof.
  intros Hp Hf Hu. unfold delete_task. rewrite Hp. autorewrite with tasks.
  rewrite Hf. simpl. autorewrite with tasks. split_and!; [done|by apply find_id_delete_same|].
  intros id' Hne. by apply find_id_delete_other.
Qed.

(** C8: deleting twice: with unique identifiers the second DELETE of
    the same request answers 404, whatever the first one did. *)
Theorem delete_twice_404 (d : D) (req : request) :
  ids_unique (table_of d "tasks") →
  res_status (snd (delete_task (fst (delete_task d req)) req)) = 404.
Proof.
  intros Hu. unfold delete_task. destruct (params_schema _) as [id|]; [|done].
  autorewrite with tasks. destruct (find_id (table_of d "tasks") id) eqn:Hf; simpl;
    autorewrite with tasks.
  - by rewrite find_id_delete_same.
  - by rewrite Hf.
Qed.
(** C15: GET /tasks without a (non-empty) [search] answers 200 with
    every task, in insertion order, and changes nothing. *)
Theorem list_tasks_all (d : D) (req : request) :
  search_param req = None →
  list_tasks d req = (d, mk_response 200 (RJson (table_of d "tasks"))).
Proof. intros Hs. unfold list_tasks. by rewrite Hs, ds_select_spec. Qed.

(** C13: GET /tasks?search=s answers 200 with the tasks, in insertion
    order, in which each of the five fields contains [s] (the filter
    needs all of them, spec.md 4.2), and changes nothing. *)
Theorem list_tasks_search (d : D) (req : request) (s : string) :
  search_param req = Some s →
  fst (list_tasks d req) = d ∧
  ∃ rows, snd (list_tasks d req) = mk_response 200 (RJson rows) ∧
    rows `sublist_of` table_of d "tasks" ∧
    ∀ r, r ∈ rows ↔ r ∈ table_of d "tasks" ∧
      Forall (λ k, ∃ v, r !! k = Some v ∧ js_includes v s = true) searched_fields.
Proof.
  intros Hs. unfold list_tasks. rewrite Hs, ds_select_spec. split; [done|].
  eexists. simpl. split_and!; [done|apply sublist_filter|].
  intros r. simpl. rewrite list_elem_of_filter, row_search_spec, search_filter_forall.
  naive_solver.
Qed.

(** C14: a consequence of C10: since a task that is not completed has
    an empty [completed_at], no search ever returns an incomplete task. *)
Theorem list_search_hides_incomplete (d : D) (req : request) (s : string) (rows : list row) :
  search_param req = Some s →
  snd (list_tasks d req) = mk_response 200 (RJson rows) →
  Forall (λ r, r !! "completed_at" ≠ Some "") rows.
Proof.
  intros Hs Hl. apply Forall_forall. intros r Hr.
  destruct (list_tasks_search d req s Hs) as (_ & rows' & Hl' & _ & Hiff).
  rewrite Hl in Hl'. injection Hl' as <-. apply Hiff in Hr as [_ Hall].
  apply (Forall_lookup_1 _ _ 2 "completed_at") in Hall as (v & Hv & Hinc); [|done].
  intros Hc. rewrite Hc in Hv. injection Hv as <-.
  apply js_includes_in_empty in Hinc. subst.
  unfold search_param in Hs. destruct (req_query req !! "search") as [[s'|]|]; [|done..].
  case_bool_decide; congruence.
Qed.
End HandlerTheorems.

(** ** The handlers preserve the invariant *)

Lemma string_leb_refl (s : string) : String.leb s s = true.
Proof.
  unfold String.leb. assert (String.compare s s = Eq) as ->; [|done].
  induction s as [|c s IH]; simpl; [done|]. unfold Ascii.compare. by rewrite N.compare_refl.
Qed.

Lemma edit_fields_keys (task : row) (title description now : string) :
  let X := edit_fields task title description now in
  dom X ⊆ task_keys ∧ X !! "id" = None ∧ X !! "updated_at" = Some now ∧
  X !! "created_at" = task !! "created_at".
Proof.
  unfold edit_fields, copy_field, task_keys.
  destruct (task !! "completed_at"), (task !! "created_at") eqn:E;
    (split; [rewrite ?dom_insert_L, dom_singleton_L; set_solver|by simplify_map_eq]).
Qed.

Lemma complete_fields_keys (task : row) (now : string) :
  let X := complete_fields task now in
  dom X ⊆ task_keys ∧ X !! "id" = None ∧ X !! "updated_at" = Some now ∧
  X !! "created_at" = task !! "created_at".
Proof.
  unfold complete_fields, copy_field, task_keys.
  destruct (task !! "title"), (task !! "description"), (task !! "created_at") eqn:E;
    (split; [rewrite ?dom_insert_L, dom_singleton_L; set_solver|by simplify_map_eq]).
Qed.

Lemma new_task_ok (e : env) (title description : string) :
  is_uuid (env_uuid e) = true → task_ok (new_task e title description).
Proof.
  intros Hu. unfold task_ok, uuid_field, timestamps_ordered, new_task, task_keys. split_and!.
  - rewrite !dom_insert_L, dom_singleton_L. set_solver.
  - by simplify_map_eq.
  - simplify_map_eq. apply string_leb_refl.
Qed.

(** Merging the fields a handler writes into a stored task keeps it a
    well-formed task, as long as the clock is not behind its creation. *)
Lemma merge_task_ok (X r : row) (now : string) :
  dom X ⊆ task_keys → X !! "id" = None → X !! "updated_at" = Some now →
  created_not_after now X = true → created_not_after now r = true →
  task_ok r → task_ok (X ∪ r).
Proof.
  unfold task_ok, uuid_field, timestamps_ordered, created_not_after.
  intros Hdom Hid Hup HX Hr (Hdr & Hu & _). split_and!.
  - rewrite dom_union_L, Hdr. set_solver.
  - by rewrite lookup_union_match, Hid.
  - rewrite !lookup_union_match, Hup. by destruct (X !! "created_at").
Qed.

Section InvariantTheorems.
Context `{DatastoreLaws D}.

Lemma tasks_inv_update (e : env) (d : D) (id : string) (task X : row) :
  env_ok d e → tasks_inv d → find_id (table_of d "tasks") id = Some task →
  dom X ⊆ task_keys → X !! "id" = None → X !! "updated_at" = Some (env_now e) →
  X !! "created_at" = task !! "created_at" →
  tasks_inv (ds_update d "tasks" id X).
Proof.
  intros (_ & _ & Hclock) [Hall Hu] Hf Hdom Hid Hup Hcr.
  apply find_id_Some in Hf as [Htask _]. rewrite Forall_forall in Hclock.
  unfold tasks_inv. autorewrite with tasks. split.
  - apply tbl_update_Forall; [done|]. intros r Hr _.
    apply (merge_task_ok _ _ (env_now e));
      [done..| |by apply Hclock|by rewrite Forall_forall in Hall; apply Hall].
    unfold created_not_after. rewrite Hcr. by apply Hclock.
  - unfold ids_unique. by rewrite row_ids_update.
Qed.

Lemma create_task_inv (e : env) (d : D) (req : request) :
  env_ok d e → tasks_inv d → tasks_inv (fst (create_task e d req)).
Proof.
  intros (Huuid & Hfresh & _) [Hall Hu]. unfold create_task.
  destruct (body_schema _) as [[t de]|]; [|done]. unfold tasks_inv. simpl.
  autorewrite with tasks. split.
  - apply Forall_app. split; [done|]. constructor; [by apply new_task_ok|done].
  - apply (ids_unique_snoc _ _ (env_uuid e)); [|done..]. unfold new_task. by simplify_map_eq.
Qed.

Lemma update_task_inv (e : env) (d : D) (req : request) :
  env_ok d e → tasks_inv d → tasks_inv (fst (update_task e d req)).
Proof.
  intros He Hinv. unfold update_task.
  destruct (params_schema _) as [id|]; [|done].
  destruct (body_schema _) as [[t de]|]; [|done].
  autorewrite with tasks. destruct (find_id _ id) as [task|] eqn:Hf; [|done].
  destruct (edit_fields_keys task t de (env_now e)) as (? & ? & ? & ?).
  by eapply tasks_inv_update.
Qed.

Lemma complete_task_inv (e : env) (d : D) (req : request) :
  env_ok d e → tasks_inv d → tasks_inv (fst (complete_task e d req)).
Proof.
  intros He Hinv. unfold complete_task.
  destruct (params_schema _) as [id|]; [|done].
  autorewrite with tasks. destruct (find_id _ id) as [task|] eqn:Hf; [|done].
  destruct (complete_fields_keys task (env_now e)) as (? & ? & ? & ?).
  by eapply tasks_inv_update.
Qed.

Lemma delete_task_inv (d : D) (req : request) :
  tasks_inv d → tasks_inv (fst (delete_task d req)).
Proof.
  intros [Hall Hu]. unfold delete_task.
  destruct (params_schema _) as [id|]; [|done].
  autorewrite with tasks. destruct (find_id _ id); [|done].
  unfold tasks_inv. simpl. autorewrite with tasks.
  split; [by apply tbl_delete_Forall|by apply ids_unique_delete].
Qed.
(** A merge that copies the task's [created_at] keeps it. *)
Lemma created_kept_update (d : D) (id : string) (task X : row) :
  find_id (table_of d "tasks") id = Some task → X !! "id" = None →
  X !! "created_at" = task !! "created_at" → created_kept d (ds_update d "tasks" id X).
Proof.
  intros Hf Hid Hcr id' r r' H1. rewrite table_of_update.
  destruct (decide (id = id')) as [<-|Hne].
  - rewrite find_id_update_same, Hf by done. rewrite Hf in H1. injection H1 as <-.
    intros [= <-]. rewrite lookup_union, Hcr. by destruct (task !! "created_at").
  - rewrite find_id_update_other by done. congruence.
Qed.

Lemma created_kept_insert (d : D) (x : row) : created_kept d (ds_insert d "tasks" x).
Proof. intros id r r' H1. rewrite table_of_insert, find_id_snoc, H1. congruence. Qed.

Lemma created_kept_delete (d : D) (id : string) :
  ids_unique (table_of d "tasks") → created_kept d (ds_delete d "tasks" id).
Proof.
  intros Hu id' r r' H1. rewrite table_of_delete.
  destruct (decide (id = id')) as [<-|Hne].
  - by rewrite find_id_delete_same.
  - rewrite find_id_delete_other by done. congruence.
Qed.

Lemma created_kept_refl (d : D) : created_kept d d.
Proof. intros id r r'. congruence. Qed.

(** Every handler keeps the [created_at] of the tasks it leaves. *)
Lemma create_task_kept (e : env) (d : D) (req : request) : created_kept d (fst (create_task e d req)).
Proof.
  unfold create_task. destruct (body_schema _) as [[t de]|];
    [apply created_kept_insert|apply created_kept_refl].
Qed.

Lemma update_task_kept (e : env) (d : D) (req : request) : created_kept d (fst (update_task e d req)).
Proof.
  unfold update_task. destruct (params_schema _) as [id|]; [|apply created_kept_refl].
  destruct (body_schema _) as [[t de]|]; [|apply created_kept_refl].
  autorewrite with tasks. destruct (find_id _ id) as [task|] eqn:Hf; [|apply created_kept_refl].
  destruct (edit_fields_keys task t de (env_now e)) as (_ & ? & _ & ?).
  by eapply created_kept_update.
Qed.

Lemma complete_task_kept (e : env) (d : D) (req : request) :
  created_kept d (fst (complete_task e d req)).
Proof.
  unfold complete_task. destruct (params_schema _) as [id|]; [|apply created_kept_refl].
  autorewrite with tasks. destruct (find_id _ id) as [task|] eqn:Hf; [|apply created_kept_refl].
  destruct (complete_fields_keys task (env_now e)) as (_ & ? & _ & ?).
  by eapply created_kept_update.
Qed.

Lemma delete_task_kept (d : D) (req : request) :
  tasks_inv d → created_kept d (fst (delete_task d req)).
Proof.
  intros [_ Hu]. unfold delete_task. destruct (params_schema _) as [id|]; [|apply created_kept_refl].
  autorewrite with tasks. destruct (find_id _ id); [|apply created_kept_refl].
  by apply created_kept_delete.
Qed.
End InvariantTheorems.

(** ** Examples on concrete inputs *)

Lemma create_task_stores_witness :
  body_schema (req_body ex_req) = Some ("Buy eggs", "a dozen") ∧
  snd (create_task ex_env ex_db ex_req) = text 201 "" ∧
  ∃ task, table_of (fst (create_task ex_env ex_db ex_req)) "tasks" = table_of ex_db "tasks" ++ [task] ∧
    task !! "id" = Some (env_uuid ex_env) ∧
    task !! "title" = Some "Buy eggs" ∧ task !! "description" = Some "a dozen" ∧
    task !! "completed_at" = Some "" ∧
    task !! "created_at" = Some (env_now ex_env) ∧ task !! "updated_at" = Some (env_now ex_env).
Proof.
  assert (body_schema (req_body ex_req) = Some ("Buy eggs", "a dozen")) as Hb by reflexivity.
  split; [exact Hb|]. exact (create_task_stores ex_env ex_db ex_req _ _ Hb).
Defined.

Lemma create_then_find_witness :
  body_schema (req_body ex_req) = Some ("Buy eggs", "a dozen") ∧
  env_uuid ex_env ∉ row_ids (table_of ex_db "tasks") ∧
  find_id (table_of (fst (create_task ex_env ex_db ex_req)) "tasks") (env_uuid ex_env) =
    Some (new_task ex_env "Buy eggs" "a dozen").
Proof.
  assert (body_schema (req_body ex_req) = Some ("Buy eggs", "a dozen")) as Hb by reflexivity.
  assert (env_uuid ex_env ∉ row_ids (table_of ex_db "tasks")) as Hf by decide_by_eval.
  split_and!; [exact Hb|exact Hf|exact (create_then_find ex_env ex_db ex_req _ _ Hb Hf)].
Defined.

Lemma update_task_preserves_witness :
  params_schema (req_params ex_req) = Some ex_id ∧
  body_schema (req_body ex_req) = Some ("Buy eggs", "a dozen") ∧
  find_id (table_of ex_db "tasks") ex_id = Some ex_task ∧
  snd (update_task ex_env ex_db ex_req) = text 204 "" ∧
  ∃ task', find_id (table_of (fst (update_task ex_env ex_db ex_req)) "tasks") ex_id = Some task' ∧
    task' !! "completed_at" = ex_task !! "completed_at" ∧
    task' !! "created_at" = ex_task !! "created_at" ∧
    task' !! "title" = Some "Buy eggs" ∧ task' !! "description" = Some "a dozen" ∧
    task' !! "updated_at" = Some (env_now ex_env).
Proof.
  assert (params_schema (req_params ex_req) = Some ex_id) as Hp by reflexivity.
  assert (body_schema (req_body ex_req) = Some ("Buy eggs", "a dozen")) as Hb by reflexivity.
  assert (find_id (table_of ex_db "tasks") ex_id = Some ex_task) as Hf by reflexivity.
  split_and!; [exact Hp|exact Hb|exact Hf|..];
    [exact (proj1 (update_task_preserves ex_env ex_db ex_req _ _ _ _ Hp Hb Hf))
    |exact (proj2 (update_task_preserves ex_env ex_db ex_req _ _ _ _ Hp Hb Hf))].
Defined.

Lemma complete_task_sets_witness :
  params_schema (req_params ex_req) = Some ex_id ∧
  find_id (table_of ex_db "tasks") ex_id = Some ex_task ∧
  snd (complete_task ex_env ex_db ex_req) = text 204 "" ∧
  ∃ task', find_id (table_of (fst (complete_task ex_env ex_db ex_req)) "tasks") ex_id = Some task' ∧
    task' !! "completed_at" = Some (env_now ex_env) ∧
    task' !! "updated_at" = Some (env_now ex_env) ∧
    task' !! "title" = ex_task !! "title" ∧ task' !! "description" = ex_task !! "description" ∧
    task' !! "created_at" = ex_task !! "created_at".
Proof.
  assert (params_schema (req_params ex_req) = Some ex_id) as Hp by reflexivity.
  assert (find_id (table_of ex_db "tasks") ex_id = Some ex_task) as Hf by reflexivity.
  split_and!; [exact Hp|exact Hf|..];
    [exact (proj1 (complete_task_sets ex_env ex_db ex_req _ _ Hp Hf))
    |exact (proj2 (complete_task_sets ex_env ex_db ex_req _ _ Hp Hf))].
Defined.

Lemma malformed_id_status_witness :
  params_schema (req_params ex_bad_req) = None ∧
  complete_task ex_env ex_db ex_bad_req = (ex_db, text 400 "Invalid id.") ∧
  delete_task ex_db ex_bad_req = (ex_db, text 404 "Invalid id.") ∧
  update_task ex_env ex_db ex_bad_req = (ex_db, text 404 "Invalid id.").
Proof.
  assert (params_schema (req_params ex_bad_req) = None) as Hp by reflexivity.
  split; [exact Hp|exact (malformed_id_status ex_env ex_db ex_bad_req Hp)].
Defined.

Lemma delete_task_removes_witness :
  params_schema (req_params ex_req) = Some ex_id ∧
  find_id (table_of ex_db "tasks") ex_id = Some ex_task ∧
  ids_unique (table_of ex_db "tasks") ∧
  snd (delete_task ex_db ex_req) = text 204 "" ∧
  find_id (table_of (fst (delete_task ex_db ex_req)) "tasks") ex_id = None ∧
  ∀ id', id' ≠ ex_id →
    find_id (table_of (fst (delete_task ex_db ex_req)) "tasks") id' = find_id (table_of ex_db "tasks") id'.
Proof.
  assert (params_schema (req_params ex_req) = Some ex_id) as Hp by reflexivity.
  assert (find_id (table_of ex_db "tasks") ex_id = Some ex_task) as Hf by reflexivity.
  assert (ids_unique (table_of ex_db "tasks")) as Hu by decide_by_eval.
  split; [exact Hp|]. split; [exact Hf|]. split; [exact Hu|].
  exact (delete_task_removes ex_db ex_req _ _ Hp Hf Hu).
Defined.

Lemma delete_twice_404_witness :
  ids_unique (table_of ex_db "tasks") ∧
  res_status (snd (delete_task (fst (delete_task ex_db ex_req)) ex_req)) = 404.
Proof.
  assert (ids_unique (table_of ex_db "tasks")) as Hu by decide_by_eval.
  split; [exact Hu|exact (delete_twice_404 ex_db ex_req Hu)].
Defined.

Lemma list_tasks_all_witness :
  search_param (ex_search "") = None ∧
  list_tasks ex_db (ex_search "") = (ex_db, mk_response 200 (RJson (table_of ex_db "tasks"))).
Proof.
  assert (search_param (ex_search "") = None) as Hs by reflexivity.
  split; [exact Hs|exact (list_tasks_all ex_db _ Hs)].
Defined.

Lemma list_tasks_search_witness :
  search_param (ex_search "milk") = Some "milk" ∧
  fst (list_tasks ex_db (ex_search "milk")) = ex_db ∧
  ∃ rows, snd (list_tasks ex_db (ex_search "milk")) = mk_response 200 (RJson rows) ∧
    rows `sublist_of` table_of ex_db "tasks" ∧
    ∀ r, r ∈ rows ↔ r ∈ table_of ex_db "tasks" ∧
      Forall (λ k, ∃ v, r !! k = Some v ∧ js_includes v "milk" = true) searched_fields.
Proof.
  assert (search_param (ex_search "milk") = Some "milk") as Hs by reflexivity.
  split; [exact Hs|exact (list_tasks_search ex_db _ _ Hs)].
Defined.

Lemma list_search_hides_incomplete_witness :
  search_param (ex_search "milk") = Some "milk" ∧
  snd (list_tasks ex_db (ex_search "milk")) = mk_response 200 (RJson []) ∧
  Forall (λ r, r !! "completed_at" ≠ Some "") ([] : list row).
Proof.
  assert (search_param (ex_search "milk") = Some "milk") as Hs by reflexivity.
  assert (snd (list_tasks ex_db (ex_search "milk")) = mk_response 200 (RJson [])) as Hl
    by reflexivity.
  split_and!; [exact Hs|exact Hl|exact (list_search_hides_incomplete ex_db _ _ _ Hs Hl)].
Defined.

Lemma update_task_errors_witness :
  params_schema (req_params ex_bad_req) = None ∧
  ((params_schema (req_params ex_bad_req) = None →
      update_task ex_env ex_db ex_bad_req = (ex_db, text 404 "Invalid id.")) ∧
   (∀ id, params_schema (req_params ex_bad_req) = Some id → body_schema (req_body ex_bad_req) = None →
      update_task ex_env ex_db ex_bad_req = (ex_db, text 400 "Bad Request.")) ∧
   (∀ id, params_schema (req_params ex_bad_req) = Some id → is_Some (body_schema (req_body ex_bad_req)) →
      find_id (table_of ex_db "tasks") id = None →
      update_task ex_env ex_db ex_bad_req = (ex_db, text 404 "Task not found. Invalid id.")) ∧
   (res_status (snd (update_task ex_env ex_db ex_bad_req)) ≠ 204 →
      fst (update_task ex_env ex_db ex_bad_req) = ex_db)).
Proof. split; [reflexivity|exact (update_task_errors ex_env ex_db ex_bad_req)]. Defined.
