(* ===== verification/Wire.v ===== *)
(** * The text the list route writes (src/src/routes.js, line 40)

    [GET /tasks] ends with [res.end(JSON.stringify(tasks))].  This file
    models [JSON.stringify] on an array of rows (SerializeJSONArray and
    SerializeJSONObject: elements and members joined by commas, strings
    quoted with [json_quote] of Json.v) and the text [res.end] writes for
    each response body ([body_text]).  A row is a map, so its members
    are written in the order of [map_to_list]; a JavaScript object keeps
    the insertion order of its properties, which the model of rows does
    not record.  A client reading the body back with [JSON.parse] (of
    JsonParse.v) and taking every member as a string field recovers
    exactly the rows the handler selected ([list_tasks_body]). *)

From Stdlib Require Import Ascii.
From stdpp Require Import base list gmap strings.
From S2P Require Import Prelude Json JsonParse Store Database Handlers.

(** [Array.prototype.join(sep)], as [JSON.stringify] joins the members
    of an object and the elements of an array. *)
Fixpoint array_join (sep : string) (l : list string) : string :=
  match l with
  | [] => ""
  | [x] => x
  | x :: l' => x +:+ sep +:+ array_join sep l'
  end.

(** One member [key:value] of a row. *)
Definition json_member (kv : string * string) : string :=
  json_quote kv.1 +:+ ":" +:+ json_quote kv.2.

(** [JSON.stringify] of a row: [{}], or its members between braces. *)
Definition json_stringify_row (r : row) : string :=
  match map_to_list r with
  | [] => "{}"
  | kvs => "{" +:+ array_join "," (json_member <$> kvs) +:+ "}"
  end.

(** [JSON.stringify(tasks)]: [[]], or the rows between brackets. *)
Definition json_stringify_rows (rows : list row) : string :=
  match rows with
  | [] => "[]"
  | _ => "[" +:+ array_join "," (json_stringify_row <$> rows) +:+ "]"
  end.

(** The text [res.end] writes for a response body. *)
Definition body_text (b : resp_body) : string :=
  match b with
  | RText s => s
  | RJson rows => json_stringify_rows rows
  end.

(** ** A client's reading of the body *)

Definition member_value (kv : string * string) : string * jvalue := (kv.1, JStr kv.2).

(** The JSON value of a row. *)
Definition row_value (r : row) : jvalue := JObj (member_value <$> map_to_list r).

Definition decode_member (kv : string * jvalue) : option (string * string) :=
  match kv.2 with
  | JStr s => Some (kv.1, s)
  | _ => None
  end.

(** An object whose members are all strings, read as a row. *)
Definition decode_row (v : jvalue) : option row :=
  match v with
  | JObj fs => list_to_map <$> mapM decode_member fs
  | _ => None
  end.

Definition decode_rows (v : jvalue) : option (list row) :=
  match v with
  | JArr vs => mapM decode_row vs
  | _ => None
  end.

(** ** The parser on the text of a row and of an array of rows *)

Lemma js_join_cons2 (sep x y : string) (l : list string) :
  array_join sep (x :: y :: l) = x +:+ sep +:+ array_join sep (y :: l).
Proof. reflexivity. Qed.

(** A joined list starts with its first element. *)
Lemma js_join_head (sep x : string) (l : list string) (s : string) :
  ∃ u, array_join sep (x :: l) +:+ s = x +:+ u.
Proof.
  destruct l as [|y l]; [by exists s|].
  exists (sep +:+ array_join sep (y :: l) +:+ s). by rewrite js_join_cons2, <-!append_assoc.
Qed.

Lemma json_member_head (kv : string * string) (u : string) :
  ∃ u', json_member kv +:+ u = String dquote u'.
Proof. unfold json_member. rewrite <-append_assoc, json_quote_app. by eexists. Qed.

Lemma json_stringify_row_head (r : row) (u : string) :
  ∃ u', json_stringify_row r +:+ u = String "{"%char u'.
Proof.
  unfold json_stringify_row. destruct (map_to_list r); [by eexists|].
  rewrite <-append_assoc, append_cons, append_nil_l. by eexists.
Qed.

(** An array that is not empty: its elements are parsed from just after
    the bracket. *)
Lemma value_step_array (items : items_parser) (fields : fields_parser) (s : string) :
  (∃ c t, skip_ws s = String c t ∧ c ≠ "]"%char) →
  value_step items fields (String "["%char s) = (λ p, (JArr p.1, p.2)) <$> items [] s.
Proof.
  intros (c & t & Hs & Hc). unfold value_step. simpl. rewrite Hs.
  by rewrite bool_decide_false by done.
Qed.

Lemma parse_members (kvs : list (string * string)) (n : nat) (acc : list (string * jvalue))
    (t : string) :
  kvs ≠ [] → length kvs ≤ n →
  parse_fields (S n) acc (array_join "," (json_member <$> kvs) +:+ String "}"%char t) =
    Some (acc ++ (member_value <$> kvs), t).
Proof.
  revert n acc. induction kvs as [|[k v] kvs IH]; intros n acc Hne Hl; [done|].
  destruct n as [|n]; [simpl in Hl; lia|].
  assert (∀ r, parse_value (S n) (json_quote v +:+ r) = Some (JStr v, r)) as Hv
    by (intros; rewrite parse_value_S; apply value_step_quote).
  assert (String "}"%char t = "}" +:+ t) as -> by reflexivity.
  rewrite parse_fields_S. destruct kvs as [|kv kvs].
  - cbn [fmap list_fmap array_join]. unfold json_member. cbn [fst snd]. rewrite <-!append_assoc.
    by rewrite (fields_step_member _ _ _ k v t true Hv).
  - cbn [fmap list_fmap]. rewrite js_join_cons2. unfold json_member at 1. cbn [fst snd].
    rewrite <-!append_assoc, (fields_step_member _ _ _ k v _ false Hv).
    assert ("}" +:+ t = String "}"%char t) as -> by reflexivity.
    rewrite (IH n) by (done || simpl in *; lia). by rewrite <-app_assoc.
Qed.

(** The text of a row parses back to its JSON value. *)
Lemma parse_row (r : row) (n : nat) (t : string) :
  length (map_to_list r) + 2 ≤ n →
  parse_value n (json_stringify_row r +:+ t) = Some (row_value r, t).
Proof.
  intros Hn. unfold json_stringify_row, row_value.
  destruct (map_to_list r) as [|kv kvs] eqn:E.
  - destruct n as [|n]; [lia|]. reflexivity.
  - destruct n as [|[|n]]; [lia|lia|]. rewrite parse_value_S.
    rewrite <-!append_assoc, append_cons, append_nil_l.
    destruct (js_join_head "," (json_member kv) (json_member <$> kvs) ("}" +:+ t)) as [u Hu].
    destruct (json_member_head kv u) as [u' Hu'].
    rewrite value_step_object
      by (exists dquote, u'; rewrite fmap_cons, Hu, Hu'; split; [reflexivity|done]).
    assert ("}" +:+ t = String "}"%char t) as -> by reflexivity.
    rewrite parse_members by (done || simpl in *; lia). reflexivity.
Qed.

Lemma parse_rows_items (rows : list row) (n : nat) (acc : list jvalue) (t : string) :
  rows ≠ [] → (∀ r, r ∈ rows → length rows + length (map_to_list r) + 1 ≤ n) →
  parse_items (S n) acc (array_join "," (json_stringify_row <$> rows) +:+ String "]"%char t) =
    Some (acc ++ (row_value <$> rows), t).
Proof.
  revert n acc. induction rows as [|r rows IH]; intros n acc Hne Hb; [done|].
  assert (length (map_to_list r) + 2 ≤ n) as Hr
    by (specialize (Hb r (proj2 (elem_of_cons _ _ _) (or_introl eq_refl))); simpl in Hb; lia).
  rewrite parse_items_S. unfold items_step. destruct rows as [|r' rows].
  - cbn [fmap list_fmap array_join]. rewrite parse_row by done. reflexivity.
  - cbn [fmap list_fmap]. rewrite js_join_cons2, <-!append_assoc, parse_row by done.
    transitivity (parse_items n (acc ++ [row_value r])
      (array_join "," (json_stringify_row <$> r' :: rows) +:+ String "]"%char t)); [reflexivity|].
    destruct n as [|n]; [lia|]. rewrite IH by (done || intros x Hx;
      specialize (Hb x (proj2 (elem_of_cons _ _ _) (or_intror Hx))); simpl in *; lia).
    by rewrite <-app_assoc.
Qed.

Lemma map_size_le_sum (rows : list row) (r : row) :
  r ∈ rows → length (map_to_list r) ≤ sum_list_with (λ x, length (map_to_list x)) rows.
Proof.
  induction rows as [|x rows IH]; [by intros ?%not_elem_of_nil|].
  intros [->|Hr]%elem_of_cons; simpl; [lia|]. specialize (IH Hr). lia.
Qed.

(** [JSON.parse] inverts [JSON.stringify] on arrays of rows. *)
Lemma JSON_parse_stringify_rows (rows : list row) :
  JSON_parse (json_stringify_rows rows) = Some (JArr (row_value <$> rows)).
Proof.
  destruct rows as [|r rows]; [reflexivity|].
  set (s := json_stringify_rows (r :: rows)).
  set (N := json_fuel s + length (r :: rows) + sum_list_with (λ x, length (map_to_list x)) (r :: rows)).
  assert (parse_value (S (S N)) s = Some (JArr (row_value <$> r :: rows), "")) as Hp.
  { unfold s. change (json_stringify_rows (r :: rows)) with
      ("[" +:+ array_join "," (json_stringify_row <$> r :: rows) +:+ "]"). rewrite parse_value_S.
    rewrite append_cons, append_nil_l.
    destruct (js_join_head "," (json_stringify_row r) (json_stringify_row <$> rows) "]")
      as [u Hu].
    destruct (json_stringify_row_head r u) as [u' Hu'].
    rewrite value_step_array
      by (exists "{"%char, u'; rewrite fmap_cons, Hu, Hu'; done).
    change "]" with (String "]"%char "").
    rewrite parse_rows_items; [done|done|].
    intros x Hx. pose proof (map_size_le_sum _ _ Hx). unfold N, json_fuel. lia. }
  unfold JSON_parse. rewrite <-(parse_value_fuel_enough s (S (S N))) by (unfold N; lia).
  by rewrite Hp.
Qed.

Lemma decode_row_value (r : row) : decode_row (row_value r) = Some r.
Proof.
  unfold decode_row, row_value. rewrite (mapM_fmap_Some _ member_value) by (by intros [k v]).
  simpl. by rewrite list_to_map_to_list.
Qed.

(** ** Properties *)

Section WireTheorems.
Context `{DatastoreLaws D}.

(** The body [GET /tasks] writes, read back by a client with
    [JSON.parse] and every member taken as a string field, is exactly
    the list of rows the handler selected, in order: the escaping of
    [JSON.stringify] loses no character of any field. *)
Theorem list_tasks_body (d : D) (req : request) :
  (JSON_parse (body_text (res_body (snd (list_tasks d req)))) ≫= decode_rows) =
    Some (tbl_select (table_of d "tasks") (search_filter <$> search_param req)).
Proof.
  unfold list_tasks. simpl. rewrite JSON_parse_stringify_rows. simpl.
  rewrite ds_select_spec. apply mapM_fmap_Some, decode_row_value.
Qed.
End WireTheorems.

(** ** Examples on concrete inputs *)

Lemma list_tasks_body_witness :
  (JSON_parse (body_text (res_body (snd (list_tasks ex_db (ex_search "Buy"))))) ≫= decode_rows) =
    Some (tbl_select (table_of ex_db "tasks") (search_filter <$> search_param (ex_search "Buy"))).
Proof. exact (list_tasks_body ex_db (ex_search "Buy")). Defined.
