(* ===== verification/Fresh.v ===== *)
(** * Fresh identifiers and late enough clock readings exist

    The theorems about the handlers and the server assume that each
    request is served with an environment satisfying [env_ok]: a value
    of [randomUUID()] in the UUID format that no stored task carries,
    and a reading of the clock not before any stored [created_at].  This
    file shows that such an environment exists for every table of fewer
    than [16 ^ 12] tasks: the assumption is never vacuous, and the server
    can always make progress.  The identifier is found among the
    [16 ^ 12] UUIDs [00000000-0000-0000-0000-xxxxxxxxxxxx] by the
    pigeonhole principle; the reading is a string of code units [0xFF]
    longer than every stored timestamp. *)

From stdpp Require Import base list gmap strings.
From Stdlib Require Import Ascii.
From S2P Require Import Prelude Json Store Database Handlers.

Definition hex_chars : list ascii := String.list_ascii_of_string "0123456789abcdef".

(** All the words of [k] lower-case hex digits. *)
Fixpoint hex_words (k : nat) : list string :=
  match k with
  | 0 => [""]
  | S k => hex_chars ≫= λ c, String c <$> hex_words k
  end.

Definition uuid_cand (w : string) : string := "00000000-0000-0000-0000-" +:+ w.

(** The shape of [k] hex digits, as [uuid_shape] writes it. *)
Fixpoint x_shape (k : nat) : string :=
  match k with
  | 0 => ""
  | S k => String "x" (x_shape k)
  end.

(** [n] code units [0xFF]: not before any string of at most [n] units. *)
Fixpoint late_time (n : nat) : string :=
  match n with
  | 0 => ""
  | S n => String "255" (late_time n)
  end.

Definition created_length (r : row) : nat := String.length (default "" (r !! "created_at")).

(** An environment that [env_ok] accepts for [rows], given one of the
    candidate identifiers. *)
Definition fresh_env (rows : list row) (w : string) : env :=
  mk_env (late_time (foldr (λ r n, created_length r `max` n) 0 rows)) (uuid_cand w).

(** ** Identifiers *)

Lemma hex_words_length (k : nat) : length (hex_words k) = 16 ^ k.
Proof.
  induction k as [|k IH]; [done|]. simpl hex_words. unfold hex_chars. simpl.
  rewrite !length_app, !length_fmap, IH. simpl. lia.
Qed.

Lemma hex_words_NoDup (k : nat) : NoDup (hex_words k).
Proof.
  induction k as [|k IH]; [apply NoDup_singleton|].
  apply NoDup_bind.
  - intros c1 c2 y _ _ (w1 & -> & _)%list_elem_of_fmap (w2 & Heq & _)%list_elem_of_fmap.
    by injection Heq.
  - intros c _. apply NoDup_fmap_2; [intros ?? [= ->]; done|exact IH].
  - decide_by_eval.
Qed.

Lemma hex_words_shape (k : nat) (w : string) : w ∈ hex_words k → match_shape (x_shape k) w = true.
Proof.
  revert w. induction k as [|k IH]; cbn [hex_words x_shape].
  - by intros w ->%list_elem_of_singleton.
  - intros w (c & (w' & -> & Hw)%list_elem_of_fmap & Hc)%list_elem_of_bind. simpl.
    rewrite (IH w' Hw), andb_true_r.
    assert (Forall (λ c, is_hex c = true) hex_chars) as Hh by decide_by_eval.
    rewrite Forall_forall in Hh. by apply Hh.
Qed.

Lemma uuid_cand_is_uuid (w : string) : w ∈ hex_words 12 → is_uuid (uuid_cand w) = true.
Proof. intros Hw%hex_words_shape. exact Hw. Qed.

Lemma append_inj_l (a x y : string) : a +:+ x = a +:+ y → x = y.
Proof.
  induction a as [|c a IH]; [by rewrite !append_nil_l|].
  rewrite !append_cons. intros [= ?]. by apply IH.
Qed.

#[local] Instance uuid_cand_inj : Inj (=) (=) uuid_cand.
Proof. intros x y. apply append_inj_l. Qed.

(** The pigeonhole step: fewer rows than candidates leave a candidate
    that no row carries. *)
Lemma fresh_uuid_exists (rows : list row) :
  length rows < 16 ^ 12 → ∃ w, w ∈ hex_words 12 ∧ uuid_cand w ∉ row_ids rows.
Proof.
  intros Hlen.
  destruct (decide (Forall (λ x, x ∈ row_ids rows) (uuid_cand <$> hex_words 12)))
    as [Hall|Hnot].
  - exfalso.
    assert (length (uuid_cand <$> hex_words 12) ≤ length (row_ids rows)) as Hle.
    { apply NoDup_incl_length.
      - apply NoDup_ListNoDup, (NoDup_fmap_2 uuid_cand), hex_words_NoDup.
      - intros x Hx. rewrite Forall_forall in Hall.
        apply list_elem_of_In, Hall, list_elem_of_In, Hx. }
    rewrite length_fmap, hex_words_length in Hle.
    pose proof (length_omap_le (λ r, r !! "id") rows). unfold row_ids in Hle. lia.
  - apply not_Forall_Exists in Hnot; [|intros; apply _].
    apply Exists_exists in Hnot as (x & Hx & Hn).
    apply list_elem_of_fmap in Hx as (w & -> & Hw). eauto.
Qed.

(** ** Clock readings *)

Lemma late_time_after (c : string) (n : nat) :
  String.length c ≤ n → String.leb c (late_time n) = true.
Proof.
  revert n. induction c as [|a c IH]; intros [|n] Hn; simpl in *; try lia; try done.
  unfold String.leb. simpl.
  assert (Ascii.compare a "255" ≠ Gt) as Ha by (destruct a as [[][][][][][][][]]; discriminate).
  destruct (Ascii.compare a "255"); [|done|done].
  specialize (IH n ltac:(lia)). unfold String.leb in IH. exact IH.
Qed.

Lemma created_length_le (rows : list row) (r : row) :
  r ∈ rows → created_length r ≤ foldr (λ r n, created_length r `max` n) 0 rows.
Proof.
  induction rows as [|r0 rows IH]; [by intros ?%not_elem_of_nil|].
  intros [->|?%IH]%elem_of_cons; simpl; lia.
Qed.

(** The bound on the number of tasks, without computing it in unary. *)
Lemma hex_words_bound : 16 < 16 ^ 12.
Proof. pose proof (Nat.pow_lt_mono_r 16 1 12 ltac:(lia) ltac:(lia)) as H. by rewrite Nat.pow_1_r in H. Qed.

(** ** The environment assumption can always be met *)

(** The assumption the handlers' theorems make of the environment
    can always be met: for every table of fewer than [16 ^ 12] tasks
    there is a [randomUUID()] in the UUID format that no task carries
    and a clock reading not before any stored [created_at]. *)
Theorem env_ok_exists `{Datastore D} (d : D) :
  length (table_of d "tasks") < 16 ^ 12 → ∃ e, env_ok d e.
Proof.
  intros Hlen. destruct (fresh_uuid_exists _ Hlen) as (w & Hw & Hn).
  exists (fresh_env (table_of d "tasks") w). split_and!; [by apply uuid_cand_is_uuid|exact Hn|].
  apply Forall_forall. intros r Hr. unfold created_not_after. simpl.
  pose proof (created_length_le _ _ Hr) as Hc. unfold created_length in Hc.
  destruct (r !! "created_at") as [c|]; [|done]. by apply late_time_after.
Qed.

(** ** Examples on concrete inputs *)

Lemma env_ok_exists_witness :
  length (table_of ex_db "tasks") < 16 ^ 12 ∧ ∃ e, env_ok ex_db e.
Proof.
  assert (length (table_of ex_db "tasks") = 1) as E by reflexivity.
  assert (length (table_of ex_db "tasks") < 16 ^ 12) as Hb by (pose proof hex_words_bound; lia).
  split; [exact Hb|exact (env_ok_exists ex_db Hb)].
Defined.
