(* ===== verification/CsvImport.v ===== *)
(** * The CSV import stream (src/src/server.js, [CSVTransform], lines 8-50)

    [_transform(chunk)] splits the chunk on ["\n"] and, for every line,
    skips it when it is equal to the chunk's first line, when it is
    blank after [trim()], or when [split(",")] does not give exactly two
    fields; otherwise it posts [{title, description}] (both trimmed) to
    [/tasks] without awaiting the answer.  [csv_chunk_rows] is the list
    of payloads one chunk posts, in the order the posts are started;
    [csv_import] does this for every chunk of the body, each chunk on
    its own (nothing is buffered across chunks).  The body of each post
    parses back through [JSON.parse] to the row's two fields
    ([JSON_parse_stringify_record]).  How the posts reach the server is
    modelled in Server.v and Pipeline.v. *)

From stdpp Require Import base list gmap strings.
From Stdlib Require Import Ascii.
From S2P Require Import Prelude Json JsonParse.

Definition newline : ascii := "010"%char.
Definition comma : ascii := ","%char.

(** [row.split(",")], the two-field test and the trimmed fields. *)
Definition csv_fields (row : string) : option (string * string) :=
  match js_split comma row with
  | [title; description] => Some (js_trim title, js_trim description)
  | _ => None
  end.

(** The test applied to one line; [first] is [linesParse[0]]. *)
Definition csv_row (first row : string) : option (string * string) :=
  if bool_decide (row = first) then None
  else if bool_decide (js_trim row = "") then None
  else csv_fields row.

(** [_transform] on one chunk: the payloads it posts, in order. *)
Definition csv_chunk_rows (chunk : string) : list (string * string) :=
  let lines := js_split newline chunk in
  match lines with
  | [] => []
  | first :: _ => omap (csv_row first) lines
  end.

(** [JSON.stringify({title, description})], the body of each post. *)
Definition json_stringify_record (title description : string) : string :=
  "{" +:+ json_quote "title" +:+ ":" +:+ json_quote title +:+ "," +:+
  json_quote "description" +:+ ":" +:+ json_quote description +:+ "}".

(** The whole request body, chunk after chunk. *)
Definition csv_import (chunks : list string) : list (string * string) :=
  chunks ≫= csv_chunk_rows.

(** A body given as its lines. *)
Definition csv_text (lines : list string) : string := js_join newline lines.

(** ** Properties *)

(** A blank line never has two fields, so the blank-line test never
    decides anything the two-field test would not. *)
Lemma csv_row_spec (first row : string) (p : string * string) :
  csv_row first row = Some p ↔
  row ≠ first ∧ ∃ a b, js_split comma row = [a; b] ∧ p = (js_trim a, js_trim b).
Proof.
  unfold csv_row. case_bool_decide as Hf; [naive_solver|].
  case_bool_decide as Ht.
  - split; [done|]. intros (_ & a & b & Hs & _).
    apply js_split_two_has_sep, js_has_char_spec in Hs.
    apply js_trim_empty in Ht. rewrite Forall_forall in Ht. by apply Ht in Hs.
  - unfold csv_fields. destruct (js_split comma row) as [|a [|b [|? ?]]]; naive_solver.
Qed.

(** The blank-line test is redundant: a line is posted when it differs
    from the first line and has two fields. *)
Lemma csv_row_fields (first row : string) :
  csv_row first row = if bool_decide (row = first) then None else csv_fields row.
Proof.
  destruct (csv_row first row) as [p|] eqn:E.
  - apply csv_row_spec in E as (Hne & a & b & Hs & ->).
    rewrite bool_decide_false by done. unfold csv_fields. by rewrite Hs.
  - case_bool_decide as Hf; [done|]. unfold csv_fields.
    destruct (js_split comma row) as [|a [|b [|? ?]]] eqn:Hs; try done.
    assert (csv_row first row = Some (js_trim a, js_trim b)) as E'
      by (apply csv_row_spec; eauto 10). congruence.
Qed.

Lemma csv_chunk_rows_cons (chunk first : string) (rest : list string) :
  js_split newline chunk = first :: rest →
  csv_chunk_rows chunk = omap (csv_row first) rest.
Proof.
  intros Hs. unfold csv_chunk_rows. rewrite Hs. simpl.
  unfold csv_row at 1. by rewrite bool_decide_true.
Qed.

(** C24: the payloads a chunk posts are exactly the trimmed fields of
    its lines that differ from the chunk's first line and split into
    two comma-separated fields. *)
Theorem csv_chunk_rows_spec (chunk : string) (p : string * string) :
  p ∈ csv_chunk_rows chunk ↔
  ∃ line a b, line ∈ js_split newline chunk ∧ head (js_split newline chunk) ≠ Some line ∧
    js_split comma line = [a; b] ∧ p = (js_trim a, js_trim b).
Proof.
  unfold csv_chunk_rows.
  destruct (js_split newline chunk) as [|first rest] eqn:E;
    [by destruct (js_split_not_nil newline chunk)|].
  rewrite list_elem_of_omap. simpl. split.
  - intros (line & Hin & (Hne & a & b & Hs & ->)%csv_row_spec).
    exists line, a, b. split_and!; [done|congruence|done|done].
  - intros (line & a & b & Hin & Hne & Hs & ->). exists line. split; [done|].
    apply csv_row_spec. split; [congruence|eauto].
Qed.

(** A chunk posts fewer payloads than it has lines: at most one
    per line break. *)
Theorem csv_chunk_rows_bound (chunk : string) :
  length (csv_chunk_rows chunk) < length (js_split newline chunk).
Proof.
  destruct (js_split newline chunk) as [|first rest] eqn:E;
    [by destruct (js_split_not_nil newline chunk)|].
  rewrite (csv_chunk_rows_cons chunk first rest E). simpl.
  pose proof (length_omap_le (csv_row first) rest). lia.
Qed.

(** No posted title or description contains a comma or a line
    break. *)
Theorem csv_fields_clean (chunk title description : string) :
  (title, description) ∈ csv_chunk_rows chunk →
  Forall (λ s, js_has_char comma s = false ∧ js_has_char newline s = false)
    [title; description].
Proof.
  intros (line & a & b & Hl & _ & Hs & [= -> ->])%csv_chunk_rows_spec.
  pose proof (js_split_no_sep comma line) as Hc. rewrite Hs in Hc.
  pose proof (js_split_no_sep newline chunk) as Hn. rewrite Forall_forall in Hn.
  specialize (Hn line Hl).
  assert (∀ w, w ∈ [a; b] → js_has_char newline w = false) as Hw.
  { intros w Hw. apply not_true_is_false. intros ?%js_has_char_spec.
    rewrite <-Hs in Hw. apply (js_split_incl _ _ _ _ Hw), js_has_char_spec in H.
    congruence. }
  inversion Hc as [|? ? Ha Hc']; subst. inversion Hc' as [|? ? Hb _]; subst.
  repeat constructor; apply not_true_is_false; intros ?%js_has_char_spec%js_trim_incl%js_has_char_spec.
  - congruence.
  - specialize (Hw a ltac:(by left)). congruence.
  - congruence.
  - specialize (Hw b ltac:(by right; left)). congruence.
Qed.

(** C26: what one chunk posts, given its lines: the header test
    compares contents, not positions, so every line equal to the
    chunk's first line is dropped (in a later chunk whose first line is
    a data row, that row and all its duplicates are lost); each other
    line with exactly two comma-separated fields is posted, trimmed, in
    order; blank lines need no test of their own. *)
Theorem csv_chunk_rows_lines (first : string) (ls : list string) :
  Forall (λ l, js_has_char newline l = false) (first :: ls) →
  csv_chunk_rows (csv_text (first :: ls)) = omap csv_fields (filter (λ l, l ≠ first) ls).
Proof.
  intros Hl. unfold csv_text. rewrite (csv_chunk_rows_cons _ first ls) by (by apply js_split_join).
  clear Hl. induction ls as [|l ls IH]; [done|].
  rewrite filter_cons, omap_cons, csv_row_fields, IH.
  case_bool_decide; case_decide; [done..|by rewrite omap_cons|done].
Qed.

(** The body of every post parses back, through [JSON.parse], to the
    object the import built: the server receives the row's two fields
    unchanged, whatever characters they hold. *)
Theorem JSON_parse_stringify_record (title description : string) :
  JSON_parse (json_stringify_record title description) =
    Some (JObj [("title", JStr title); ("description", JStr description)]).
Proof.
  assert (∀ n, parse_value (S (S (S (S n)))) (json_stringify_record title description) =
    Some (JObj [("title", JStr title); ("description", JStr description)], "")) as Hp.
  { intros n. unfold json_stringify_record.
    rewrite parse_value_S, append_cons, append_nil_l, value_step_object
      by (eexists _, _; split; [apply skip_ws_quote|done]).
    assert (∀ m r, parse_value (S m) (json_quote title +:+ r) = Some (JStr title, r) ∧
                   parse_value (S m) (json_quote description +:+ r) = Some (JStr description, r))
      as Hv by (intros; rewrite !parse_value_S; split; apply value_step_quote).
    rewrite parse_fields_S, (fields_step_member _ _ _ "title" title _ false) by apply Hv.
    rewrite <-(append_nil_r "}"), parse_fields_S.
    rewrite (fields_step_member _ _ _ "description" description _ true) by apply Hv.
    reflexivity. }
  unfold JSON_parse.
  assert (2 ≤ String.length (json_stringify_record title description)) as Hl.
  { unfold json_stringify_record. rewrite append_cons, json_quote_app. simpl. lia. }
  assert (∃ n, json_fuel (json_stringify_record title description) = S (S (S (S n)))) as [n ->]
    by (exists (json_fuel (json_stringify_record title description) - 4); unfold json_fuel; lia).
  by rewrite Hp.
Qed.

(** ** Examples on concrete inputs *)

Lemma csv_fields_clean_witness :
  ("A", "B") ∈ csv_chunk_rows (csv_text ["title,description"; " A , B"; ""]) ∧
  Forall (λ s, js_has_char comma s = false ∧ js_has_char newline s = false) ["A"; "B"].
Proof.
  assert (("A", "B") ∈ csv_chunk_rows (csv_text ["title,description"; " A , B"; ""])) as Hin
    by (vm_compute; left).
  split; [exact Hin|exact (csv_fields_clean _ _ _ Hin)].
Defined.

Lemma csv_chunk_rows_lines_witness :
  Forall (λ l, js_has_char newline l = false) ["A,B"; "A,B"; "C,D"; " , "; ""] ∧
  csv_chunk_rows (csv_text ["A,B"; "A,B"; "C,D"; " , "; ""]) = [("C", "D"); ("", "")].
Proof.
  assert (Forall (λ l, js_has_char newline l = false) ["A,B"; "A,B"; "C,D"; " , "; ""]) as Hl
    by (repeat constructor).
  split; [exact Hl|]. rewrite (csv_chunk_rows_lines _ _ Hl). vm_compute. reflexivity.
Defined.

(** The scenario of spec.md section 8: the body
    [title,description\nA,B\n,\nC,D,E\n] makes exactly two creation
    attempts; the second is for the line [","], whose two fields are
    empty (it is not skipped as malformed). *)
Example csv_spec_scenario :
  csv_chunk_rows (csv_text ["title,description"; "A,B"; ","; "C,D,E"; ""]) =
    [("A", "B"); ("", "")].
Proof. vm_compute. reflexivity. Qed.

(** Rows are split per chunk: a row cut by a chunk boundary is posted
    as two wrong rows or lost, and the first line of every later chunk
    is dropped as if it were the header. *)
Example csv_chunk_boundary :
  csv_import [csv_text ["title,description"; "A,"]; csv_text ["B"; "C,D"; ""]] = [("A", ""); ("C", "D")].
Proof. vm_compute. reflexivity. Qed.
