(* ===== verification/Server.v ===== *)
(** * The request dispatcher and the server as a transition system
      (src/src/server.js, lines 52-77, with the route table of routes.js)

    [serve] is the callback of [http.createServer]: a [POST] to
    [/tasks/import-csv] is piped through [CSVTransform]; every other
    request has its body parsed by the JSON middleware and is handed to
    the first route of the table whose method is equal and whose matcher
    accepts the URL, with [req.params] and [req.query] taken from the
    match; when no route matches the answer is 404.  [JSON.parse] is a
    parameter of the section ([json_parse], [None] when it throws).

    The server's state is the datastore, the bodies of the posts of CSV
    imports still in flight (fired without awaiting) and the outcomes
    their [.then] and [.catch] have pushed.  [step] is one event: a
    client request is served (an import leaves its posts in flight), or
    a background step [bstep] happens: a post in flight is delivered (in
    any order) and reported as a success, or is lost and reported as a
    failure.  The server starts from [initial_server], the datastore
    loaded from its file.  The invariant [tasks_inv] holds in every
    reachable state, and no event changes the [created_at] of a task
    that stays ([created_at_stable]); every response is well formed
    ([serve_response_ok]). *)

From stdpp Require Import base list gmap strings.
From S2P Require Import Prelude Json Router Store Database Handlers CsvImport.

(** A request as the transport delivers it: the body is a list of chunks. *)
Record raw_request := mk_raw {
  rq_method : string;
  rq_url : string;
  rq_chunks : list string;
}.

Section Dispatch.
Context `{Datastore D}.
Context (json_parse : string → option jvalue).

Definition handler := env → D → request → D * response.

(** The handlers of the table, named by their entry of routes.js. *)
Inductive route_name := HList | HCreate | HUpdate | HDelete | HComplete.

Definition handler_of (n : route_name) : handler :=
  match n with
  | HList => λ _, list_tasks
  | HCreate => create_task
  | HUpdate => update_task
  | HDelete => λ _, delete_task
  | HComplete => complete_task
  end.

Record route := mk_route {
  route_method : string;
  route_path : template;
  route_handler : route_name;
}.

(** The table of routes.js, in declaration order, before compilation. *)
Definition route_table : list (string * string * route_name) :=
  [("GET", "/tasks", HList);
   ("POST", "/tasks", HCreate);
   ("PUT", "/tasks/:id", HUpdate);
   ("DELETE", "/tasks/:id", HDelete);
   ("PATCH", "/tasks/:id/complete", HComplete)].

(** [path: buildRoutePath(...)] for every entry, when routes.js loads. *)
Definition compile_routes (tbl : list (string * string * route_name)) : option (list route) :=
  mapM (λ '(m, p, h), (λ t, mk_route m t h) <$> compile p) tbl.

Definition routes : list route := default [] (compile_routes route_table).

(** [routes.find(route => route.method === method && route.path.test(url))]. *)
Definition find_route (rs : list route) (method url : string) : option route :=
  List.find (λ r, bool_decide (route_method r = method) && test (route_path r) url) rs.

(** [const { query, ...params } = routeParams.groups]. *)
Definition params_of (bs : bindings) : gmap string string := list_to_map bs.

Definition query_of (q : option string) : gmap string (option string) :=
  match q with
  | Some s => extract_query_params s
  | None => ∅
  end.

(** The JSON middleware: the concatenated chunks through [JSON.parse]. *)
Definition body_of (rq : raw_request) : jvalue :=
  json_body (json_parse (foldr String.append "" (rq_chunks rq))).

Definition dispatch (rs : list route) (e : env) (d : D) (rq : raw_request) : D * response :=
  match find_route rs (rq_method rq) (rq_url rq) with
  | Some r =>
      match exec (route_path r) (rq_url rq) with
      | Some (bs, q) =>
          handler_of (route_handler r) e d (mk_request (params_of bs) (query_of q) (body_of rq))
      | None => (d, text 404 "")
      end
  | None => (d, text 404 "")
  end.

Definition is_import (rq : raw_request) : bool :=
  bool_decide (rq_method rq = "POST") && bool_decide (rq_url rq = "/tasks/import-csv").

(** [fetch("http://localhost:3333/tasks", {method: "POST", body: record})]:
    the request a post of the import makes. *)
Definition import_post (record : string) : raw_request := mk_raw "POST" "/tasks" [record].

(** The bodies of the posts an import fires, one per accepted row. *)
Definition import_records (rows : list (string * string)) : list string :=
  (λ p, json_stringify_record p.1 p.2) <$> rows.

Inductive reply :=
  | Reply (res : response)
  | Stream (posts : list (string * string)).

Definition serve (e : env) (d : D) (rq : raw_request) : D * reply :=
  if is_import rq then (d, Stream (csv_import (rq_chunks rq)))
  else let '(d', res) := dispatch routes e d rq in (d', Reply res).
End Dispatch.

(** The answers of the server: a status among those the handlers and the
    dispatcher write, and a JSON body only with 200. *)
Definition response_ok (res : response) : bool :=
  bool_decide (res_status res ∈ [200; 201; 204; 400; 404]) &&
  match res_body res with
  | RJson _ => res_status res =? 200
  | RText _ => true
  end.

(** ** The server as a transition system *)

(** [this.push({success, data: record})]: what the import reports for
    one post once its [fetch] settles. *)
Record outcome := mk_outcome {
  oc_success : bool;
  oc_data : string;
}.

Record server (D : Type) := mk_server {
  srv_db : D;
  srv_inflight : list string;
  srv_outcomes : list outcome;
}.
Arguments mk_server {D} _ _ _.
Arguments srv_db {D} _.
Arguments srv_inflight {D} _.
Arguments srv_outcomes {D} _.

Section Machine.
Context `{Datastore D}.
Context (json_parse : string → option jvalue).

(** The posts an answer leaves in flight. *)
Definition posts_of (rep : reply) : list string :=
  match rep with
  | Reply _ => []
  | Stream rows => import_records rows
  end.

(** What happens to the posts in flight, without a client request: one
    of them (in any order: the import does not await them) reaches the
    server, is served with an environment satisfying [env_ok], and its
    [.then] reports success whatever the status of the answer; or its
    [fetch] rejects, the post is lost and its [.catch] reports failure. *)
Inductive bstep : server D → server D → Prop :=
  | bstep_deliver s e pre record post d' rep :
      srv_inflight s = pre ++ record :: post →
      env_ok (srv_db s) e →
      serve json_parse e (srv_db s) (import_post record) = (d', rep) →
      bstep s (mk_server d' (pre ++ post ++ posts_of rep)
                 (srv_outcomes s ++ [mk_outcome true record]))
  | bstep_lost s pre record post :
      srv_inflight s = pre ++ record :: post →
      bstep s (mk_server (srv_db s) (pre ++ post) (srv_outcomes s ++ [mk_outcome false record])).

(** One event: a request from a client is served with an environment
    satisfying [env_ok] (an import leaves its posts in flight), or a
    post in flight settles. *)
Inductive step : server D → server D → Prop :=
  | step_request s e rq d' rep :
      env_ok (srv_db s) e →
      serve json_parse e (srv_db s) rq = (d', rep) →
      step s (mk_server d' (srv_inflight s ++ posts_of rep) (srv_outcomes s))
  | step_background s s' :
      bstep s s' → step s s'.
End Machine.

(** [const database = new Database()] at module load: the server starts
    with the datastore loaded from its file, nothing in flight and
    nothing reported. *)
Definition initial_server (file : option tables) : server db := mk_server (db_load file) [] [].

(** ** Concrete inputs for the examples *)

Definition ex_post_body : string := json_stringify_record "Buy eggs" "a dozen".

(** A [JSON.parse] that knows one text. *)
Definition ex_parse (s : string) : option jvalue :=
  if bool_decide (s = ex_post_body) then Some ex_body else None.

Definition ex_post : raw_request := import_post ex_post_body.
Definition ex_server : server db := mk_server ex_db [] [].

(** [PUT /tasks/<id>] of the example task, with the body of [ex_post]. *)
Definition ex_put : raw_request := mk_raw "PUT" ("/tasks/" +:+ ex_id) [ex_post_body].

(** ** The route table and the dispatcher *)

Section DispatchTheorems.
Context `{DatastoreLaws D}.
Context (json_parse : string → option jvalue).

(** Loading routes.js does not throw: every template of the table
    compiles (none is malformed and no group name is repeated). *)
Theorem routes_compile :
  compile_routes route_table = Some routes.
Proof. vm_compute. reflexivity. Qed.

(** C19: first registered wins: the route chosen is the first one in
    declaration order whose method is equal and whose matcher accepts
    the URL; no earlier route does. *)
Theorem find_route_first (rs : list route) (method url : string) (r : route) :
  find_route rs method url = Some r →
  ∃ pre post, rs = pre ++ r :: post ∧
    route_method r = method ∧ test (route_path r) url = true ∧
    Forall (λ r', route_method r' ≠ method ∨ test (route_path r') url = false) pre.
Proof.
  induction rs as [|r0 rs IH]; simpl; [done|].
  destruct (bool_decide (route_method r0 = method) && test (route_path r0) url) eqn:E.
  - intros [= <-]. apply andb_true_iff in E as [Hm Ht].
    apply bool_decide_eq_true in Hm. exists [], rs. by split_and!.
  - intros (pre & post & -> & Hm & Ht & Hpre)%IH. exists (r0 :: pre), post.
    split_and!; [done..|]. constructor; [|done].
    apply andb_false_iff in E as [E|E]; [left|by right].
    by apply bool_decide_eq_false in E.
Qed.

Lemma find_route_put (url : string) :
  find_route routes "PUT" url =
    if test ex_item_template url then Some (mk_route "PUT" ex_item_template HUpdate) else None.
Proof. vm_compute. reflexivity. Qed.

(** C23: below [/tasks/] only PUT, DELETE and PATCH have routes: a GET
    or a POST of [/tasks/<x>] that is not the import (whose test
    compares the whole URL, so [/tasks/import-csv?x=1] or
    [/tasks/import-csv/] is not one) is answered 404 with an empty body
    and changes nothing, whatever [x] and the body are. *)
Theorem serve_unrouted_subpath (e : env) (d : D) (m x : string) (chunks : list string) :
  m = "GET" ∨ m = "POST" →
  is_import (mk_raw m ("/tasks/" +:+ x) chunks) = false →
  serve json_parse e d (mk_raw m ("/tasks/" +:+ x) chunks) = (d, Reply (text 404 "")).
Proof.
  intros Hm Hi. unfold serve. rewrite Hi.
  destruct Hm as [->| ->]; vm_compute; reflexivity.
Qed.

(** The scenario of spec.md section 8 through the dispatcher: a
    malformed identifier is answered 400 by PATCH .../complete and
    404 by DELETE, and neither changes the datastore. *)
Theorem dispatch_malformed_id (e : env) (d : D) :
  dispatch json_parse routes e d (mk_raw "PATCH" "/tasks/not-a-uuid/complete" []) =
    (d, text 400 "Invalid id.") ∧
  dispatch json_parse routes e d (mk_raw "DELETE" "/tasks/not-a-uuid" []) =
    (d, text 404 "Invalid id.").
Proof. split; vm_compute; reflexivity. Qed.
Lemma dispatch_found (rs : list route) (e : env) (d : D) (rq : raw_request) (r : route)
    (bs : bindings) (q : option string) :
  find_route rs (rq_method rq) (rq_url rq) = Some r →
  exec (route_path r) (rq_url rq) = Some (bs, q) →
  dispatch json_parse rs e d rq =
    handler_of (route_handler r) e d (mk_request (params_of bs) (query_of q) (body_of json_parse rq)).
Proof. intros Hf He. unfold dispatch. by rewrite Hf, He. Qed.

(** A [POST /tasks] whose body [JSON.parse] reads as the object
    [{title, description}] creates the task and answers 201. *)
Lemma serve_import_post (e : env) (d : D) (t s : string) :
  json_parse (json_stringify_record t s) = Some (JObj [("title", JStr t); ("description", JStr s)]) →
  serve json_parse e d (import_post (json_stringify_record t s)) =
    (ds_insert d "tasks" (new_task e t s), Reply (text 201 "")).
Proof.
  intros Hp. unfold serve.
  assert (is_import (import_post (json_stringify_record t s)) = false) as -> by reflexivity.
  rewrite (dispatch_found _ _ _ _ (mk_route "POST" (default [] (compile "/tasks")) HCreate) [] None)
    by reflexivity.
  unfold body_of. simpl foldr. rewrite append_nil_r, Hp. reflexivity.
Qed.

(** C16: the scenario of spec.md section 8 through the server: a POST
    of [{"title":t,"description":s}] (as [JSON.stringify] writes it)
    answers 201, and a following GET /tasks answers 200 with the
    tasks held before and the new task at the end. *)
Theorem post_then_list (e : env) (d : D) (t s : string) :
  json_parse (json_stringify_record t s) = Some (JObj [("title", JStr t); ("description", JStr s)]) →
  let '(d1, r1) := serve json_parse e d (mk_raw "POST" "/tasks" [json_stringify_record t s]) in
  r1 = Reply (text 201 "") ∧
  snd (serve json_parse e d1 (mk_raw "GET" "/tasks" [])) =
    Reply (mk_response 200 (RJson (table_of d "tasks" ++ [new_task e t s]))).
Proof.
  intros Hp. change (mk_raw "POST" "/tasks" [json_stringify_record t s])
    with (import_post (json_stringify_record t s)).
  rewrite serve_import_post by exact Hp.
  split; [done|]. unfold serve.
  assert (is_import (mk_raw "GET" "/tasks" []) = false) as -> by reflexivity.
  rewrite (dispatch_found _ _ _ _ (mk_route "GET" (default [] (compile "/tasks")) HList) [] None)
    by reflexivity.
  simpl. unfold list_tasks. simpl. by rewrite ds_select_spec, table_of_insert.
Qed.

(** C22: a query string after an identifier is taken into the
    identifier (the parameter accepts every character but ['/']), so
    [PUT /tasks/<id>?<w>] answers 404 [Invalid id.] and changes
    nothing, whatever the datastore holds (a task [<id>] included) and
    whatever the body is. *)
Theorem dispatch_put_query (e : env) (d : D) (id w : string) (chunks : list string) :
  slash ∉ String.list_ascii_of_string (id +:+ "?" +:+ w) →
  dispatch json_parse routes e d (mk_raw "PUT" ("/tasks/" +:+ id +:+ "?" +:+ w) chunks) =
    (d, text 404 "Invalid id.").
Proof.
  intros Hsl. set (v := id +:+ "?" +:+ w).
  assert (v ≠ "") as Hne by (subst v; by destruct id).
  assert (is_uuid v = false) as Hu.
  { apply (is_uuid_reject _ qmark); [|done..].
    subst v. rewrite !list_ascii_app. set_solver. }
  change (slash ∉ String.list_ascii_of_string v) in Hsl. clearbody v. unfold dispatch. simpl rq_method. simpl rq_url.
  rewrite find_route_put. unfold test. rewrite exec_final_param by done. simpl.
  rewrite exec_final_param by done. unfold update_task, params_schema. simpl.
  by rewrite lookup_insert_eq, Hu.
Qed.
Lemma handler_response_ok (n : route_name) (e : env) (d : D) (req : request) :
  response_ok (snd (handler_of n e d req)) = true.
Proof.
  destruct n; simpl;
    unfold list_tasks, create_task, update_task, delete_task, complete_task;
    repeat case_match; reflexivity.
Qed.

(** Every answer of the server is well formed: its status is one
    of 200, 201, 204, 400 and 404, and only a 200 carries the rows as
    JSON; an import is the only request answered with a stream. *)
Theorem serve_response_ok (e : env) (d d' : D) (rq : raw_request) (res : response) :
  serve json_parse e d rq = (d', Reply res) → response_ok res = true.
Proof.
  unfold serve. destruct (is_import rq); [done|].
  unfold dispatch. destruct (find_route _ _ _) as [r|]; [|by intros [= _ <-]].
  destruct (exec _ _) as [[bs q]|]; [|by intros [= _ <-]].
  pose proof (handler_response_ok (route_handler r) e d
    (mk_request (params_of bs) (query_of q) (body_of json_parse rq))) as Hok.
  destruct (handler_of _ _ _ _) as [d1 res1]. intros [= _ <-]. exact Hok.
Qed.
End DispatchTheorems.


(** ** The invariant holds in every reachable state *)

Section MachineTheorems.
Context `{DatastoreLaws D}.
Context (json_parse : string → option jvalue).

Lemma handler_inv (n : route_name) (e : env) (d : D) (req : request) :
  env_ok d e → tasks_inv d → tasks_inv (fst (handler_of n e d req)).
Proof.
  intros He Hi. destruct n; simpl.
  - exact Hi.
  - by apply create_task_inv.
  - by apply update_task_inv.
  - by apply delete_task_inv.
  - by apply complete_task_inv.
Qed.

(** A served request leaves the datastore as it was or as one handler
    leaves it. *)
Lemma serve_cases (e : env) (d d' : D) (rq : raw_request) (rep : reply) :
  serve json_parse e d rq = (d', rep) → d' = d ∨ ∃ n req, d' = fst (handler_of n e d req).
Proof.
  unfold serve, dispatch. destruct (is_import rq); [intros [= <- _]; by left|].
  destruct (find_route _ _ _) as [r|]; [|intros [= <- _]; by left].
  destruct (exec _ _) as [[bs q]|]; [|intros [= <- _]; by left].
  destruct (handler_of _ _ _ _) as [d1 res] eqn:E. intros [= <- _]. right.
  eexists _, _. by rewrite E.
Qed.

Lemma step_db (s s' : server D) :
  step json_parse s s' →
  srv_db s' = srv_db s ∨ ∃ n e req, env_ok (srv_db s) e ∧ srv_db s' = fst (handler_of n e (srv_db s) req).
Proof.
  destruct 1 as [s e rq d' rep He Hs|s1 s2 [s e pre record post d' rep _ He Hs|]]; simpl; [..|by left];
    destruct (serve_cases _ _ _ _ _ Hs) as [->|(n & req & ->)]; eauto 10.
Qed.

Lemma step_inv (s s' : server D) :
  step json_parse s s' → tasks_inv (srv_db s) → tasks_inv (srv_db s').
Proof.
  intros [->|(n & e & req & He & ->)]%step_db Hi; [done|by apply handler_inv].
Qed.

Lemma handler_kept (n : route_name) (e : env) (d : D) (req : request) :
  tasks_inv d → created_kept d (fst (handler_of n e d req)).
Proof.
  intros Hi. destruct n; simpl.
  - apply created_kept_refl.
  - apply create_task_kept.
  - apply update_task_kept.
  - by apply delete_task_kept.
  - apply complete_task_kept.
Qed.

(** C1: the invariant of the task table holds in every state the
    server reaches, whatever the interleaving of client requests and
    in-flight import posts: every task has exactly the six fields, an
    addressable UUID, [updated_at] not before [created_at], and no two
    tasks share an identifier. *)
Theorem reachable_tasks_inv (s s' : server D) :
  tasks_inv (srv_db s) → rtc (step json_parse) s s' → tasks_inv (srv_db s').
Proof. intros Hi Hsteps. induction Hsteps; eauto using step_inv. Qed.
(** C2: no event changes the creation time of a task: in every state
    the server reaches from one satisfying the invariant, a request or
    a delivered post leaves each task that is still there (found by
    its identifier) with the [created_at] it had. *)
Theorem created_at_stable (s0 s s' : server D) (id : string) (r r' : row) :
  tasks_inv (srv_db s0) → rtc (step json_parse) s0 s → step json_parse s s' →
  find_id (table_of (srv_db s) "tasks") id = Some r →
  find_id (table_of (srv_db s') "tasks") id = Some r' →
  r' !! "created_at" = r !! "created_at".
Proof.
  intros Hi0 Hr Hs. assert (tasks_inv (srv_db s)) as Hi by (induction Hr; eauto using step_inv).
  destruct (step_db _ _ Hs) as [->|(n & e & req & He & ->)]; [apply created_kept_refl|].
  by apply handler_kept.
Qed.
End MachineTheorems.

(** ** Persistence of the server's datastore *)

Lemma handler_persisted (n : route_name) (e : env) (d : db) (req : request) :
  persisted d → persisted (fst (handler_of n e d req)).
Proof.
  intros Hp. destruct n; simpl.
  - exact Hp.
  - unfold create_task. destruct (body_schema _) as [[t de]|]; [apply persist_persisted|exact Hp].
  - unfold update_task. destruct (params_schema _) as [id|]; [|exact Hp].
    destruct (body_schema _) as [[t de]|]; [|exact Hp].
    destruct (ds_first _ _ _) as [task|]; [|exact Hp].
    exact (apply_op_persisted d (OpUpdate _ _ _) Hp).
  - unfold delete_task. destruct (params_schema _) as [id|]; [|exact Hp].
    destruct (ds_first _ _ _); [apply persist_persisted|exact Hp].
  - unfold complete_task. destruct (params_schema _) as [id|]; [|exact Hp].
    destruct (ds_first _ _ _) as [task|]; [|exact Hp].
    exact (apply_op_persisted d (OpUpdate _ _ _) Hp).
Qed.

Lemma serve_persisted (json_parse : string → option jvalue) (e : env) (d d' : db)
    (rq : raw_request) (rep : reply) :
  persisted d → serve json_parse e d rq = (d', rep) → persisted d'.
Proof.
  intros Hp. unfold serve. destruct (is_import rq); [by intros [= <- _]|].
  unfold dispatch. destruct (find_route _ _ _) as [r|]; [|by intros [= <- _]].
  destruct (exec _ _) as [[bs q]|]; [|by intros [= <- _]].
  destruct (handler_of _ _ _ _) as [d1 res] eqn:E. intros [= <- _].
  pose proof (handler_persisted (route_handler r) e d
    (mk_request (params_of bs) (query_of q) (body_of json_parse rq)) Hp) as H1.
  by rewrite E in H1.
Qed.

(** The persistence contract seen from the server: in every state
    reached from a datastore loaded at start-up, the backing file holds
    the in-memory tables, so a restart of the process reloads exactly
    the tasks the server had. *)
Theorem restart_reloads_tasks (json_parse : string → option jvalue) (file : option tables)
    (s : server db) :
  rtc (step json_parse) (initial_server file) s →
  db_mem (restart (srv_db s)) = db_mem (srv_db s).
Proof.
  intros Hsteps.
  assert (persisted (srv_db s)) as Hp.
  { remember (initial_server file) as s0 eqn:Hs0.
    assert (persisted (srv_db s0)) as H0 by (subst; apply db_load_persisted).
    clear Hs0. induction Hsteps as [s0|s0 s1 s2 Hstep _ IH]; [done|].
    apply IH. destruct Hstep as [|s0 s1 []]; simpl in *; eauto using serve_persisted. }
  exact Hp.
Qed.

(** ** Examples on concrete inputs *)

Lemma find_route_first_witness :
  find_route routes "PATCH" "/tasks/abc/complete" =
    Some (mk_route "PATCH" (default [] (compile "/tasks/:id/complete")) HComplete) ∧
  ∃ pre post, routes = pre ++ mk_route "PATCH" (default [] (compile "/tasks/:id/complete")) HComplete :: post ∧
    route_method (mk_route "PATCH" (default [] (compile "/tasks/:id/complete")) HComplete) = "PATCH" ∧
    test (route_path (mk_route "PATCH" (default [] (compile "/tasks/:id/complete")) HComplete))
      "/tasks/abc/complete" = true ∧
    Forall (λ r', route_method r' ≠ "PATCH" ∨ test (route_path r') "/tasks/abc/complete" = false) pre.
Proof.
  assert (find_route routes "PATCH" "/tasks/abc/complete" =
    Some (mk_route "PATCH" (default [] (compile "/tasks/:id/complete")) HComplete)) as Hf
    by reflexivity.
  split; [exact Hf|exact (find_route_first _ _ _ _ Hf)].
Defined.

Lemma post_then_list_witness :
  ex_parse (json_stringify_record "Buy eggs" "a dozen") =
    Some (JObj [("title", JStr "Buy eggs"); ("description", JStr "a dozen")]) ∧
  let '(d1, r1) := serve ex_parse ex_env ex_db (mk_raw "POST" "/tasks" [json_stringify_record "Buy eggs" "a dozen"]) in
  r1 = Reply (text 201 "") ∧
  snd (serve ex_parse ex_env d1 (mk_raw "GET" "/tasks" [])) =
    Reply (mk_response 200 (RJson (table_of ex_db "tasks" ++ [new_task ex_env "Buy eggs" "a dozen"]))).
Proof.
  assert (ex_parse (json_stringify_record "Buy eggs" "a dozen") =
    Some (JObj [("title", JStr "Buy eggs"); ("description", JStr "a dozen")])) as Hp by reflexivity.
  split; [exact Hp|exact (post_then_list ex_parse ex_env ex_db _ _ Hp)].
Defined.

Lemma reachable_tasks_inv_witness :
  tasks_inv (srv_db ex_server) ∧
  rtc (step ex_parse) ex_server
    (mk_server (fst (serve ex_parse ex_env ex_db ex_post))
               ([] ++ posts_of (snd (serve ex_parse ex_env ex_db ex_post))) []) ∧
  tasks_inv (fst (serve ex_parse ex_env ex_db ex_post)).
Proof.
  assert (tasks_inv (srv_db ex_server)) as Hi by decide_by_eval.
  assert (rtc (step ex_parse) ex_server
    (mk_server (fst (serve ex_parse ex_env ex_db ex_post))
               ([] ++ posts_of (snd (serve ex_parse ex_env ex_db ex_post))) [])) as Hs.
  { apply rtc_once. apply (step_request ex_parse ex_server ex_env ex_post).
    - decide_by_eval.
    - apply surjective_pairing. }
  split_and!; [exact Hi|exact Hs|exact (reachable_tasks_inv ex_parse _ _ Hi Hs)].
Defined.

Lemma restart_reloads_tasks_witness :
  rtc (step ex_parse) (initial_server (Some {["tasks" := [ex_task]]}))
    (mk_server (fst (serve ex_parse ex_env ex_db ex_post))
               ([] ++ posts_of (snd (serve ex_parse ex_env ex_db ex_post))) []) ∧
  db_mem (restart (fst (serve ex_parse ex_env ex_db ex_post))) =
    db_mem (fst (serve ex_parse ex_env ex_db ex_post)).
Proof.
  assert (rtc (step ex_parse) (initial_server (Some {["tasks" := [ex_task]]}))
    (mk_server (fst (serve ex_parse ex_env ex_db ex_post))
               ([] ++ posts_of (snd (serve ex_parse ex_env ex_db ex_post))) [])) as Hs.
  { apply rtc_once. apply (step_request ex_parse ex_server ex_env ex_post).
    - decide_by_eval.
    - apply surjective_pairing. }
  split; [exact Hs|exact (restart_reloads_tasks ex_parse _ _ Hs)].
Defined.

Lemma serve_response_ok_witness :
  serve ex_parse ex_env ex_db ex_post = (ds_insert ex_db "tasks" (new_task ex_env "Buy eggs" "a dozen"),
    Reply (text 201 "")) ∧
  response_ok (text 201 "") = true.
Proof.
  assert (serve ex_parse ex_env ex_db ex_post = (ds_insert ex_db "tasks" (new_task ex_env "Buy eggs" "a dozen"),
    Reply (text 201 ""))) as Hs by reflexivity.
  split; [exact Hs|exact (serve_response_ok ex_parse ex_env _ _ _ _ Hs)].
Defined.

Lemma created_at_stable_witness :
  tasks_inv (srv_db ex_server) ∧ rtc (step ex_parse) ex_server ex_server ∧
  step ex_parse ex_server
    (mk_server (fst (serve ex_parse ex_env ex_db ex_put))
               ([] ++ posts_of (snd (serve ex_parse ex_env ex_db ex_put))) []) ∧
  find_id (table_of (srv_db ex_server) "tasks") ex_id = Some ex_task ∧
  find_id (table_of (fst (serve ex_parse ex_env ex_db ex_put)) "tasks") ex_id =
    Some (edit_fields ex_task "Buy eggs" "a dozen" (env_now ex_env) ∪ ex_task) ∧
  (edit_fields ex_task "Buy eggs" "a dozen" (env_now ex_env) ∪ ex_task) !! "created_at" =
    ex_task !! "created_at".
Proof.
  assert (tasks_inv (srv_db ex_server)) as Hi by decide_by_eval.
  assert (step ex_parse ex_server
    (mk_server (fst (serve ex_parse ex_env ex_db ex_put))
               ([] ++ posts_of (snd (serve ex_parse ex_env ex_db ex_put))) [])) as Hs.
  { apply (step_request ex_parse ex_server ex_env ex_put).
    - decide_by_eval.
    - apply surjective_pairing. }
  assert (find_id (table_of (srv_db ex_server) "tasks") ex_id = Some ex_task) as H1
    by reflexivity.
  assert (find_id (table_of (fst (serve ex_parse ex_env ex_db ex_put)) "tasks") ex_id =
    Some (edit_fields ex_task "Buy eggs" "a dozen" (env_now ex_env) ∪ ex_task)) as H2
    by reflexivity.
  split_and!; [exact Hi|apply rtc_refl|exact Hs|exact H1|exact H2|].
  exact (created_at_stable ex_parse ex_server ex_server _ ex_id _ _ Hi (rtc_refl _ _) Hs H1 H2).
Defined.

Lemma dispatch_put_query_witness :
  slash ∉ String.list_ascii_of_string (ex_id +:+ "?" +:+ "x=1") ∧
  find_id (table_of ex_db "tasks") ex_id = Some ex_task ∧
  dispatch ex_parse routes ex_env ex_db (mk_raw "PUT" ("/tasks/" +:+ ex_id +:+ "?" +:+ "x=1") [ex_post_body]) =
    (ex_db, text 404 "Invalid id.").
Proof.
  assert (slash ∉ String.list_ascii_of_string (ex_id +:+ "?" +:+ "x=1")) as Hs by decide_by_eval.
  split_and!; [exact Hs|reflexivity|exact (dispatch_put_query ex_parse ex_env ex_db _ _ _ Hs)].
Defined.

Lemma serve_unrouted_subpath_witness :
  is_import (mk_raw "POST" ("/tasks/" +:+ "import-csv?x=1") [ex_post_body]) = false ∧
  serve ex_parse ex_env ex_db (mk_raw "POST" ("/tasks/" +:+ "import-csv?x=1") [ex_post_body]) =
    (ex_db, Reply (text 404 "")).
Proof.
  assert (is_import (mk_raw "POST" ("/tasks/" +:+ "import-csv?x=1") [ex_post_body]) = false) as Hi
    by reflexivity.
  split; [exact Hi|exact (serve_unrouted_subpath ex_parse ex_env ex_db _ _ _ (or_intror eq_refl) Hi)].
Defined.
