(* ===== verification/Pipeline.v ===== *)
(** * The CSV import end to end (server.js, lines 8-57, with the POST
      /tasks route of routes.js)

    The import answers with its outcome stream and leaves one post per
    accepted row in flight; every post is a [POST /tasks] whose body is
    [JSON.stringify({title, description})].  With [JSON.parse] of
    JsonParse.v as the parser of the body middleware, delivering the
    post of a row creates a task with that row's fields
    ([import_row_creates_task]); the import request followed by the
    delivery of its posts, in order, creates one task per row, in the
    order of the file ([import_creates_all_rows]).  The posts in flight never fire posts
    of their own, so the background activity of the server (deliveries
    and lost posts, [bstep]) always comes to an end
    ([background_terminates]); along it every post is reported exactly
    once ([background_accounts]), and every state can settle all its
    posts ([background_drains]). *)

From stdpp Require Import base list gmap strings relations well_founded.
From S2P Require Import Prelude Json JsonParse Router Store Database Handlers Fresh CsvImport Server.

(** The data the outcomes report, followed by the posts still in
    flight. *)
Definition accounted {D} (s : server D) : list string :=
  (oc_data <$> srv_outcomes s) ++ srv_inflight s.

(** A CSV body with one row, for the examples. *)
Definition ex_csv : list string := [csv_text ["title,description"; "A,B"; ""]].

Section Background.
Context `{Datastore D}.
Context (json_parse : string → option jvalue).

(** The posts of an import go to [/tasks], not to the import URL, so
    their answers never leave posts in flight. *)
Lemma serve_import_post_posts (e : env) (d d' : D) (record : string) (rep : reply) :
  serve json_parse e d (import_post record) = (d', rep) → posts_of rep = [].
Proof.
  unfold serve. assert (is_import (import_post record) = false) as -> by reflexivity.
  destruct (dispatch _ _ _ _ _). by intros [= _ <-].
Qed.

Lemma bstep_cases (s s' : server D) :
  bstep json_parse s s' →
  ∃ pre record post b, srv_inflight s = pre ++ record :: post ∧
    srv_inflight s' = pre ++ post ∧ srv_outcomes s' = srv_outcomes s ++ [mk_outcome b record].
Proof.
  destruct 1 as [s e pre record post d' rep Hin He Hs|s pre record post Hin]; simpl.
  - apply serve_import_post_posts in Hs. rewrite Hs, app_nil_r. eauto 10.
  - eauto 10.
Qed.

Lemma bstep_inflight_length (s s' : server D) :
  bstep json_parse s s' → length (srv_inflight s') < length (srv_inflight s).
Proof.
  intros (pre & record & post & b & Hin & Hin' & _)%bstep_cases.
  rewrite Hin, Hin', !length_app. simpl. lia.
Qed.

Lemma bstep_accounted (s s' : server D) :
  bstep json_parse s s' →
  accounted s' ≡ₚ accounted s ∧ srv_outcomes s `prefix_of` srv_outcomes s'.
Proof.
  intros (pre & record & post & b & Hin & Hin' & Ho)%bstep_cases.
  unfold accounted. rewrite Hin, Hin', Ho, fmap_app. simpl. split.
  - rewrite <-app_assoc. simpl. apply Permutation_app_head. by rewrite Permutation_middle.
  - by eexists.
Qed.

Lemma bstep_lost_head (s : server D) (record : string) (post : list string) :
  srv_inflight s = record :: post →
  bstep json_parse s (mk_server (srv_db s) post (srv_outcomes s ++ [mk_outcome false record])).
Proof. intros Hin. apply (bstep_lost json_parse s []). exact Hin. Qed.

(** The background activity of the server terminates: there is
    no infinite sequence of deliveries and lost posts, because a
    delivered post ([POST /tasks]) never fires posts of its own; each
    background step settles one post of the finite set in flight. *)
Theorem background_terminates : well_founded (λ s' s : server D, bstep json_parse s s').
Proof.
  apply (wf_projected (<) (λ s, length (srv_inflight s))); [|apply lt_wf].
  intros s' s. apply bstep_inflight_length.
Qed.

(** C18: along the background activity every post is reported exactly
    once: the data of the outcomes, followed by the posts in flight,
    stay the same multiset, and outcomes are only ever appended. *)
Theorem background_accounts (s s' : server D) :
  rtc (bstep json_parse) s s' →
  accounted s' ≡ₚ accounted s ∧ srv_outcomes s `prefix_of` srv_outcomes s'.
Proof.
  induction 1 as [s|s s1 s2 Hb _ [IHp IHo]]; [done|].
  destruct (bstep_accounted s s1 Hb) as [Hp Ho]. split.
  - by rewrite IHp, Hp.
  - by transitivity (srv_outcomes s1).
Qed.

End Background.

(** ** Properties *)

Section PipelineTheorems.
Context `{DatastoreLaws D}.

(** An import is answered with the stream of its outcomes and changes
    nothing by itself. *)
Lemma serve_import (json_parse : string → option jvalue) (e : env) (d : D) (chunks : list string) :
  serve json_parse e d (mk_raw "POST" "/tasks/import-csv" chunks) = (d, Stream (csv_import chunks)).
Proof. reflexivity. Qed.

(** Delivering the post of a row creates the task, with [JSON.parse]. *)
Lemma deliver_record_creates (s : server D) (e : env) (pre post : list string) (t d : string) :
  srv_inflight s = pre ++ json_stringify_record t d :: post → env_ok (srv_db s) e →
  bstep JSON_parse s
    (mk_server (ds_insert (srv_db s) "tasks" (new_task e t d)) (pre ++ post)
       (srv_outcomes s ++ [mk_outcome true (json_stringify_record t d)])).
Proof.
  intros Hin He.
  pose proof (bstep_deliver JSON_parse s e pre _ post _ _ Hin He
    (serve_import_post JSON_parse e (srv_db s) t d (JSON_parse_stringify_record t d))) as Hb.
  simpl in Hb. by rewrite app_nil_r in Hb.
Qed.

(** Delivering, in order, the posts of [rows] at the end of the posts
    in flight creates one task per row, each with the fields of its
    row, and reports each post as a success. *)
Lemma deliver_records (rows : list (string * string)) (s : server D) (pre : list string) :
  srv_inflight s = pre ++ import_records rows →
  length (table_of (srv_db s) "tasks") + length rows < 16 ^ 12 →
  ∃ s' es, rtc (bstep JSON_parse) s s' ∧ srv_inflight s' = pre ∧ length es = length rows ∧
    table_of (srv_db s') "tasks" =
      table_of (srv_db s) "tasks" ++ zip_with (λ e p, new_task e p.1 p.2) es rows ∧
    srv_outcomes s' = srv_outcomes s ++ (mk_outcome true <$> import_records rows).
Proof.
  revert s. induction rows as [|[t d] rows IH]; intros s Hin Hb.
  - exists s, []. rewrite Hin, !app_nil_r. by split_and!.
  - cbn [length] in Hb. destruct (env_ok_exists (srv_db s)) as [e He]; [lia|].
    pose proof (deliver_record_creates s e pre (import_records rows) t d Hin He) as Hd.
    destruct (IH (mk_server (ds_insert (srv_db s) "tasks" (new_task e t d))
      (pre ++ import_records rows) (srv_outcomes s ++ [mk_outcome true (json_stringify_record t d)]))
      eq_refl) as (s' & es & Hr & Hi & Hl & Ht & Ho);
      [cbn [srv_db]; rewrite table_of_insert, length_app; cbn [length]; lia|].
    exists s', (e :: es). split_and!; [by eapply rtc_l|done|simpl; by f_equal|..].
    + rewrite Ht. cbn [srv_db]. rewrite table_of_insert, <-app_assoc. done.
    + rewrite Ho. cbn [srv_outcomes]. by rewrite <-app_assoc.
Qed.

(** C11: the CSV import end to end, for all its rows: from any state
    (with fewer than [16 ^ 12] tasks and rows together), the import
    request followed by the delivery of its posts, in order, creates
    one task per accepted row, with the fields of the rows in the
    order of the file, reports every post as a success, and leaves the
    other posts in flight as they were. *)
Theorem import_creates_all_rows (s : server D) (chunks : list string) :
  length (table_of (srv_db s) "tasks") + length (csv_import chunks) < 16 ^ 12 →
  ∃ s' es, rtc (step JSON_parse) s s' ∧ srv_inflight s' = srv_inflight s ∧
    length es = length (csv_import chunks) ∧
    table_of (srv_db s') "tasks" =
      table_of (srv_db s) "tasks" ++ zip_with (λ e p, new_task e p.1 p.2) es (csv_import chunks) ∧
    srv_outcomes s' = srv_outcomes s ++ (mk_outcome true <$> import_records (csv_import chunks)).
Proof.
  intros Hb. destruct (env_ok_exists (srv_db s)) as [e He]; [lia|].
  set (s1 := mk_server (srv_db s) (srv_inflight s ++ import_records (csv_import chunks))
               (srv_outcomes s)).
  assert (step JSON_parse s s1) as H1.
  { apply (step_request _ s e (mk_raw "POST" "/tasks/import-csv" chunks) (srv_db s)
      (Stream (csv_import chunks))); [done|]. apply serve_import. }
  destruct (deliver_records (csv_import chunks) s1 (srv_inflight s) eq_refl Hb)
    as (s' & es & Hr & Hi & Hl & Ht & Ho).
  exists s', es. split_and!; [|done|done|done|done].
  eapply rtc_l; [exact H1|]. by apply (rtc_subrel (bstep JSON_parse)); [apply step_background|].
Qed.

(** C10: the CSV import end to end: once an import request has been
    served, the post of any row it accepted can be delivered; it
    creates a task with the row's two trimmed fields (through
    [JSON.stringify], the network and [JSON.parse]) and the import
    reports its success. *)
Theorem import_row_creates_task (s : server D) (e : env) (chunks : list string) (t d : string) :
  (t, d) ∈ csv_import chunks → env_ok (srv_db s) e →
  ∃ s1 s2, step JSON_parse s s1 ∧ step JSON_parse s1 s2 ∧
    table_of (srv_db s2) "tasks" = table_of (srv_db s) "tasks" ++ [new_task e t d] ∧
    srv_outcomes s2 = srv_outcomes s ++ [mk_outcome true (json_stringify_record t d)].
Proof.
  intros Hrow He.
  set (s1 := mk_server (srv_db s) (srv_inflight s ++ import_records (csv_import chunks))
               (srv_outcomes s)).
  assert (step JSON_parse s s1) as H1.
  { apply (step_request _ s e (mk_raw "POST" "/tasks/import-csv" chunks) (srv_db s)
      (Stream (csv_import chunks))); [done|]. apply serve_import. }
  apply (list_elem_of_fmap_2 (λ p, json_stringify_record p.1 p.2)) in Hrow.
  apply list_elem_of_split in Hrow as (pre & post & Hsplit).
  eexists s1, _. split_and!; [exact H1| | |].
  - apply step_background, (deliver_record_creates s1 e (srv_inflight s ++ pre) post t d);
      [|exact He].
    simpl. unfold import_records. rewrite Hsplit. by rewrite <-app_assoc.
  - simpl. by rewrite table_of_insert.
  - done.
Qed.

(** A post of an import is served by the create route: at most one
    task more. *)
Lemma serve_import_post_table (json_parse : string → option jvalue) (e : env) (d d' : D)
    (record : string) (rep : reply) :
  serve json_parse e d (import_post record) = (d', rep) →
  length (table_of d' "tasks") ≤ S (length (table_of d "tasks")).
Proof.
  unfold serve. assert (is_import (import_post record) = false) as -> by reflexivity.
  rewrite (dispatch_found _ _ _ _ _ (mk_route "POST" (default [] (compile "/tasks")) HCreate) [] None)
    by reflexivity.
  simpl. unfold create_task. destruct (body_schema _) as [[t de]|]; intros [= <- _]; [|lia].
  rewrite table_of_insert, length_app. simpl. lia.
Qed.

(** Every post in flight can be delivered: from any state (whose
    tasks and posts in flight number fewer than [16 ^ 12], so that
    fresh identifiers remain), the background activity alone can
    deliver all the posts, in order, each reported as a success. *)
Theorem background_drains (json_parse : string → option jvalue) (s : server D) :
  length (table_of (srv_db s) "tasks") + length (srv_inflight s) < 16 ^ 12 →
  ∃ s', rtc (bstep json_parse) s s' ∧ srv_inflight s' = [] ∧
    srv_outcomes s' = srv_outcomes s ++ (mk_outcome true <$> srv_inflight s).
Proof.
  remember (srv_inflight s) as l eqn:Hl. revert s Hl.
  induction l as [|r l IH]; intros s Hl Hb.
  - exists s. split_and!; [done|done|by rewrite app_nil_r].
  - cbn [length] in Hb.
    destruct (env_ok_exists (srv_db s)) as [e He]; [lia|].
    destruct (serve json_parse e (srv_db s) (import_post r)) as [d' rep] eqn:Hs.
    pose proof (serve_import_post_posts json_parse e _ _ _ _ Hs) as Hp.
    pose proof (serve_import_post_table json_parse e _ _ _ _ Hs) as Ht.
    assert (bstep json_parse s (mk_server d' l (srv_outcomes s ++ [mk_outcome true r]))) as Hb1.
    { pose proof (bstep_deliver json_parse s e [] r l d' rep (eq_sym Hl) He Hs) as Hd.
      simpl in Hd. by rewrite Hp, app_nil_r in Hd. }
    destruct (IH (mk_server d' l (srv_outcomes s ++ [mk_outcome true r])) eq_refl)
      as (s' & Hr & Hnil & Ho); [cbn [srv_db srv_inflight]; lia|].
    exists s'. split_and!; [by eapply rtc_l|done|].
    rewrite Ho. cbn [srv_outcomes fmap list_fmap]. by rewrite <-app_assoc.
Qed.

End PipelineTheorems.

(** ** Examples on concrete inputs *)

Lemma import_row_creates_task_witness :
  ("A", "B") ∈ csv_import ex_csv ∧ env_ok (srv_db ex_server) ex_env ∧
  ∃ s1 s2, step JSON_parse ex_server s1 ∧ step JSON_parse s1 s2 ∧
    table_of (srv_db s2) "tasks" = table_of (srv_db ex_server) "tasks" ++ [new_task ex_env "A" "B"] ∧
    srv_outcomes s2 = srv_outcomes ex_server ++ [mk_outcome true (json_stringify_record "A" "B")].
Proof.
  assert (("A", "B") ∈ csv_import ex_csv) as Hin by (vm_compute; left).
  assert (env_ok (srv_db ex_server) ex_env) as He by decide_by_eval.
  split_and!; [exact Hin|exact He|exact (import_row_creates_task _ _ _ _ _ Hin He)].
Defined.

Lemma background_accounts_witness :
  rtc (bstep JSON_parse) (mk_server ex_db [ex_post_body] [])
    (mk_server ex_db [] [mk_outcome false ex_post_body]) ∧
  accounted (mk_server ex_db [] [mk_outcome false ex_post_body]) ≡ₚ
    accounted (mk_server ex_db [ex_post_body] []) ∧
  srv_outcomes (mk_server ex_db [ex_post_body] []) `prefix_of`
    srv_outcomes (mk_server ex_db [] [mk_outcome false ex_post_body]).
Proof.
  assert (rtc (bstep JSON_parse) (mk_server ex_db [ex_post_body] [])
    (mk_server ex_db [] [mk_outcome false ex_post_body])) as Hr
    by (apply rtc_once, (bstep_lost_head _ (mk_server ex_db [ex_post_body] []) ex_post_body []);
        reflexivity).
  split; [exact Hr|exact (background_accounts _ _ _ Hr)].
Defined.

Lemma background_drains_witness :
  length (table_of (srv_db (mk_server ex_db [ex_post_body] [])) "tasks") +
    length (srv_inflight (mk_server ex_db [ex_post_body] [])) < 16 ^ 12 ∧
  ∃ s', rtc (bstep JSON_parse) (mk_server ex_db [ex_post_body] []) s' ∧ srv_inflight s' = [] ∧
    srv_outcomes s' = srv_outcomes (mk_server ex_db [ex_post_body] []) ++
      (mk_outcome true <$> srv_inflight (mk_server ex_db [ex_post_body] [])).
Proof.
  assert (length (table_of (srv_db (mk_server ex_db [ex_post_body] [])) "tasks") +
    length (srv_inflight (mk_server ex_db [ex_post_body] [])) = 2) as E by reflexivity.
  assert (length (table_of (srv_db (mk_server ex_db [ex_post_body] [])) "tasks") +
    length (srv_inflight (mk_server ex_db [ex_post_body] [])) < 16 ^ 12) as Hb
    by (pose proof hex_words_bound; lia).
  split; [exact Hb|exact (background_drains JSON_parse _ Hb)].
Defined.

Lemma import_creates_all_rows_witness :
  length (table_of (srv_db ex_server) "tasks") + length (csv_import ex_csv) < 16 ^ 12 ∧
  ∃ s' es, rtc (step JSON_parse) ex_server s' ∧ srv_inflight s' = srv_inflight ex_server ∧
    length es = length (csv_import ex_csv) ∧
    table_of (srv_db s') "tasks" =
      table_of (srv_db ex_server) "tasks" ++
        zip_with (λ e p, new_task e p.1 p.2) es (csv_import ex_csv) ∧
    srv_outcomes s' = srv_outcomes ex_server ++
      (mk_outcome true <$> import_records (csv_import ex_csv)).
Proof.
  assert (length (table_of (srv_db ex_server) "tasks") + length (csv_import ex_csv) = 2) as E
    by reflexivity.
  assert (length (table_of (srv_db ex_server) "tasks") + length (csv_import ex_csv) < 16 ^ 12)
    as Hb by (pose proof hex_words_bound; lia).
  split; [exact Hb|exact (import_creates_all_rows ex_server ex_csv Hb)].
Defined.
