(* ===== verification/NumberParse.v ===== *)
(** * [Number(chunk.toString())] (src/src/routes.js, line 12)

    [InverseNumberStream._transform] receives each chunk as a [Buffer].
    [chunk.toString()] decodes its bytes as UTF-8 ([utf8_decode]: the
    WHATWG decoder, an ill-formed sequence becoming one U+FFFD for its
    maximal prefix), and [Number] is ECMAScript's StringToNumber: white
    space and line terminators at both ends are removed (the Unicode
    set of [is_str_white_space]), the empty text is [+0], and what is
    left must be a [StringNumericLiteral], whose characters are ASCII:
    a [0x]/[0o]/[0b] literal, or a signed [Infinity], or a decimal
    literal with optional fraction and exponent; anything else is
    [NaN].  The value of a literal is exact ([m * 10 ^ e], or the
    integer of a [0x] literal) and RoundMVResult rounds it to a double
    ([round_pos] of Binary64.v); the sign of a zero is kept.

    [decimal_number] skips the exact computation when the exponent is
    so large or so small that the result is known to be an infinity or
    a zero; NumberStream.v shows that these shortcuts agree with the
    rounding of the exact value.  The decoder runs with fuel the number
    of bytes, which is enough: each step consumes at least one byte
    ([utf8_decode_fuel_enough]). *)

From Stdlib Require Import Ascii ZArith.
From stdpp Require Import base list strings.
From S2P Require Import Prelude JsonParse Binary64.

Local Open Scope js_scope.
Local Open Scope Z_scope.

(** A JavaScript number: [NaN], a signed zero, a signed non-zero
    finite double, or a signed infinity. *)
Inductive js_number :=
  | NumNaN
  | NumZero (negative : bool)
  | NumFinite (negative : bool) (d : double)
  | NumInfinity (negative : bool).

(** Every finite double is in canonical form. *)
Definition valid_number (x : js_number) : bool :=
  match x with
  | NumFinite _ d => valid_double d
  | _ => true
  end.

(** ** [Buffer.prototype.toString()]: UTF-8 decoding *)

Definition byte_value (c : ascii) : Z := Z.of_nat (Ascii.nat_of_ascii c).

(** [n] continuation bytes, the first in [[lower, upper]] and the
    others in [[0x80, 0xBF]]: the code point, or [None] at the first
    byte out of range, which is not consumed. *)
Fixpoint utf8_cont (n : nat) (cp lower upper : Z) (bs : list Z) : option Z * list Z :=
  match n with
  | O => (Some cp, bs)
  | S n' =>
      match bs with
      | b :: r =>
          if (lower <=? b)%Z && (b <=? upper)%Z then
            utf8_cont n' (Z.lor (Z.shiftl cp 6) (Z.land b 63)) 128 191 r
          else (None, bs)
      | [] => (None, [])
      end
  end.

(** One code point from the lead byte [b] and the bytes after it
    ([0xFFFD] for an ill-formed sequence). *)
Definition utf8_step (b : Z) (r : list Z) : Z * list Z :=
  let res :=
    if (b <=? 127)%Z then (Some b, r)
    else if (194 <=? b)%Z && (b <=? 223)%Z then utf8_cont 1 (Z.land b 31) 128 191 r
    else if (224 <=? b)%Z && (b <=? 239)%Z then
      utf8_cont 2 (Z.land b 15) (if (b =? 224)%Z then 160 else 128)
        (if (b =? 237)%Z then 159 else 191) r
    else if (240 <=? b)%Z && (b <=? 244)%Z then
      utf8_cont 3 (Z.land b 7) (if (b =? 240)%Z then 144 else 128)
        (if (b =? 244)%Z then 143 else 191) r
    else (None, r) in
  (default 65533%Z res.1, res.2).

(** Each step consumes at least the lead byte; [length] is enough fuel. *)
Fixpoint utf8_decode_fuel (fuel : nat) (bs : list Z) : list Z :=
  match fuel, bs with
  | O, _ => []
  | _, [] => []
  | S f, b :: r => let '(cp, r') := utf8_step b r in cp :: utf8_decode_fuel f r'
  end.

Definition utf8_decode (bs : list Z) : list Z := utf8_decode_fuel (length bs) bs.

(** ** StringToNumber *)

(** [WhiteSpace] and [LineTerminator] of ECMA-262 (the code points of
    category Zs, tab, vertical tab, form feed, BOM, line feed, carriage
    return, line and paragraph separators). *)
Definition is_str_white_space (c : Z) : bool :=
  ((9 <=? c) && (c <=? 13)) || (c =? 32) || (c =? 160) || (c =? 5760) ||
  ((8192 <=? c) && (c <=? 8202)) || (c =? 8232) || (c =? 8233) || (c =? 8239) ||
  (c =? 8287) || (c =? 12288) || (c =? 65279).

Fixpoint drop_white (l : list Z) : list Z :=
  match l with
  | c :: l' => if is_str_white_space c then drop_white l' else l
  | [] => []
  end.

(** TrimString at both ends. *)
Definition trim_code_points (l : list Z) : list Z := rev (drop_white (rev (drop_white l))).

(** The text as a string of ASCII characters, when all its code points
    are ASCII (the only characters of a [StringNumericLiteral]). *)
Definition ascii_text (l : list Z) : option string :=
  if forallb (λ c, c <? 128)%Z l
  then Some (String.string_of_list_ascii ((λ c, Ascii.ascii_of_nat (Z.to_nat c)) <$> l))
  else None.

(** A digit of [0x], [0o] or [0b] literals, in the given radix. *)
Definition digit_value (radix : Z) (c : ascii) : option Z :=
  let n := Z.of_nat (Ascii.nat_of_ascii c) in
  let v :=
    if (48 <=? n)%Z && (n <=? 57)%Z then Some (n - 48)%Z
    else if (97 <=? n)%Z && (n <=? 102)%Z then Some (n - 87)%Z
    else if (65 <=? n)%Z && (n <=? 70)%Z then Some (n - 55)%Z
    else None in
  match v with
  | Some d => if (d <? radix)%Z then Some d else None
  | None => None
  end.

Fixpoint radix_value_acc (radix acc : Z) (s : string) : option Z :=
  match s with
  | EmptyString => Some acc
  | String c s' =>
      match digit_value radix c with
      | Some d => radix_value_acc radix (radix * acc + d)%Z s'
      | None => None
      end
  end.

(** The value of a non-empty sequence of digits in [radix]. *)
Definition radix_value (radix : Z) (s : string) : option Z :=
  match s with
  | EmptyString => None
  | String _ _ => radix_value_acc radix 0 s
  end.

(** [0x], [0o] or [0b] (either case) at the head: the radix and the rest. *)
Definition radix_prefix (s : string) : option (Z * string) :=
  match s with
  | String z (String p r) =>
      if z === "0"%char then
        if (p === "x"%char) || (p === "X"%char) then Some (16%Z, r)
        else if (p === "o"%char) || (p === "O"%char) then Some (8%Z, r)
        else if (p === "b"%char) || (p === "B"%char) then Some (2%Z, r)
        else None
      else None
  | _ => None
  end.

(** The sign of a [StrDecimalLiteral]. *)
Definition split_sign (s : string) : bool * string :=
  match s with
  | String c r =>
      if c === "-"%char then (true, r) else if c === "+"%char then (false, r) else (false, s)
  | EmptyString => (false, s)
  end.

Definition all_digits (s : string) : bool :=
  bool_decide (s ≠ "") && forallb is_digit (String.list_ascii_of_string s).

(** The value of a sequence of decimal digits (zero when empty). *)
Definition digits_Z (s : string) : Z :=
  fold_left (λ acc c, 10 * acc + (Z.of_nat (Ascii.nat_of_ascii c) - 48))%Z
    (String.list_ascii_of_string s) 0%Z.

(** [[eE][+-]?[0-9]+], or nothing: the power of ten it denotes. *)
Definition exponent_value (s : string) : option Z :=
  match s with
  | EmptyString => Some 0%Z
  | String e r =>
      if (e === "e"%char) || (e === "E"%char) then
        match r with
        | String sg r' =>
            if sg === "+"%char then (if all_digits r' then Some (digits_Z r') else None)
            else if sg === "-"%char then (if all_digits r' then Some (- digits_Z r')%Z else None)
            else if all_digits r then Some (digits_Z r) else None
        | EmptyString => None
        end
      else None
  end.

(** [StrUnsignedDecimalLiteral] other than [Infinity]: digits with an
    optional fraction, or a fraction alone, then an optional exponent.
    Its exact value is [m * 10 ^ e]; the result is [(m, e, n)] with [n]
    the number of digits of [m]. *)
Definition decimal_parts (s : string) : option (Z * Z * nat) :=
  let '(ip, r) := take_digits s in
  match r with
  | String d r' =>
      if d === "."%char then
        let '(fp, r'') := take_digits r' in
        if (ip === "") && (fp === "") then None
        else (λ e, (digits_Z (ip +:+ fp), (e - Z.of_nat (String.length fp))%Z, String.length (ip +:+ fp)))
               <$> exponent_value r''
      else if ip === "" then None
      else (λ e, (digits_Z ip, e, String.length ip)) <$> exponent_value r
  | EmptyString => if ip === "" then None else Some (digits_Z ip, 0%Z, String.length ip)
  end.

(** The number RoundMVResult gives, with the sign of the literal. *)
Definition of_rounded (negative : bool) (r : rounded) : js_number :=
  match r with
  | RZero => NumZero negative
  | RFin d => NumFinite negative d
  | RInf => NumInfinity negative
  end.

(** RoundMVResult of the value [n] of a [0x]/[0o]/[0b] literal. *)
Definition int_number (n : Z) : js_number :=
  if (n =? 0)%Z then NumZero false else of_rounded false (round_pos n 1).

(** RoundMVResult of [m * 10 ^ e], [m] of [nd] digits: beyond
    [10 ^ 400] the value is infinite, below [10 ^ -400] it is zero,
    and in between it is rounded exactly. *)
Definition decimal_number (negative : bool) (m e : Z) (nd : nat) : js_number :=
  if (m =? 0)%Z then NumZero negative
  else if (400 <? e)%Z then NumInfinity negative
  else if (e + Z.of_nat nd <? -400)%Z then NumZero negative
  else of_rounded negative (round_pos (decimal_pair m e).1 (decimal_pair m e).2).

(** StringToNumber of a trimmed ASCII text. *)
Definition string_number (t : string) : js_number :=
  if t === "" then NumZero false
  else match radix_prefix t with
  | Some (radix, digits) =>
      match radix_value radix digits with
      | Some n => int_number n
      | None => NumNaN
      end
  | None =>
      let '(negative, body) := split_sign t in
      if body === "Infinity" then NumInfinity negative
      else match decimal_parts body with
      | Some (m, e, nd) => decimal_number negative m e nd
      | None => NumNaN
      end
  end.

(** [Number(chunk.toString())]. *)
Definition to_number (chunk : string) : js_number :=
  match ascii_text (trim_code_points (utf8_decode (byte_value <$> String.list_ascii_of_string chunk))) with
  | Some t => string_number t
  | None => NumNaN
  end.

(** [x * -1]: exact, it flips the sign. *)
Definition negate (x : js_number) : js_number :=
  match x with
  | NumNaN => NumNaN
  | NumZero b => NumZero (negb b)
  | NumFinite b d => NumFinite (negb b) d
  | NumInfinity b => NumInfinity (negb b)
  end.

(** ** Fuel of the UTF-8 decoder *)

Lemma utf8_cont_rest (n : nat) (cp lower upper : Z) (bs : list Z) :
  (length (utf8_cont n cp lower upper bs).2 ≤ length bs)%nat.
Proof.
  revert cp lower upper bs. induction n as [|n IH]; intros cp lower upper [|b bs]; simpl; try lia.
  case_match; simpl; [specialize (IH (Z.lor (Z.shiftl cp 6) (Z.land b 63)) 128 191 bs); lia|lia].
Qed.

Lemma utf8_step_rest (b : Z) (r : list Z) : (length (utf8_step b r).2 ≤ length r)%nat.
Proof.
  unfold utf8_step.
  repeat match goal with |- context [if ?c then _ else _] => destruct c end;
    cbn [snd]; auto using utf8_cont_rest; lia.
Qed.

Lemma utf8_decode_fuel_S (f : nat) (bs : list Z) :
  (length bs ≤ f)%nat → utf8_decode_fuel (S f) bs = utf8_decode_fuel f bs.
Proof.
  revert bs. induction f as [|f IH]; intros [|b r] Hl; simpl in Hl; try done; [lia|].
  cbn [utf8_decode_fuel]. pose proof (utf8_step_rest b r) as Hr.
  destruct (utf8_step b r) as [cp r']. simpl in Hr. f_equal. apply IH. lia.
Qed.

Lemma utf8_decode_fuel_more (f g : nat) (bs : list Z) :
  (length bs ≤ f)%nat → (f ≤ g)%nat → utf8_decode_fuel g bs = utf8_decode_fuel f bs.
Proof.
  intros Hf Hg. induction Hg as [|g Hg IH]; [done|].
  rewrite utf8_decode_fuel_S by lia. exact IH.
Qed.

(** ** Properties *)

(** The UTF-8 decoder of [chunk.toString()] terminates within its
    fuel: any fuel at least the number of bytes gives the same code
    points, since each step consumes at least one byte. *)
Theorem utf8_decode_fuel_enough (f : nat) (bs : list Z) :
  (length bs ≤ f)%nat → utf8_decode_fuel f bs = utf8_decode bs.
Proof. intros Hf. unfold utf8_decode. by apply utf8_decode_fuel_more. Qed.

(** ** Examples on concrete inputs *)

Lemma utf8_decode_fuel_enough_witness :
  (length [195; 169; 55]%Z ≤ 5)%nat ∧ utf8_decode_fuel 5 [195; 169; 55] = utf8_decode [195; 169; 55].
Proof.
  assert ((length [195; 169; 55]%Z ≤ 5)%nat) as H by (simpl; lia).
  split; [exact H|exact (utf8_decode_fuel_enough 5 _ H)].
Defined.
