(* ===== verification/NumberStream.v ===== *)
(** * [InverseNumberStream] (src/src/routes.js, lines 10-18)

    A [Transform] whose [_transform] computes
    [Number(chunk.toString()) * -1] (NumberParse.v), logs it, and passes
    on [Buffer.from(String(transformed))]: one output chunk per input
    chunk.  The class is only referenced by the commented-out import
    route, so no request reaches it.

    [String] is Number::toString with radix 10 (ECMA-262, 6.1.6.1.20):
    [NaN], [0] for both zeros, [Infinity] with its sign, and for a
    finite double the shortest significand [s] of [k] digits with
    decimal exponent [n] ([shortest] of Binary64.v), written as an
    integer ([k <= n <= 21]), a decimal fraction ([-6 < n <= 21]) or in
    exponential notation.  [Buffer.from] then encodes the text as
    UTF-8; the text is ASCII, so its bytes are its characters.

    The theorems: [String] of a double is a decimal text that reads
    back exactly as a significand of the fewest digits that rounds to
    the double, in exponential notation exactly when the decimal
    exponent is at most [-6] or above [21]; the text the stream writes
    reads back with [Number] as the negation of the chunk's number
    ([-0] reads back as [0]); [Number] of a decimal literal is the
    double nearest to its exact value (the shortcuts for huge and tiny
    exponents change nothing). *)

From Stdlib Require Import Ascii ZArith.
From stdpp Require Import base list strings sets.
From S2P Require Import Prelude JsonParse Binary64 NumberParse.

Local Open Scope js_scope.
Local Open Scope Z_scope.

(** ** [String(transformed)] (line 16) *)

Definition digit_char (v : Z) : ascii := Ascii.ascii_of_nat (Z.to_nat v + 48).

(** The last [k] decimal digits of [s], most significant first. *)
Fixpoint digits_of (k : nat) (s : Z) : string :=
  match k with
  | O => ""
  | S k' => digits_of k' (s / 10) +:+ String (digit_char (s mod 10)) ""
  end.

Fixpoint zeros (j : nat) : string :=
  match j with
  | O => ""
  | S j' => String "0" (zeros j')
  end.

(** The decimal representation of a non-negative integer, with no
    leading zero. *)
Definition int_text (z : Z) : string :=
  if z =? 0 then "0" else digits_of (Z.to_nat (log10 z + 1)) z.

(** Steps 6 to 10 of Number::toString: the text of [s * 10 ^ (n - k)]. *)
Definition format_decimal (s k n : Z) : string :=
  let ds := digits_of (Z.to_nat k) s in
  if (k <=? n) && (n <=? 21) then ds +:+ zeros (Z.to_nat (n - k))
  else if (0 <? n) && (n <=? 21) then
    digits_of (Z.to_nat n) (s / 10 ^ (k - n)) +:+ "." +:+
      digits_of (Z.to_nat (k - n)) (s mod 10 ^ (k - n))
  else if (-6 <? n) && (n <=? 0) then "0." +:+ zeros (Z.to_nat (- n)) +:+ ds
  else
    let ex := "e" +:+ (if 0 <? n - 1 then "+" else "-") +:+ int_text (Z.abs (n - 1)) in
    if k =? 1 then ds +:+ ex
    else digits_of 1 (s / 10 ^ (k - 1)) +:+ "." +:+
      digits_of (Z.to_nat (k - 1)) (s mod 10 ^ (k - 1)) +:+ ex.

(** Step 3 of Number::toString: a negative number is [-] followed by
    the text of its opposite. *)
Definition sign_text (negative : bool) : string := if negative then "-" else "".

(** [String(x)].  [shortest] finds its digits for every double in
    canonical form (Binary64.shortest_some); the empty text stands for
    the case that does not arise. *)
Definition number_string (x : js_number) : string :=
  match x with
  | NumNaN => "NaN"
  | NumZero _ => "0"
  | NumInfinity false => "Infinity"
  | NumInfinity true => "-Infinity"
  | NumFinite negative d =>
      sign_text negative +:+
      match shortest d with
      | Some (s, k, n) => format_decimal s k n
      | None => ""
      end
  end.

(** ** The stream *)

(** [_transform(chunk)]: the output chunk for one input chunk. *)
Definition inverse_chunk (chunk : string) : string :=
  number_string (negate (to_number chunk)).

(** The stream: one output chunk per input chunk, in order. *)
Definition inverse_stream (chunks : list string) : list string := inverse_chunk <$> chunks.

(** The characters of a decimal literal. *)
Definition literal_char (c : ascii) : bool :=
  is_digit c || bool_decide (c ∈ ["."; "e"; "E"; "+"; "-"]%char).

Definition literal (s : string) : Prop :=
  Forall (λ c, literal_char c = true) (String.list_ascii_of_string s).

Definition all_digit (s : string) : Prop :=
  Forall (λ c, is_digit c = true) (String.list_ascii_of_string s).

(** ** Characters and strings *)

Lemma literal_char_facts (c : ascii) :
  literal_char c = true →
  byte_value c < 128 ∧ is_str_white_space (byte_value c) = false ∧
  c ≠ "x"%char ∧ c ≠ "X"%char ∧ c ≠ "o"%char ∧ c ≠ "O"%char ∧ c ≠ "b"%char ∧ c ≠ "B"%char ∧
  c ≠ "I"%char.
Proof.
  destruct c as [[][][][][][][][]]; intros Hc; vm_compute in Hc; try discriminate Hc;
    split_and!; first [reflexivity|discriminate].
Qed.

Lemma digit_literal (c : ascii) : is_digit c = true → literal_char c = true.
Proof. unfold literal_char. intros ->. reflexivity. Qed.

Lemma digit_not_sign (c : ascii) :
  is_digit c = true → c ≠ "-"%char ∧ c ≠ "+"%char ∧ c ≠ "."%char ∧ c ≠ "e"%char ∧ c ≠ "E"%char.
Proof.
  destruct c as [[][][][][][][][]]; intros Hc; vm_compute in Hc; try discriminate Hc;
    split_and!; discriminate.
Qed.

Lemma length_list_ascii (s : string) :
  length (String.list_ascii_of_string s) = String.length s.
Proof. induction s as [|c s IH]; [reflexivity|]. simpl. by rewrite IH. Qed.

Lemma literal_app (s1 s2 : string) : literal s1 → literal s2 → literal (s1 +:+ s2).
Proof. unfold literal. rewrite list_ascii_app. apply Forall_app_2. Qed.

#[export] Hint Resolve literal_app : tasks.

(** A literal is plain ASCII text without white space: [chunk.toString()]
    and the trimming leave it as it is. *)
Lemma utf8_decode_fuel_ascii (f : nat) (bs : list Z) :
  (length bs ≤ f)%nat → Forall (λ b, 0 <= b < 128) bs → utf8_decode_fuel f bs = bs.
Proof.
  revert f. induction bs as [|b bs IH]; intros [|f] Hf Hb; [done|done|simpl in Hf; lia|].
  apply Forall_cons in Hb as [Hb Hbs]. cbn [utf8_decode_fuel]. unfold utf8_step.
  rewrite (proj2 (Z.leb_le b 127)) by lia. cbn. f_equal. apply IH; [simpl in Hf; lia|done].
Qed.

Lemma drop_white_keep (l : list Z) :
  Forall (λ c, is_str_white_space c = false) l → drop_white l = l.
Proof. destruct 1 as [|c l Hc _]; [done|]. simpl. by rewrite Hc. Qed.

Lemma trim_code_points_keep (l : list Z) :
  Forall (λ c, is_str_white_space c = false) l → trim_code_points l = l.
Proof.
  intros Hl. unfold trim_code_points. rewrite (drop_white_keep l Hl).
  rewrite drop_white_keep by (by apply Forall_rev). apply rev_involutive.
Qed.

Lemma ascii_text_bytes (s : string) :
  Forall (λ c, byte_value c < 128) (String.list_ascii_of_string s) →
  ascii_text (byte_value <$> String.list_ascii_of_string s) = Some s.
Proof.
  intros Hs. unfold ascii_text.
  rewrite (proj2 (forallb_forall _ _)).
  - f_equal. rewrite <-(String.string_of_list_ascii_of_string s) at 2. f_equal.
    induction (String.list_ascii_of_string s) as [|c l IH]; [done|]. cbn [fmap list_fmap].
    unfold byte_value at 1. rewrite Nat2Z.id, ascii_nat_embedding. f_equal.
    apply IH. by apply Forall_cons in Hs as [_ ?].
  - intros b Hb%list_elem_of_In. apply list_elem_of_fmap in Hb as (c & -> & Hc).
    rewrite Forall_forall in Hs. apply Z.ltb_lt, Hs, Hc.
Qed.

(** [Number] of a literal is [StringToNumber] of its text. *)
Lemma to_number_literal (t : string) : literal t → to_number t = string_number t.
Proof.
  intros Ht. unfold to_number.
  assert (Forall (λ c, byte_value c < 128 ∧ is_str_white_space (byte_value c) = false)
    (String.list_ascii_of_string t)) as Hf.
  { eapply Forall_impl; [exact Ht|]. intros c Hc. destruct (literal_char_facts c Hc) as (H1 & H2 & _). by split. }
  unfold utf8_decode. rewrite utf8_decode_fuel_ascii; [|done|].
  2: { apply Forall_fmap. eapply Forall_impl; [exact Hf|].
       intros c [Hc _]. unfold compose, byte_value in *. lia. }
  rewrite trim_code_points_keep by (apply Forall_fmap; eapply Forall_impl; [exact Hf|]; by intros c [_ ?]).
  rewrite ascii_text_bytes by (eapply Forall_impl; [exact Hf|]; by intros c [? _]).
  reflexivity.
Qed.

(** ** Digits *)

Lemma digits_Z_fold (l : list ascii) (acc : Z) :
  fold_left (λ acc c, 10 * acc + (Z.of_nat (Ascii.nat_of_ascii c) - 48)) l acc =
    acc * 10 ^ Z.of_nat (length l) +
    fold_left (λ acc c, 10 * acc + (Z.of_nat (Ascii.nat_of_ascii c) - 48)) l 0.
Proof.
  revert acc. induction l as [|c l IH]; intros acc; cbn [fold_left length]; [lia|].
  rewrite IH, (IH (10 * 0 + _)), Nat2Z.inj_succ, Z.pow_succ_r by lia. ring.
Qed.

Lemma digits_Z_app (s1 s2 : string) :
  digits_Z (s1 +:+ s2) = digits_Z s1 * 10 ^ Z.of_nat (String.length s2) + digits_Z s2.
Proof.
  unfold digits_Z. rewrite list_ascii_app, fold_left_app, digits_Z_fold, length_list_ascii.
  reflexivity.
Qed.

Lemma is_digit_value (c : ascii) :
  is_digit c = true → 0 <= Z.of_nat (Ascii.nat_of_ascii c) - 48 < 10.
Proof. unfold is_digit. rewrite andb_true_iff, !Nat.leb_le. lia. Qed.

Lemma digit_char_spec (v : Z) :
  0 <= v < 10 →
  is_digit (digit_char v) = true ∧ Z.of_nat (Ascii.nat_of_ascii (digit_char v)) - 48 = v.
Proof.
  intros Hv. unfold digit_char, is_digit. rewrite nat_ascii_embedding by lia.
  rewrite andb_true_iff, !Nat.leb_le. lia.
Qed.

Lemma digits_Z_char (c : ascii) : digits_Z (String c "") = Z.of_nat (Ascii.nat_of_ascii c) - 48.
Proof. unfold digits_Z. cbn. ring. Qed.

Lemma all_digit_app (s1 s2 : string) : all_digit s1 → all_digit s2 → all_digit (s1 +:+ s2).
Proof. unfold all_digit. rewrite list_ascii_app. apply Forall_app_2. Qed.

Lemma all_digit_literal (s : string) : all_digit s → literal s.
Proof. intros Hs. eapply Forall_impl; [exact Hs|]. intros c. apply digit_literal. Qed.

#[export] Hint Resolve all_digit_app all_digit_literal : tasks.

Lemma digits_of_spec (k : nat) (s : Z) :
  all_digit (digits_of k s) ∧ String.length (digits_of k s) = k ∧
  digits_Z (digits_of k s) = s mod 10 ^ Z.of_nat k.
Proof.
  revert s. induction k as [|k IH]; intros s; [split_and!; [constructor|done|by rewrite Z.mod_1_r]|].
  destruct (IH (s / 10)) as (H1 & H2 & H3).
  pose proof (Z.mod_pos_bound s 10 ltac:(lia)) as Hm.
  destruct (digit_char_spec (s mod 10) Hm) as [Hd Hv]. cbn [digits_of]. split_and!.
  - apply all_digit_app; [done|]. by repeat constructor.
  - rewrite length_append, H2. simpl. lia.
  - rewrite digits_Z_app, H3, digits_Z_char, Hv, Nat2Z.inj_succ, Z.pow_succ_r by lia.
    rewrite Z.rem_mul_r by (try apply Z.pow_pos_nonneg; lia).
    cbn [String.length]. change (Z.of_nat 1) with 1. rewrite Z.pow_1_r. lia.
Qed.

Lemma zeros_spec (j : nat) :
  all_digit (zeros j) ∧ String.length (zeros j) = j ∧ digits_Z (zeros j) = 0.
Proof.
  induction j as [|j (H1 & H2 & H3)]; [split_and!; [constructor|done|done]|].
  change (zeros (S j)) with ("0" +:+ zeros j). split_and!.
  - apply all_digit_app; [by repeat constructor|done].
  - rewrite length_append, H2. reflexivity.
  - rewrite digits_Z_app, H3. reflexivity.
Qed.

Lemma digits_Z_bound (s : string) :
  all_digit s → 0 <= digits_Z s < 10 ^ Z.of_nat (String.length s).
Proof.
  induction s as [|c s IH]; intros Hs; [cbn; lia|].
  apply Forall_cons in Hs as [Hc Hs]. specialize (IH Hs).
  assert (digits_Z (String c s) =
    (Z.of_nat (Ascii.nat_of_ascii c) - 48) * 10 ^ Z.of_nat (String.length s) + digits_Z s) as ->.
  { change (String c s) with (String c "" +:+ s). by rewrite digits_Z_app, digits_Z_char. }
  pose proof (is_digit_value c Hc). change (String.length (String c s)) with (S (String.length s)).
  rewrite Nat2Z.inj_succ, Z.pow_succ_r by lia. nia.
Qed.

Lemma int_text_spec (z : Z) :
  0 <= z → all_digit (int_text z) ∧ int_text z ≠ "" ∧ digits_Z (int_text z) = z.
Proof.
  intros Hz. unfold int_text. destruct (Z.eqb_spec z 0) as [->|Hne].
  - split_and!; [by repeat constructor|done|reflexivity].
  - destruct (log10_spec z ltac:(lia)) as (H0 & _ & H2).
    destruct (digits_of_spec (Z.to_nat (log10 z + 1)) z) as (D1 & D2 & D3).
    split_and!; [done| |].
    + intros He. rewrite He in D2. simpl in D2. lia.
    + rewrite D3, Z2Nat.id by lia. apply Z.mod_small. lia.
Qed.

(** ** The lexer on printed text *)

Lemma take_digits_app (ds r : string) :
  all_digit ds → take_digits (ds +:+ r) = (ds +:+ (take_digits r).1, (take_digits r).2).
Proof.
  induction ds as [|c ds IH]; intros Hds.
  - rewrite !append_nil_l. by destruct (take_digits r).
  - unfold all_digit in *. cbn in Hds. apply Forall_cons in Hds as [Hc Hds].
    rewrite !append_cons. simpl. rewrite Hc, IH by done. reflexivity.
Qed.

Lemma take_digits_stop (c : ascii) (r : string) :
  is_digit c = false → take_digits (String c r) = ("", String c r).
Proof. intros Hc. simpl. by rewrite Hc. Qed.

Lemma take_digits_spec (s ip r : string) :
  take_digits s = (ip, r) → s = ip +:+ r ∧ all_digit ip.
Proof.
  revert ip r. induction s as [|c s IH]; intros ip r; simpl; [intros [= <- <-]; split; [done|constructor]|].
  destruct (is_digit c) eqn:Hc; [|intros [= <- <-]; split; [done|constructor]].
  destruct (take_digits s) as [ip' r'] eqn:E. intros [= <- <-].
  destruct (IH ip' r' eq_refl) as [-> Hd]. split; [done|by constructor].
Qed.

Lemma all_digits_true (s : string) : s ≠ "" → all_digit s → all_digits s = true.
Proof.
  intros Hs Hd. unfold all_digits. rewrite bool_decide_true by done. simpl.
  apply forallb_forall. intros c Hc%list_elem_of_In. unfold all_digit in Hd.
  rewrite Forall_forall in Hd. by apply Hd.
Qed.

(** The exponent [String] writes reads back as [n - 1]. *)
Lemma exponent_value_text (x : Z) :
  exponent_value ("e" +:+ (if 0 <? x then "+" else "-") +:+ int_text (Z.abs x)) = Some x.
Proof.
  destruct (int_text_spec (Z.abs x) ltac:(lia)) as (H1 & H2 & H3).
  destruct (Z.ltb_spec 0 x); rewrite !append_cons, !append_nil_l; unfold exponent_value;
    repeat case_bool_decide; try congruence; rewrite all_digits_true, H3 by done; f_equal; lia.
Qed.

Lemma all_digits_spec (s : string) : all_digits s = true → all_digit s.
Proof.
  unfold all_digits. rewrite andb_true_iff, forallb_forall. intros [_ H].
  apply Forall_forall. intros c Hc. apply H, list_elem_of_In, Hc.
Qed.

Lemma exponent_value_literal (r : string) (x : Z) : exponent_value r = Some x → literal r.
Proof.
  destruct r as [|c r]; [constructor|]. unfold exponent_value.
  destruct (bool_decide (c = "e"%char) || bool_decide (c = "E"%char)) eqn:He; [|discriminate].
  assert (literal_char c = true) as Hc
    by (apply orb_true_iff in He as [He|He]; apply bool_decide_eq_true in He as ->; reflexivity).
  destruct r as [|sg r]; [discriminate|].
  destruct (bool_decide (sg = "+"%char)) eqn:Hp; [|destruct (bool_decide (sg = "-"%char)) eqn:Hm];
    [apply bool_decide_eq_true in Hp as ->|apply bool_decide_eq_true in Hm as ->|];
    [destruct (all_digits r) eqn:Ha..|destruct (all_digits (String sg r)) eqn:Ha];
    try discriminate; intros _; apply Forall_cons_2; try done;
    [apply Forall_cons_2; [done|]..|];
    first [apply (all_digit_literal r)|apply (all_digit_literal (String sg r))];
    apply all_digits_spec; assumption.
Qed.

(** What [decimal_parts] accepts: a literal starting with a digit or a
    point, whose significand [m] is the value of its [nd] digits. *)
Lemma decimal_parts_spec (body : string) (m e : Z) (nd : nat) :
  decimal_parts body = Some (m, e, nd) →
  literal body ∧ (∃ c r, body = String c r ∧ (is_digit c = true ∨ c = "."%char)) ∧
  ∃ ds, all_digit ds ∧ m = digits_Z ds ∧ nd = String.length ds.
Proof.
  unfold decimal_parts. destruct (take_digits body) as [ip r] eqn:T.
  apply take_digits_spec in T as [-> Hip].
  assert (ip ≠ "" → ∃ c r', ip +:+ r = String c r' ∧ is_digit c = true) as Hhead.
  { destruct ip as [|c ip]; [done|]. intros _. unfold all_digit in Hip. cbn in Hip.
    apply Forall_cons in Hip as [Hc _]. exists c, (ip +:+ r). by rewrite append_cons. }
  destruct r as [|d r'].
  - case_bool_decide as Hne; [discriminate|]. intros [= <- <- <-]. split_and!.
    + rewrite append_nil_r. by apply all_digit_literal.
    + destruct (Hhead Hne) as (c & r' & -> & Hc). eauto.
    + by exists ip.
  - case_bool_decide as Hd.
    + subst d. destruct (take_digits r') as [fp r''] eqn:T2. apply take_digits_spec in T2 as [-> Hfp].
      destruct ((ip === "") && (fp === "")) eqn:Hb; [discriminate|].
      destruct (exponent_value r'') as [x|] eqn:Hx; [|discriminate]. intros [= <- <- <-].
      split_and!.
      * apply literal_app; [by apply all_digit_literal|]. apply Forall_cons_2; [reflexivity|].
        apply literal_app; [by apply all_digit_literal|exact (exponent_value_literal _ _ Hx)].
      * destruct (decide (ip = "")) as [->|Hne]; [exists "."%char, (fp +:+ r''); split; [by rewrite append_nil_l|by right]|].
        destruct (Hhead Hne) as (c & r0 & E & Hc). exists c, r0. split; [exact E|by left].
      * exists (ip +:+ fp). split_and!; [by apply all_digit_app|done|done].
    + case_bool_decide as Hne; [discriminate|].
      destruct (exponent_value (String d r')) as [x|] eqn:Hx; [|discriminate]. intros [= <- <- <-].
      split_and!.
      * apply literal_app; [by apply all_digit_literal|exact (exponent_value_literal _ _ Hx)].
      * destruct (Hhead Hne) as (c & r0 & E & Hc). eauto.
      * by exists ip.
Qed.

Lemma decimal_parts_int (ds : string) :
  all_digit ds → ds ≠ "" → decimal_parts ds = Some (digits_Z ds, 0, String.length ds).
Proof.
  intros Hd Hne. unfold decimal_parts.
  pose proof (take_digits_app ds "" Hd) as E. cbn [take_digits fst snd] in E.
  rewrite !append_nil_r in E. rewrite E. cbn beta iota.
  rewrite bool_decide_false by done. reflexivity.
Qed.

Lemma decimal_parts_frac (ip fp r : string) (x : Z) :
  all_digit ip → all_digit fp → ip ≠ "" → exponent_value r = Some x →
  (r = "" ∨ ∃ r', r = String "e" r') →
  decimal_parts (ip +:+ "." +:+ fp +:+ r) =
    Some (digits_Z (ip +:+ fp), x - Z.of_nat (String.length fp), String.length (ip +:+ fp)).
Proof.
  intros Hip Hfp Hne Hx Hr. unfold decimal_parts.
  rewrite take_digits_app by done. rewrite append_cons, append_nil_l.
  rewrite take_digits_stop by reflexivity. cbn [fst snd]. rewrite append_nil_r. cbn beta iota.
  rewrite bool_decide_true by done. rewrite take_digits_app by done.
  assert (take_digits r = ("", r)) as -> by (destruct Hr as [->|[r' ->]]; reflexivity).
  cbn [fst snd]. rewrite append_nil_r. cbn beta iota.
  rewrite (bool_decide_false (ip = "")) by done. cbn [andb]. rewrite Hx. reflexivity.
Qed.

Lemma decimal_parts_exp (ip r : string) (x : Z) :
  all_digit ip → ip ≠ "" → exponent_value (String "e" r) = Some x →
  decimal_parts (ip +:+ String "e" r) = Some (digits_Z ip, x, String.length ip).
Proof.
  intros Hip Hne Hx. unfold decimal_parts.
  rewrite take_digits_app by done. rewrite take_digits_stop by reflexivity.
  cbn [fst snd]. rewrite append_nil_r. cbn beta iota.
  rewrite (bool_decide_false ("e"%char = _)) by done.
  rewrite (bool_decide_false (ip = "")) by done. rewrite Hx. reflexivity.
Qed.

(** The two parts of a [k]-digit significand cut after [j] digits. *)
Lemma digits_split (s k j : Z) :
  0 < j <= k → 0 <= s < 10 ^ k →
  all_digit (digits_of (Z.to_nat j) (s / 10 ^ (k - j))) ∧
  all_digit (digits_of (Z.to_nat (k - j)) (s mod 10 ^ (k - j))) ∧
  digits_of (Z.to_nat j) (s / 10 ^ (k - j)) ≠ "" ∧
  String.length (digits_of (Z.to_nat (k - j)) (s mod 10 ^ (k - j))) = Z.to_nat (k - j) ∧
  digits_Z (digits_of (Z.to_nat j) (s / 10 ^ (k - j)) +:+
            digits_of (Z.to_nat (k - j)) (s mod 10 ^ (k - j))) = s.
Proof.
  intros Hj Hs.
  destruct (digits_of_spec (Z.to_nat j) (s / 10 ^ (k - j))) as (I1 & I2 & I3).
  destruct (digits_of_spec (Z.to_nat (k - j)) (s mod 10 ^ (k - j))) as (F1 & F2 & F3).
  assert (10 ^ k = 10 ^ j * 10 ^ (k - j)) by (rewrite <-Z.pow_add_r by lia; f_equal; lia).
  set (P := 10 ^ (k - j)) in *. assert (0 < P) by (apply Z.pow_pos_nonneg; lia).
  assert (0 < 10 ^ j) by (apply Z.pow_pos_nonneg; lia).
  split_and!; [done|done| |done|].
  - intros E. rewrite E in I2. simpl in I2. lia.
  - rewrite digits_Z_app, I3, F3, F2, !Z2Nat.id by lia. fold P.
    rewrite Z.mod_mod, (Z.mod_small (s / P)) by (try split; try apply Z.div_pos;
      try apply Z.div_lt_upper_bound; nia).
    pose proof (Z.div_mod s P). lia.
Qed.

Lemma decimal_pair_shift (s j : Z) : 0 <= j → decimal_pair (s * 10 ^ j) 0 = decimal_pair s j.
Proof.
  intros Hj. unfold decimal_pair. rewrite !scaled_nonneg by lia. by rewrite Z.pow_0_r, Z.mul_1_r.
Qed.

(** The text of [s * 10 ^ (n - k)] written by Number::toString reads
    back, through [decimal_parts], as that value. *)
Lemma decimal_parts_format (s k n : Z) :
  1 <= k → 10 ^ (k - 1) <= s < 10 ^ k →
  ∃ m e nd, decimal_parts (format_decimal s k n) = Some (m, e, nd) ∧ 0 < m ∧
    decimal_pair m e = decimal_pair s (n - k).
Proof.
  intros Hk Hs. assert (0 < 10 ^ (k - 1)) by (apply Z.pow_pos_nonneg; lia).
  destruct (digits_of_spec (Z.to_nat k) s) as (D1 & D2 & D3).
  rewrite Z2Nat.id, Z.mod_small in D3 by lia.
  assert (digits_of (Z.to_nat k) s ≠ "") as D4 by (intros E; rewrite E in D2; simpl in D2; lia).
  unfold format_decimal.
  destruct ((k <=? n) && (n <=? 21)) eqn:C1; [|destruct ((0 <? n) && (n <=? 21)) eqn:C2;
    [|destruct ((-6 <? n) && (n <=? 0)) eqn:C3]].
  - apply andb_true_iff in C1 as [C1 _]. apply Z.leb_le in C1.
    destruct (zeros_spec (Z.to_nat (n - k))) as (Z1 & Z2 & Z3).
    rewrite decimal_parts_int by (auto with tasks; intros E;
      apply (f_equal String.length) in E; rewrite length_append in E; simpl in E; lia).
    eexists _, _, _. split; [reflexivity|].
    rewrite digits_Z_app, D3, Z3, Z2, Z2Nat.id by lia. split; [nia|].
    rewrite Z.add_0_r. by apply decimal_pair_shift; lia.
  - apply andb_true_iff in C2 as [C2 C2']. apply Z.ltb_lt in C2. apply Z.leb_le in C2'.
    assert (n < k) by (apply andb_false_iff in C1 as [C1|C1]; apply Z.leb_gt in C1; lia).
    destruct (digits_split s k n ltac:(lia) ltac:(lia)) as (S1 & S2 & S3 & S4 & S5).
    pose proof (decimal_parts_frac _ _ "" 0 S1 S2 S3 eq_refl (or_introl eq_refl)) as Hp.
    rewrite append_nil_r in Hp. rewrite Hp. eexists _, _, _. split; [reflexivity|].
    rewrite S5, S4, Z2Nat.id by lia. split; [lia|]. f_equal. lia.
  - apply andb_true_iff in C3 as [_ C3]. apply Z.leb_le in C3.
    destruct (zeros_spec (Z.to_nat (- n))) as (Z1 & Z2 & Z3).
    pose proof (decimal_parts_frac "0" (zeros (Z.to_nat (- n)) +:+ digits_of (Z.to_nat k) s) "" 0
      ltac:(by repeat constructor) ltac:(auto with tasks) ltac:(done) eq_refl (or_introl eq_refl)) as Hp.
    rewrite append_nil_r in Hp.
    change ("0." +:+ zeros (Z.to_nat (- n)) +:+ digits_of (Z.to_nat k) s) with
      ("0" +:+ "." +:+ zeros (Z.to_nat (- n)) +:+ digits_of (Z.to_nat k) s).
    rewrite Hp. eexists _, _, _. split; [reflexivity|].
    rewrite !digits_Z_app, Z3, D3, length_append, Z2, D2, Nat2Z.inj_add, !Z2Nat.id by lia.
    split; [change (digits_Z "0") with 0; lia|]. change (digits_Z "0") with 0. f_equal; lia.
  - pose proof (exponent_value_text (n - 1)) as Hx.
    rewrite append_cons, append_nil_l in Hx |- *.
    destruct (Z.eqb_spec k 1) as [->|Hk1].
    + rewrite (decimal_parts_exp _ _ (n - 1)) by done. eexists _, _, _. split; [reflexivity|].
      rewrite D3. split; [lia|]. f_equal; lia.
    + destruct (digits_split s k 1 ltac:(lia) ltac:(lia)) as (S1 & S2 & S3 & S4 & S5).
      change (Z.to_nat 1) with 1%nat in S1, S3, S5.
      rewrite (decimal_parts_frac _ _ _ (n - 1)) by eauto. eexists _, _, _. split; [reflexivity|].
      rewrite S5, S4, Z2Nat.id by lia. split; [lia|]. f_equal; lia.
Qed.



(** ** [StringToNumber] on a signed decimal literal *)

Lemma radix_prefix_literal (t : string) : literal t → radix_prefix t = None.
Proof.
  destruct t as [|c1 [|c2 r]]; [done|done|]. intros Ht.
  unfold literal in Ht. cbn in Ht. apply Forall_cons in Ht as [_ Ht].
  apply Forall_cons in Ht as [H2 _].
  destruct (literal_char_facts c2 H2) as (_ & _ & ? & ? & ? & ? & ? & ? & _).
  unfold radix_prefix. repeat case_bool_decide; try congruence; reflexivity.
Qed.

Lemma sign_text_literal (negative : bool) : literal (sign_text negative).
Proof. destruct negative; repeat constructor. Qed.

Lemma string_number_decimal (negative : bool) (body : string) (m e : Z) (nd : nat) :
  decimal_parts body = Some (m, e, nd) →
  string_number (sign_text negative +:+ body) = decimal_number negative m e nd.
Proof.
  intros Hp. destruct (decimal_parts_spec body m e nd Hp) as (Hl & (c & r & -> & Hc) & _).
  assert (c ≠ "-"%char ∧ c ≠ "+"%char ∧ c ≠ "I"%char) as (Hm & Hpl & HI).
  { destruct Hc as [Hc| ->]; [|split_and!; discriminate].
    destruct (digit_not_sign c Hc) as (? & ? & _).
    unfold literal in Hl. cbn in Hl. apply Forall_cons in Hl as [Hl _].
    by destruct (literal_char_facts c Hl) as (_ & _ & _ & _ & _ & _ & _ & _ & ?). }
  unfold string_number.
  rewrite radix_prefix_literal by (apply literal_app; [apply sign_text_literal|done]).
  destruct negative; cbn [sign_text]; rewrite ?append_cons, append_nil_l;
    rewrite bool_decide_false by done; unfold split_sign;
    repeat (case_bool_decide; try congruence); rewrite Hp; reflexivity.
Qed.

Lemma to_number_sign_decimal (negative : bool) (body : string) (m e : Z) (nd : nat) :
  decimal_parts body = Some (m, e, nd) →
  to_number (sign_text negative +:+ body) = decimal_number negative m e nd.
Proof.
  intros Hp. destruct (decimal_parts_spec body m e nd Hp) as (Hl & _).
  rewrite to_number_literal by (apply literal_app; [apply sign_text_literal|done]).
  by apply string_number_decimal.
Qed.

Lemma decimal_parts_bound (body : string) (m e : Z) (nd : nat) :
  decimal_parts body = Some (m, e, nd) → 0 <= m < 10 ^ Z.of_nat nd.
Proof.
  intros Hp. destruct (decimal_parts_spec body m e nd Hp) as (_ & _ & ds & Hd & -> & ->).
  by apply digits_Z_bound.
Qed.

(** The shortcuts of [decimal_number] agree with the rounding of the
    exact value. *)
Lemma decimal_number_exact (negative : bool) (m e : Z) (nd : nat) :
  0 < m < 10 ^ Z.of_nat nd →
  decimal_number negative m e nd =
    of_rounded negative (round_pos (decimal_pair m e).1 (decimal_pair m e).2).
Proof.
  intros Hm. unfold decimal_number. rewrite (proj2 (Z.eqb_neq m 0)) by lia.
  assert (0 < 10 ^ Z.of_nat nd) by (apply Z.pow_pos_nonneg; lia).
  destruct (Z.ltb_spec 400 e).
  - unfold decimal_pair. rewrite scaled_nonneg by lia. cbn [fst snd].
    assert (2 ^ 1024 <= 10 ^ 401) by (apply Z.leb_le; reflexivity).
    assert (10 ^ 401 <= 10 ^ e) by (apply Z.pow_le_mono_r; lia).
    rewrite round_pos_inf; [reflexivity|nia|lia|nia].
  - destruct (Z.ltb_spec (e + Z.of_nat nd) (-400)); [|reflexivity].
    unfold decimal_pair. rewrite scaled_nonpos by lia. cbn [fst snd].
    assert (2 ^ 1075 <= 10 ^ 400) by (apply Z.leb_le; reflexivity).
    assert (10 ^ Z.of_nat nd * 10 ^ 400 <= 10 ^ (- e)).
    { rewrite <-Z.pow_add_r by lia. apply Z.pow_le_mono_r; lia. }
    assert (0 < 10 ^ (- e)) by (apply Z.pow_pos_nonneg; lia).
    rewrite round_pos_zero; [reflexivity|lia|lia|nia].
Qed.

(** A finite double printed by [String] reads back as itself. *)
Lemma to_number_finite_string (negative : bool) (d : double) :
  valid_double d = true → to_number (number_string (NumFinite negative d)) = NumFinite negative d.
Proof.
  intros Hv. destruct (shortest_some d Hv) as (s & k & n & Hs & Hk & Hsk & Hr).
  unfold number_string. rewrite Hs.
  destruct (decimal_parts_format s k n ltac:(lia) Hsk) as (m & e & nd & Hp & Hm & Hpair).
  rewrite (to_number_sign_decimal _ _ _ _ _ Hp).
  pose proof (decimal_parts_bound _ _ _ _ Hp).
  rewrite decimal_number_exact, Hpair by lia.
  apply rounds_to_spec in Hr. by rewrite Hr.
Qed.

(** ** Every chunk gives a number in canonical form *)

Lemma of_rounded_valid (negative : bool) (a b : Z) :
  0 < a → 0 < b → valid_number (of_rounded negative (round_pos a b)) = true.
Proof.
  intros Ha Hb. destruct (round_pos a b) eqn:E; [reflexivity| |reflexivity].
  exact (round_pos_valid a b d Ha Hb E).
Qed.

Lemma digit_value_nonneg (radix : Z) (c : ascii) (d : Z) : digit_value radix c = Some d → 0 <= d.
Proof.
  unfold digit_value. intros H. repeat case_match; simplify_eq;
  repeat match goal with
  | H : _ && _ = true |- _ => apply andb_true_iff in H as [? ?]
  | H : (_ <=? _) = true |- _ => apply Z.leb_le in H
  end; lia.
Qed.

Lemma radix_value_acc_nonneg (radix acc : Z) (s : string) (n : Z) :
  0 <= radix → 0 <= acc → radix_value_acc radix acc s = Some n → 0 <= n.
Proof.
  revert acc. induction s as [|c s IH]; intros acc Hr Ha; simpl; [by intros [= <-]|].
  destruct (digit_value radix c) as [d|] eqn:Hd; [|discriminate].
  apply digit_value_nonneg in Hd. apply IH; [done|nia].
Qed.

Lemma radix_prefix_pos (t s : string) (radix : Z) : radix_prefix t = Some (radix, s) → 0 < radix.
Proof.
  unfold radix_prefix. destruct t as [|z [|p r]]; try discriminate.
  repeat case_match; intros; simplify_eq; lia.
Qed.

Lemma to_number_valid (chunk : string) : valid_number (to_number chunk) = true.
Proof.
  unfold to_number. destruct (ascii_text _) as [t|]; [|reflexivity].
  unfold string_number. case_bool_decide; [reflexivity|].
  destruct (radix_prefix t) as [[radix ds]|] eqn:Hr.
  - destruct (radix_value radix ds) as [n|] eqn:Hv; [|reflexivity].
    apply radix_prefix_pos in Hr. unfold radix_value in Hv. destruct ds; [discriminate|].
    apply radix_value_acc_nonneg in Hv; [|lia|lia].
    unfold int_number. destruct (Z.eqb_spec n 0); [reflexivity|]. apply of_rounded_valid; lia.
  - destruct (split_sign t) as [negative body]. case_bool_decide; [reflexivity|].
    destruct (decimal_parts body) as [[[m e] nd]|] eqn:Hp; [|reflexivity].
    apply decimal_parts_bound in Hp. unfold decimal_number.
    destruct (Z.eqb_spec m 0); [reflexivity|].
    destruct (400 <? e); [reflexivity|]. destruct (_ <? -400); [reflexivity|].
    apply of_rounded_valid; apply scaled_pos; lia.
Qed.

(** ** Properties *)

(** [String] then [Number] gives back every number in canonical form,
    except that [-0] prints as [0] and reads back as [+0]. *)
Lemma to_number_number_string (x : js_number) :
  valid_number x = true →
  to_number (number_string x) = match x with NumZero _ => NumZero false | _ => x end.
Proof.
  destruct x as [|b|b d|[]]; intros Hv; try reflexivity. by apply to_number_finite_string.
Qed.



(** C28: the text [InverseNumberStream] writes for a chunk reads back,
    through [Number], as exactly the negation of the chunk's number,
    except that a zero reads back as [+0] ([String(-0)] is ["0"]). *)
Theorem inverse_chunk_reads_back (chunk : string) :
  to_number (inverse_chunk chunk) =
    match negate (to_number chunk) with NumZero _ => NumZero false | x => x end.
Proof.
  unfold inverse_chunk. pose proof (to_number_valid chunk) as Hv.
  rewrite to_number_number_string by (by destruct (to_number chunk)).
  by destruct (negate (to_number chunk)).
Qed.


(** The stream converts each chunk on its own (a number split
    across chunks is negated piecewise); text is [NaN], a blank chunk
    is [0] and [-0] prints as [0]; hex literals, [Infinity], fractions,
    exponents, overflow to [Infinity], underflow to [0], subnormals and
    the 17-digit limit behave as in JavaScript; a no-break space is
    white space, a byte that is not UTF-8 makes the chunk [NaN]. *)
Theorem inverse_stream_chunks :
  inverse_stream ["1"; "2"] = ["-1"; "-2"] ∧ inverse_chunk "12" = "-12" ∧
  inverse_chunk "abc" = "NaN" ∧ inverse_chunk " " = "0" ∧ inverse_chunk "-0" = "0" ∧
  inverse_chunk "0x10" = "-16" ∧ inverse_chunk "Infinity" = "-Infinity" ∧
  inverse_chunk "1.5" = "-1.5" ∧ inverse_chunk "0.1" = "-0.1" ∧
  inverse_chunk "123456789012345678" = "-123456789012345680" ∧
  inverse_chunk "1e21" = "-1e+21" ∧ inverse_chunk "-2e-7" = "2e-7" ∧
  inverse_chunk "0.000001" = "-0.000001" ∧ inverse_chunk "1e400" = "-Infinity" ∧
  inverse_chunk "5e-324" = "-5e-324" ∧ inverse_chunk "2e-400" = "0" ∧
  inverse_chunk "." = "NaN" ∧ inverse_chunk "1e" = "NaN" ∧
  inverse_chunk (String (Ascii.ascii_of_nat 194) (String (Ascii.ascii_of_nat 160) "7")) = "-7" ∧
  inverse_chunk (String (Ascii.ascii_of_nat 255) "7") = "NaN".
Proof. split_and!; vm_compute; reflexivity. Qed.

(** ** Examples on concrete inputs *)


